(** * supabase-ues-live: events platform with per-event live chat

    A shallow embedding of the client code of the repository (the typed
    repositories of [src/lib/events.ts] and [src/lib/messages.ts], the
    event-detail view and the create-event form) together with the part of
    the hosted platform the code talks to: the two tables of
    [supabase/migrations/001_events_and_chat.sql] and the realtime channels.

    Conventions.
    - A JavaScript string is a [string]; its characters are code units.
    - [null]/[undefined] are [None].
    - A server-assigned [TIMESTAMPTZ] column ([created_at], [updated_at]) is
      an instant in [Z], and the store orders rows by instants; [events.date]
      stays the text the client sent, its order is not used here.
    - A React state variable is a field of the view record; [setX v] is a
      record update; [setX (fun prev => ...)] is a function on the field.
    - An [async] function is split at its [await]: the part before it sends
      the call, the part after it ([..._resume]) receives the answer. *)

From stdpp Require Import base option list strings gmap sorting.
From Stdlib Require Import ZArith Lia Ascii.
From stdpp Require Import pretty.

Local Open Scope string_scope.
Local Open Scope list_scope.

(** ** Database types ([src/types/database.ts]) *)

Module Event.
Record t := mk {
  id : string;
  title : string;
  description : option string;
  date : string;
  location : string;
  created_at : Z;
  updated_at : Z
}.
End Event.

Module ChatMessage.
Record t := mk {
  id : string;
  event_id : string;
  user_id : string;
  content : string;
  created_at : Z
}.
End ChatMessage.

Module CreateEventInput.
Record t := mk {
  title : string;
  description : option string;
  date : string;
  location : string
}.
End CreateEventInput.

Module UpdateEventInput.
(** Every field is optional; [description] may also be set to [null],
    hence the nested option. *)
Record t := mk {
  title : option string;
  description : option (option string);
  date : option string;
  location : option string
}.
End UpdateEventInput.

Module CreateMessageInput.
Record t := mk {
  event_id : string;
  user_id : string;
  content : string
}.
End CreateMessageInput.

#[global] Instance ChatMessage_eq_dec : EqDecision ChatMessage.t.
Proof. solve_decision. Defined.

#[global] Instance Event_eq_dec : EqDecision Event.t.
Proof. solve_decision. Defined.

#[global] Instance CreateEventInput_eq_dec : EqDecision CreateEventInput.t.
Proof. solve_decision. Defined.

#[global] Instance CreateMessageInput_eq_dec : EqDecision CreateMessageInput.t.
Proof. solve_decision. Defined.

(** ** Message-stream merge (the callback of [subscribeToMessages] in the
    event-detail view) *)

Module MessageStream.

(** [prev.some((msg) => msg.id === newMessage.id)] *)
Definition some_same_id (newMessage : ChatMessage.t) (prev : list ChatMessage.t) : bool :=
  existsb (fun msg => String.eqb (ChatMessage.id msg) (ChatMessage.id newMessage)) prev.

(** The updater handed to [setMessages]:
    [(prev) => prev.some(...) ? prev : [...prev, newMessage]]. *)
Definition onRemoteInsert (newMessage : ChatMessage.t) (prev : list ChatMessage.t)
  : list ChatMessage.t :=
  if some_same_id newMessage prev then prev else prev ++ [newMessage].

(** A sequence of deliveries, oldest first, applied to the local sequence. *)
Definition deliveries (ds : list ChatMessage.t) (local : list ChatMessage.t)
  : list ChatMessage.t :=
  fold_left (fun prev m => onRemoteInsert m prev) ds local.

Definition ids (l : list ChatMessage.t) : list string := ChatMessage.id <$> l.

(** Number of entries of [l] carrying identifier [i]. *)
Definition entries_with_id (i : string) (l : list ChatMessage.t) : nat :=
  length (filter (fun m => ChatMessage.id m = i) l).

(** Reference description of the merge, following the specification's
    words: going through the deliveries in arrival order, keep a message
    exactly when its identifier has not been seen before. *)
Fixpoint first_seen (seen : list string) (ds : list ChatMessage.t) : list ChatMessage.t :=
  match ds with
  | [] => []
  | m :: ds' =>
      if bool_decide (ChatMessage.id m ∈ seen) then first_seen seen ds'
      else m :: first_seen (ChatMessage.id m :: seen) ds'
  end.

End MessageStream.

(** ** JavaScript values *)

Module Js.

(** [!!s] for a string: the empty string is falsy. *)
Definition truthy (s : string) : bool := negb (String.eqb s "").

(** [!!v] for [string | null | undefined]. *)
Definition truthy_opt (o : option string) : bool :=
  match o with
  | Some s => truthy s
  | None => false
  end.

(** [a || b] where [a : string]. *)
Definition or_else (a b : string) : string := if truthy a then a else b.

(** [a || null] where [a : string | null | undefined]. *)
Definition or_null (a : option string) : option string :=
  match a with
  | Some s => if truthy s then Some s else None
  | None => None
  end.

(** White space and line terminators among the code units below 256:
    TAB, LF, VT, FF, CR, SPACE and NBSP. *)
Definition is_space (c : Ascii.ascii) : bool :=
  let n := Ascii.N_of_ascii c in
  ((9 <=? n) && (n <=? 13) || (n =? 32) || (n =? 160))%N.

Fixpoint trimStart (s : string) : string :=
  match s with
  | String c s' => if is_space c then trimStart s' else s
  | EmptyString => EmptyString
  end.

(** Drops the trailing white space: a character is kept when it is not a
    space or when something is kept after it. *)
Fixpoint trimEnd (s : string) : string :=
  match s with
  | String c s' =>
      match trimEnd s' with
      | EmptyString => if is_space c then EmptyString else String c EmptyString
      | t => String c t
      end
  | EmptyString => EmptyString
  end.

(** [String.prototype.trim] *)
Definition trim (s : string) : string := trimEnd (trimStart s).

(** What an [await] hands back: the promise's value, or the exception the
    [catch] block receives. *)
Inductive Outcome (A : Type) :=
| Resolved (a : A)
| Rejected (reason : string).
Arguments Resolved {A} a.
Arguments Rejected {A} reason.

End Js.

(** ** The hosted relational store
    ([supabase/migrations/001_events_and_chat.sql]) *)

Module Store.

Record PostgrestError := mkError { message : string; code : string }.

(** The [{ data, error }] pair every query resolves to. *)
Record Response (A : Type) := mkResponse { data : option A; error : option PostgrestError }.
Arguments mkResponse {A} data error.
Arguments data {A} r.
Arguments error {A} r.

Definition ok {A} (a : A) : Response A := mkResponse (Some a) None.
Definition failed {A} (e : PostgrestError) : Response A := mkResponse None (Some e).

(** Tables [public.events] and [public.chat_messages], and the identifiers
    of [auth.users], which [chat_messages.user_id] references. *)
Record Database := mkDatabase {
  events : list Event.t;
  chat_messages : list ChatMessage.t;
  auth_users : list string
}.

(** What the platform decides for one request: whether the request fails
    before reaching the tables (network, authorization), and the values of
    [gen_random_uuid()] and [now()] it would use. *)
Record Env := mkEnv {
  fault : option PostgrestError;
  uuid : string;
  now : Z
}.

Definition unique_violation : PostgrestError :=
  mkError "duplicate key value violates unique constraint" "23505".
Definition foreign_key_violation : PostgrestError :=
  mkError "insert or update on table violates foreign key constraint" "23503".
Definition no_single_row : PostgrestError :=
  mkError "JSON object requested, multiple (or no) rows returned" "PGRST116".

Definition event_ids (db : Database) : list string := Event.id <$> events db.
Definition message_ids (db : Database) : list string := ChatMessage.id <$> chat_messages db.

(** [created_at] ascending. *)
Definition created_le (a b : ChatMessage.t) : Prop :=
  (ChatMessage.created_at a <= ChatMessage.created_at b)%Z.

#[global] Instance created_le_dec : RelDecision created_le.
Proof. intros a b. unfold created_le. apply _. Defined.

(** [.order("created_at", { ascending: true })] *)
Definition order_by_created_at (rows : list ChatMessage.t) : list ChatMessage.t :=
  merge_sort created_le rows.

(** [.eq("event_id", eventId)] on [chat_messages] *)
Definition eq_event_id (eventId : string) (rows : list ChatMessage.t) : list ChatMessage.t :=
  filter (fun m => ChatMessage.event_id m = eventId) rows.

(** [.single()]: exactly one row, or error PGRST116. *)
Definition single {A} (rows : list A) : Response A :=
  match rows with
  | [row] => ok row
  | _ => failed no_single_row
  end.

(** The primary keys and foreign keys of the schema. *)
Definition well_formed (db : Database) : Prop :=
  NoDup (event_ids db) ∧ NoDup (message_ids db) ∧
  ∀ m, m ∈ chat_messages db →
       ChatMessage.event_id m ∈ event_ids db ∧ ChatMessage.user_id m ∈ auth_users db.

End Store.

(** ** Events repository ([src/lib/events.ts]) *)

Module Events.
Import Store.

(** The row [INSERT] builds: [id], [created_at] and [updated_at] take their
    column defaults. *)
Definition inserted_row (env : Env) (input : CreateEventInput.t) : Event.t :=
  Event.mk (uuid env) (CreateEventInput.title input) (CreateEventInput.description input)
           (CreateEventInput.date input) (CreateEventInput.location input)
           (now env) (now env).

(** [from("events").select("*").eq("id", id).single()] *)
Definition getEventById (env : Env) (id : string) (db : Database)
  : Response Event.t * Database :=
  match fault env with
  | Some e => (failed e, db)
  | None => (single (filter (fun ev => Event.id ev = id) (events db)), db)
  end.

(** [from("events").insert([input]).select().single()] *)
Definition createEvent (env : Env) (input : CreateEventInput.t) (db : Database)
  : Response Event.t * Database :=
  match fault env with
  | Some e => (failed e, db)
  | None =>
      if bool_decide (uuid env ∈ event_ids db) then (failed unique_violation, db)
      else
        let row := inserted_row env input in
        (single [row], mkDatabase (events db ++ [row]) (chat_messages db) (auth_users db))
  end.

(** [SET] clause of the update, followed by the [update_events_updated_at]
    trigger. *)
Definition updated_row (env : Env) (input : UpdateEventInput.t) (ev : Event.t) : Event.t :=
  Event.mk (Event.id ev)
           (default (Event.title ev) (UpdateEventInput.title input))
           (default (Event.description ev) (UpdateEventInput.description input))
           (default (Event.date ev) (UpdateEventInput.date input))
           (default (Event.location ev) (UpdateEventInput.location input))
           (Event.created_at ev)
           (now env).

(** [from("events").update(input).eq("id", id).select().single()] *)
Definition updateEvent (env : Env) (id : string) (input : UpdateEventInput.t) (db : Database)
  : Response Event.t * Database :=
  match fault env with
  | Some e => (failed e, db)
  | None =>
      let upd ev := if bool_decide (Event.id ev = id) then updated_row env input ev else ev in
      (single (map (updated_row env input) (filter (fun ev => Event.id ev = id) (events db))),
       mkDatabase (map upd (events db)) (chat_messages db) (auth_users db))
  end.

(** [from("events").delete().eq("id", id)]; the rows of [chat_messages]
    that reference a deleted event go with it ([ON DELETE CASCADE]). *)
Definition deleteEvent (env : Env) (id : string) (db : Database)
  : option PostgrestError * Database :=
  match fault env with
  | Some e => (Some e, db)
  | None =>
      (None,
       mkDatabase (filter (fun ev => Event.id ev ≠ id) (events db))
                  (filter (fun m => ChatMessage.event_id m ≠ id) (chat_messages db))
                  (auth_users db))
  end.

End Events.

(** ** Messages repository ([src/lib/messages.ts]), queries *)

Module Messages.
Import Store.

(** [from("chat_messages").select("*").eq("event_id", eventId)
      .order("created_at", { ascending: true })] *)
Definition getMessagesByEvent (env : Env) (eventId : string) (db : Database)
  : Response (list ChatMessage.t) * Database :=
  match fault env with
  | Some e => (failed e, db)
  | None => (ok (order_by_created_at (eq_event_id eventId (chat_messages db))), db)
  end.

Definition inserted_row (env : Env) (input : CreateMessageInput.t) : ChatMessage.t :=
  ChatMessage.mk (uuid env) (CreateMessageInput.event_id input)
                 (CreateMessageInput.user_id input) (CreateMessageInput.content input)
                 (now env).

(** [from("chat_messages").insert([input]).select().single()] *)
Definition createMessage (env : Env) (input : CreateMessageInput.t) (db : Database)
  : Response ChatMessage.t * Database :=
  match fault env with
  | Some e => (failed e, db)
  | None =>
      if bool_decide (uuid env ∈ message_ids db) then (failed unique_violation, db)
      else if bool_decide (CreateMessageInput.event_id input ∈ event_ids db
                           ∧ CreateMessageInput.user_id input ∈ auth_users db)
      then
        let row := inserted_row env input in
        (single [row], mkDatabase (events db) (chat_messages db ++ [row]) (auth_users db))
      else (failed foreign_key_violation, db)
  end.

(** [from("chat_messages").delete().eq("id", id)] *)
Definition deleteMessage (env : Env) (id : string) (db : Database)
  : option PostgrestError * Database :=
  match fault env with
  | Some e => (Some e, db)
  | None =>
      (None,
       mkDatabase (events db)
                  (filter (fun m => ChatMessage.id m ≠ id) (chat_messages db))
                  (auth_users db))
  end.

End Messages.

(** ** Realtime channels (the part of the platform's client the code uses) *)

Module Realtime.

Record PresenceEntry := mkPresence { user_id : string; online_at : string }.

Inductive PresenceEvent := sync | join | leave.

Inductive Status := SUBSCRIBED | TIMED_OUT | CLOSED | CHANNEL_ERROR.

Section Channels.
(** [V] is the state the registered callbacks act on. *)
Context {V : Type}.

(** One [.on(...)] registration. A presence callback reads
    [channel.presenceState()] when it runs, so it takes that state. *)
Inductive Binding :=
| on_postgres_changes (event schema table filter : string)
                      (callback : ChatMessage.t → V → V)
| on_presence (event : PresenceEvent)
              (callback : gmap string PresenceEntry → V → V).

Record Channel := mkChannel {
  topic : string;
  presence_key : option string;
  bindings : list Binding;
  (** the callback of [.subscribe(...)]: from the status and the clock's
      reading to the payload it tracks, if any *)
  status_callback : option (Status → string → option PresenceEntry);
  subscribed : bool;
  presenceState : gmap string PresenceEntry
}.

(** A [RealtimeChannel] handle is the position of the channel among those the
    client has created; two copies of a handle alias the same channel. *)
Definition RealtimeChannel := nat.

(** [.subscribe(cb)] on a fresh channel: the channel joins the client. *)
Definition subscribe (ch : Channel) (c : list Channel)
  : RealtimeChannel * list Channel :=
  (List.length c, c ++ [ch]).

Definition close (ch : Channel) : Channel :=
  mkChannel (topic ch) (presence_key ch) (bindings ch) (status_callback ch)
            false (presenceState ch).

(** [channel.unsubscribe()] *)
Definition unsubscribe (h : RealtimeChannel) (c : list Channel) : list Channel :=
  alter close h c.

Definition with_presence (st : gmap string PresenceEntry) (ch : Channel) : Channel :=
  mkChannel (topic ch) (presence_key ch) (bindings ch) (status_callback ch)
            (subscribed ch) st.

(** Modelled from the spec: the platform's presence state, which is kept
    outside this repository, is "a mapping from principal identifier to a
    small record", a tracked member being one key of it. Tracking under a
    key adds the key. *)
Definition track (key : string) (entry : PresenceEntry) (ch : Channel) : Channel :=
  with_presence (<[key := entry]> (presenceState ch)) ch.

(** Modelled from the spec: a member that leaves is removed from the
    platform's presence state. *)
Definition untrack (key : string) (ch : Channel) : Channel :=
  with_presence (delete key (presenceState ch)) ch.

(** The client runs the callbacks bound to an incoming row insert, in
    registration order. *)
Definition trigger_insert (ch : Channel) (new : ChatMessage.t) (v : V) : V :=
  fold_left (fun v b =>
               match b with
               | on_postgres_changes _ _ _ _ callback => callback new v
               | on_presence _ _ => v
               end) (bindings ch) v.

Definition same_event (a b : PresenceEvent) : bool :=
  match a, b with
  | sync, sync | join, join | leave, leave => true
  | _, _ => false
  end.

(** The client runs the callbacks bound to a presence event. *)
Definition trigger_presence (ch : Channel) (ev : PresenceEvent) (v : V) : V :=
  fold_left (fun v b =>
               match b with
               | on_presence ev' callback =>
                   if same_event ev ev' then callback (presenceState ch) v else v
               | on_postgres_changes _ _ _ _ _ => v
               end) (bindings ch) v.

(** The handshake's answer reaches the [.subscribe] callback, which may
    track a payload under the channel's presence key. *)
Definition trigger_status (status : Status) (clock : string) (ch : Channel) : Channel :=
  match status_callback ch, presence_key ch with
  | Some cb, Some key =>
      match cb status clock with
      | Some payload => track key payload ch
      | None => ch
      end
  | _, _ => ch
  end.

End Channels.
Arguments Binding V : clear implicits.
Arguments Channel V : clear implicits.

(** The client: the channels created so far, in creation order. *)
Abbreviation Client V := (list (Channel V)) (only parsing).

(** [Object.keys(state)] *)
Definition Object_keys (state : gmap string PresenceEntry) : list string :=
  (map_to_list state).*1.

End Realtime.

(** ** The page's surroundings: notifications, router, network, console *)

Module Toast.
Inductive t := error (msg : string) | success (msg : string).
End Toast.

Module Request.
(** A call that leaves the browser. *)
Inductive t :=
| auth_getSession
| getEventById (id : string)
| getMessagesByEvent (eventId : string)
| createMessage (input : CreateMessageInput.t)
| createEvent (input : CreateEventInput.t).
End Request.

Module Wire.
(** What the realtime client puts on the socket, by channel topic. *)
Inductive t := join (topic : string) | leave (topic : string).
End Wire.

Record World (V : Type) := mkWorld {
  view : V;                               (** the component's state variables *)
  realtime : Realtime.Client V;           (** channels created so far *)
  wire : list Wire.t;                     (** joins and leaves, oldest first *)
  requests : list Request.t;              (** network calls, oldest first *)
  toasts : list Toast.t;                  (** notifications, oldest first *)
  navigations : list string;              (** [navigate(...)] targets *)
  console : list string                   (** [console.error] lines *)
}.
Arguments mkWorld {V}.
Arguments view {V}.
Arguments realtime {V}.
Arguments wire {V}.
Arguments requests {V}.
Arguments toasts {V}.
Arguments navigations {V}.
Arguments console {V}.

(** Code of a component: it reads and writes the world and hands back a
    value. *)
Definition Eff (V A : Type) : Type := World V → A * World V.

Definition ret {V A} (a : A) : Eff V A := fun w => (a, w).

Definition bind {V A B} (m : Eff V A) (k : A → Eff V B) : Eff V B :=
  fun w => let (a, w') := m w in k a w'.

Notation "x <- m ;; k" := (bind m (fun x => k))
  (at level 100, m at next level, right associativity).
Notation "m ;;; k" := (bind m (fun _ => k))
  (at level 100, right associativity).

Definition exec {V A} (m : Eff V A) (w : World V) : World V := (m w).2.

Definition get {V} : Eff V V := fun w => (view w, w).

Definition modify {V} (f : V → V) : Eff V unit :=
  fun w => (tt, mkWorld (f (view w)) (realtime w) (wire w) (requests w) (toasts w)
                        (navigations w) (console w)).

Definition toast_error {V} (msg : string) : Eff V unit :=
  fun w => (tt, mkWorld (view w) (realtime w) (wire w) (requests w)
                        (toasts w ++ [Toast.error msg]) (navigations w) (console w)).

Definition toast_success {V} (msg : string) : Eff V unit :=
  fun w => (tt, mkWorld (view w) (realtime w) (wire w) (requests w)
                        (toasts w ++ [Toast.success msg]) (navigations w) (console w)).

Definition navigate {V} (to : string) : Eff V unit :=
  fun w => (tt, mkWorld (view w) (realtime w) (wire w) (requests w) (toasts w)
                        (navigations w ++ [to]) (console w)).

Definition console_error {V} (line : string) : Eff V unit :=
  fun w => (tt, mkWorld (view w) (realtime w) (wire w) (requests w) (toasts w)
                        (navigations w) (console w ++ [line])).

(** The call is sent; its answer comes back at the matching [await]. *)
Definition send {V} (r : Request.t) : Eff V unit :=
  fun w => (tt, mkWorld (view w) (realtime w) (wire w) (requests w ++ [r]) (toasts w)
                        (navigations w) (console w)).

(** A channel built by one of the [subscribeTo...] functions joins. *)
Definition open_channel {V}
    (subscribeTo : Realtime.Client V → Realtime.RealtimeChannel * Realtime.Client V)
  : Eff V Realtime.RealtimeChannel :=
  fun w => let (h, c) := subscribeTo (realtime w) in
           (h, mkWorld (view w) c
                       (wire w ++ from_option (fun ch => [Wire.join (Realtime.topic ch)]) [] (c !! h))
                       (requests w) (toasts w) (navigations w) (console w)).

(** [channel.unsubscribe()] through a handle. *)
Definition close_channel {V} (h : Realtime.RealtimeChannel) : Eff V unit :=
  fun w => (tt, mkWorld (view w) (Realtime.unsubscribe h (realtime w))
                        (wire w ++ from_option (fun ch => [Wire.leave (Realtime.topic ch)]) []
                                               (realtime w !! h))
                        (requests w) (toasts w) (navigations w) (console w)).

(** The platform changes a channel (its presence state, say). *)
Definition on_channel {V} (h : Realtime.RealtimeChannel)
    (f : Realtime.Channel V → Realtime.Channel V) : Eff V unit :=
  fun w => (tt, mkWorld (view w) (alter f h (realtime w)) (wire w) (requests w) (toasts w)
                        (navigations w) (console w)).

Definition when {V} (b : bool) (m : Eff V unit) : Eff V unit :=
  if b then m else ret tt.

(** ** Messages repository ([src/lib/messages.ts]), subscriptions *)

Module Subscriptions.
Import Realtime.

Section WithView.
Context {V : Type}.

(** The channel [subscribeToMessages] builds before it subscribes:
    [supabase.channel(`messages:${eventId}`).on("postgres_changes", ...)]. *)
Definition messages_channel (eventId : string) (callback : ChatMessage.t → V → V)
  : Channel V :=
  mkChannel ("messages:" +:+ eventId) None
    [on_postgres_changes "INSERT" "public" "chat_messages" ("event_id=eq." +:+ eventId)
       (fun payload_new => callback payload_new)]
    None true ∅.

(** [subscribeToMessages(eventId, callback)] *)
Definition subscribeToMessages (eventId : string) (callback : ChatMessage.t → V → V)
  : Client V → RealtimeChannel * Client V :=
  subscribe (messages_channel eventId callback).

(** The channel [subscribeToPresence] builds before it subscribes: presence
    key [userId], one handler per presence event, and the [.subscribe]
    callback that tracks the user once the status is [SUBSCRIBED]. *)
Definition presence_channel (eventId userId : string) (onPresenceChange : nat → V → V)
  : Channel V :=
  mkChannel ("presence:" +:+ eventId) (Some userId)
    [on_presence sync (fun state =>
       let count := length (Object_keys state) in
       onPresenceChange count);
     on_presence join (fun state =>
       let count := length (Object_keys state) in
       onPresenceChange count);
     on_presence leave (fun state =>
       let count := length (Object_keys state) in
       onPresenceChange count)]
    (Some (fun status clock =>
             match status with
             | SUBSCRIBED => Some (mkPresence userId clock)
             | _ => None
             end))
    true ∅.

(** [subscribeToPresence(eventId, userId, onPresenceChange)] *)
Definition subscribeToPresence (eventId userId : string) (onPresenceChange : nat → V → V)
  : Client V → RealtimeChannel * Client V :=
  subscribe (presence_channel eventId userId onPresenceChange).

End WithView.
End Subscriptions.

(** ** The event-detail view ([src/pages/EventDetail.tsx]) *)

Module EventDetail.
Import Js Store Realtime.

(** The signed-in principal as [supabase.auth.getSession()] reports it. *)
Record Session := mkSession { session_user_id : string; session_user_email : option string }.

Record View := mkView {
  id : option string;                     (** [useParams().id] *)
  event : option Event.t;
  messages : list ChatMessage.t;
  loading : bool;
  sending : bool;
  messageText : string;
  currentUserId : option string;
  userEmail : option string;
  onlineUsersCount : nat;
  (** [messageChannel] and [presenceChannel] of the realtime effect's last
      run, as its cleanup function holds them; [None] when that run
      returned no cleanup *)
  realtime_closure : option (option RealtimeChannel * option RealtimeChannel)
}.

(** The [useState] initial values. *)
Definition initial (param : option string) : View :=
  mkView param None [] true false "" None None 0 None.

Definition setId (x : option string) (v : View) : View :=
  mkView x (event v) (messages v) (loading v) (sending v) (messageText v)
         (currentUserId v) (userEmail v) (onlineUsersCount v) (realtime_closure v).
Definition setEvent (x : option Event.t) (v : View) : View :=
  mkView (id v) x (messages v) (loading v) (sending v) (messageText v)
         (currentUserId v) (userEmail v) (onlineUsersCount v) (realtime_closure v).
Definition setMessages (f : list ChatMessage.t → list ChatMessage.t) (v : View) : View :=
  mkView (id v) (event v) (f (messages v)) (loading v) (sending v) (messageText v)
         (currentUserId v) (userEmail v) (onlineUsersCount v) (realtime_closure v).
Definition setLoading (x : bool) (v : View) : View :=
  mkView (id v) (event v) (messages v) x (sending v) (messageText v)
         (currentUserId v) (userEmail v) (onlineUsersCount v) (realtime_closure v).
Definition setSending (x : bool) (v : View) : View :=
  mkView (id v) (event v) (messages v) (loading v) x (messageText v)
         (currentUserId v) (userEmail v) (onlineUsersCount v) (realtime_closure v).
Definition setMessageText (x : string) (v : View) : View :=
  mkView (id v) (event v) (messages v) (loading v) (sending v) x
         (currentUserId v) (userEmail v) (onlineUsersCount v) (realtime_closure v).
Definition setCurrentUserId (x : option string) (v : View) : View :=
  mkView (id v) (event v) (messages v) (loading v) (sending v) (messageText v)
         x (userEmail v) (onlineUsersCount v) (realtime_closure v).
Definition setUserEmail (x : option string) (v : View) : View :=
  mkView (id v) (event v) (messages v) (loading v) (sending v) (messageText v)
         (currentUserId v) x (onlineUsersCount v) (realtime_closure v).
Definition setOnlineUsersCount (x : nat) (v : View) : View :=
  mkView (id v) (event v) (messages v) (loading v) (sending v) (messageText v)
         (currentUserId v) (userEmail v) x (realtime_closure v).
Definition set_realtime_closure
    (x : option (option RealtimeChannel * option RealtimeChannel)) (v : View) : View :=
  mkView (id v) (event v) (messages v) (loading v) (sending v) (messageText v)
         (currentUserId v) (userEmail v) (onlineUsersCount v) x.

(** *** First effect: the current user *)

Definition getCurrentUser : Eff View unit := send Request.auth_getSession.

Definition getCurrentUser_resume (session : option Session) : Eff View unit :=
  modify (setCurrentUserId (or_null (session_user_id <$> session))) ;;;
  modify (setUserEmail (or_null (session ≫= session_user_email))).

(** *** Second effect: the event *)

Definition fetchEvent_effect : Eff View unit :=
  v <- get ;;
  match id v with
  | Some i => when (truthy i) (send (Request.getEventById i))
  | None => ret tt
  end.

Definition fetchEvent_resume (o : Outcome (Response Event.t)) : Eff View unit :=
  match o with
  | Resolved r =>
      match error r with
      | Some e =>
          toast_error (or_else (message e) "Error al cargar el evento") ;;;
          navigate "/events/list"
      | None => modify (setEvent (data r))
      end
  | Rejected _ =>
      console_error "Error al cargar evento:" ;;;
      toast_error "Error inesperado al cargar el evento" ;;;
      navigate "/events/list"
  end.

(** *** Third effect: the initial messages *)

Definition fetchMessages_effect : Eff View unit :=
  v <- get ;;
  match id v with
  | Some i => when (truthy i) (send (Request.getMessagesByEvent i))
  | None => ret tt
  end.

Definition fetchMessages_resume (o : Outcome (Response (list ChatMessage.t))) : Eff View unit :=
  match o with
  | Resolved r =>
      match error r with
      | Some e => toast_error (or_else (message e) "Error al cargar mensajes")
      | None =>
          modify (setMessages (fun _ => default [] (data r))) ;;;
          modify (setLoading false)
      end
  | Rejected _ =>
      console_error "Error al cargar mensajes:" ;;;
      toast_error "Error inesperado al cargar mensajes" ;;;
      modify (setLoading false)
  end.

(** *** Fourth effect: the realtime subscriptions *)

(** The callback given to [subscribeToMessages]; the scroll it schedules
    afterwards touches no state. *)
Definition messageCallback (newMessage : ChatMessage.t) : View → View :=
  setMessages (MessageStream.onRemoteInsert newMessage).

(** The callback given to [subscribeToPresence]. *)
Definition presenceCallback (count : nat) : View → View :=
  setOnlineUsersCount count.

Definition setupRealtime (i : string) (currentUserId : option string)
  : Eff View (option RealtimeChannel * option RealtimeChannel) :=
  messageChannel <- open_channel (Subscriptions.subscribeToMessages i messageCallback) ;;
  match currentUserId with
  | Some u =>
      if truthy u then
        presenceChannel <- open_channel (Subscriptions.subscribeToPresence i u presenceCallback) ;;
        ret (Some messageChannel, Some presenceChannel)
      else ret (Some messageChannel, None)
  | None => ret (Some messageChannel, None)
  end.

Definition realtime_effect : Eff View unit :=
  v <- get ;;
  match id v with
  | Some i =>
      if truthy i then
        closure <- setupRealtime i (currentUserId v) ;;
        modify (set_realtime_closure (Some closure))
      else modify (set_realtime_closure None)
  | None => modify (set_realtime_closure None)
  end.

Definition unsubscribe_if (h : option RealtimeChannel) : Eff View unit :=
  match h with
  | Some ch => close_channel ch
  | None => ret tt
  end.

(** The function the effect returns. *)
Definition realtime_cleanup : Eff View unit :=
  v <- get ;;
  match realtime_closure v with
  | Some (messageChannel, presenceChannel) =>
      unsubscribe_if messageChannel ;;;
      unsubscribe_if presenceChannel ;;;
      modify (set_realtime_closure None)
  | None => ret tt
  end.

(** *** React's bookkeeping *)

(** The commit after a state change: the effects whose dependencies
    changed are run again, every cleanup before any effect body. The fifth
    effect (scrolling when [messages] changes) touches no state. *)
Definition commit (before : View) : Eff View unit :=
  v <- get ;;
  let id_changed := bool_decide (id before ≠ id v) in
  let realtime_changed :=
    id_changed || bool_decide (currentUserId before ≠ currentUserId v) in
  when realtime_changed realtime_cleanup ;;;
  when id_changed fetchEvent_effect ;;;
  when id_changed fetchMessages_effect ;;;
  when realtime_changed realtime_effect.

(** A callback that sets state, followed by the commit. *)
Definition update (m : Eff View unit) : Eff View unit :=
  before <- get ;;
  m ;;;
  commit before.

(** First render at route [/events/:id], then the effects in source
    order. *)
Definition mount (param : option string) : Eff View unit :=
  modify (fun _ => initial param) ;;;
  getCurrentUser ;;;
  fetchEvent_effect ;;;
  fetchMessages_effect ;;;
  realtime_effect.

Definition unmount : Eff View unit := realtime_cleanup.

(** *** Sending a message *)

(** [handleSendMessage] up to its [await]; the result tells whether a call
    is awaited. *)
Definition handleSendMessage : Eff View bool :=
  v <- get ;;
  if negb (truthy (trim (messageText v)))
     || negb (truthy_opt (currentUserId v))
     || negb (truthy_opt (id v))
  then
    when (negb (truthy_opt (currentUserId v)))
         (toast_error "Debes iniciar sesión para enviar mensajes" ;;;
          navigate "/login") ;;;
    ret false
  else
    modify (setSending true) ;;;
    send (Request.createMessage
            (CreateMessageInput.mk (default "" (id v))
                                   (default "" (currentUserId v))
                                   (trim (messageText v)))) ;;;
    ret true.

(** [handleSendMessage] from the [await] on, [finally] included. *)
Definition handleSendMessage_resume (o : Outcome (Response ChatMessage.t)) : Eff View unit :=
  match o with
  | Resolved r =>
      match error r with
      | Some e => toast_error (or_else (message e) "Error al enviar mensaje")
      | None => modify (setMessageText "")
      end
  | Rejected _ =>
      console_error "Error al enviar mensaje:" ;;;
      toast_error "Error inesperado al enviar mensaje"
  end ;;;
  modify (setSending false).

(** *** What reaches the view *)

Inductive Input :=
| ParamChange (param : option string)
| SessionResolved (session : option Session)
| EventFetched (o : Outcome (Response Event.t))
| MessagesFetched (o : Outcome (Response (list ChatMessage.t)))
| Inserted (ch : RealtimeChannel) (new : ChatMessage.t)
| ChannelStatus (ch : RealtimeChannel) (status : Status) (clock : string)
| MemberTracked (ch : RealtimeChannel) (key : string) (entry : PresenceEntry)
| MemberLeft (ch : RealtimeChannel) (key : string)
| Presence (ch : RealtimeChannel) (ev : PresenceEvent)
| Typed (text : string)
| Submitted
| MessageSent (o : Outcome (Response ChatMessage.t)).

(** The client runs the callbacks of channel [h]; whether [h] is still
    subscribed is the transport's business, the client does not look. *)
Definition deliver (h : RealtimeChannel) (f : Channel View → View → View) : Eff View unit :=
  fun w =>
    match realtime w !! h with
    | Some ch => modify (f ch) w
    | None => (tt, w)
    end.

Definition step (i : Input) : Eff View unit :=
  match i with
  | ParamChange param => update (modify (setId param))
  | SessionResolved session => update (getCurrentUser_resume session)
  | EventFetched o => update (fetchEvent_resume o)
  | MessagesFetched o => update (fetchMessages_resume o)
  | Inserted h new => update (deliver h (fun ch => trigger_insert ch new))
  | ChannelStatus h status clock => on_channel h (trigger_status status clock)
  | MemberTracked h key entry => on_channel h (track key entry)
  | MemberLeft h key => on_channel h (untrack key)
  | Presence h ev => update (deliver h (fun ch => trigger_presence ch ev))
  | Typed text => update (modify (setMessageText text))
  | Submitted => update (handleSendMessage ;;; ret tt)
  | MessageSent o => update (handleSendMessage_resume o)
  end.

Definition run (inputs : list Input) : Eff View unit :=
  fun w => (tt, fold_left (fun w i => exec (step i) w) inputs w).

(** The world before the view exists. *)
Definition nothing : World View := mkWorld (initial None) [] [] [] [] [] [].

(** Topics of the channels that are subscribed, in creation order. *)
Definition open_topics (w : World View) : list string :=
  topic <$> filter (fun ch => subscribed ch = true) (realtime w).

(** *** Rendering of the chat area *)

Inductive ChatArea :=
| NoMessagesYet                           (** "No hay mensajes aún. ..." *)
| MessageList (ms : list ChatMessage.t).

Inductive Screen :=
| Skeleton
| Detail (ev : Event.t) (online_badge : option nat) (message_badge : nat) (chat : ChatArea).

Definition chat_area (v : View) : ChatArea :=
  if (length (messages v) =? 0)%nat then NoMessagesYet else MessageList (messages v).

Definition render (v : View) : Screen :=
  match loading v, event v with
  | false, Some ev =>
      Detail ev
             (if (0 <? onlineUsersCount v)%nat then Some (onlineUsersCount v) else None)
             (length (messages v))
             (chat_area v)
  | _, _ => Skeleton
  end.

End EventDetail.

(** ** The part of [Date] the create-event form uses *)

Module JsDate.
Local Open Scope Z_scope.

(** A time value is a number of milliseconds since the epoch, at most
    8.64e15 in absolute value; [None] stands for [NaN]. *)
Definition max_time : Z := 8640000000000000.

Definition TimeClip (t : Z) : option Z :=
  if Z.abs t <=? max_time then Some t else None.

Definition msPerDay : Z := 86400000.

Definition Day (t : Z) : Z := t / msPerDay.

Definition TimeWithinDay (t : Z) : Z := t mod msPerDay.

(** Year, month (1 to 12) and day of the month (1 to 31) of a day number in
    the proleptic Gregorian calendar, by 400-year eras starting on 1 March. *)
Definition civil_from_days (days : Z) : Z * Z * Z :=
  let z := days + 719468 in
  let era := z / 146097 in
  let doe := z - era * 146097 in
  let yoe := (doe - doe / 1460 + doe / 36524 - doe / 146096) / 365 in
  let doy := doe - (365 * yoe + yoe / 4 - yoe / 100) in
  let mp := (5 * doy + 2) / 153 in
  let d := doy - (153 * mp + 2) / 5 + 1 in
  let m := if mp <? 10 then mp + 3 else mp - 9 in
  let y := yoe + era * 400 + (if m <=? 2 then 1 else 0) in
  (y, m, d).

Definition digit (n : Z) : Ascii.ascii := Ascii.ascii_of_N (48 + Z.to_N n).

(** The last [width] decimal digits of [n], most significant first. *)
Fixpoint pad (width : nat) (n : Z) : string :=
  match width with
  | O => EmptyString
  | S w => String (digit ((n / 10 ^ Z.of_nat w) mod 10)) (pad w n)
  end.

(** Four digits for the years 0 to 9999, a sign and six digits otherwise. *)
Definition year_string (y : Z) : string :=
  if (0 <=? y) && (y <=? 9999) then pad 4 y
  else (if y <? 0 then "-" else "+") +:+ pad 6 (Z.abs y).

(** [Date.prototype.toISOString] on a time value. *)
Definition format_iso (t : Z) : string :=
  let '(y, m, d) := civil_from_days (Day t) in
  let ms := TimeWithinDay t in
  year_string y +:+ "-" +:+ pad 2 m +:+ "-" +:+ pad 2 d +:+ "T" +:+
  pad 2 (ms / 3600000) +:+ ":" +:+ pad 2 (ms / 60000 mod 60) +:+ ":" +:+
  pad 2 (ms / 1000 mod 60) +:+ "." +:+ pad 3 (ms mod 1000) +:+ "Z".

Section Host.
(** [Date.parse], which for strings outside the date-time format is left to
    the host. *)
Variable Date_parse : string → option Z.

(** [new Date(s)]: the time value of the date object. *)
Definition Date_new (s : string) : option Z := Date_parse s ≫= TimeClip.

(** [new Date(s).toISOString()]; [None] is the [RangeError] of an invalid
    date. *)
Definition toISOString (s : string) : option string := format_iso <$> Date_new s.

End Host.

(** *** Recognizer for the ISO 8601 timestamps of the date-time string
    format: [YYYY-MM-DDTHH:mm:ss.sssZ] or [±YYYYYY-MM-DDTHH:mm:ss.sssZ],
    with every field in range *)

Definition digit_value (c : Ascii.ascii) : option Z :=
  let n := Z.of_N (Ascii.N_of_ascii c) in
  if (48 <=? n) && (n <=? 57) then Some (n - 48) else None.

(** Reads exactly [width] digits. *)
Fixpoint digits (width : nat) (acc : Z) (s : string) : option (Z * string) :=
  match width with
  | O => Some (acc, s)
  | S w =>
      match s with
      | String c s' =>
          match digit_value c with
          | Some v => digits w (acc * 10 + v) s'
          | None => None
          end
      | EmptyString => None
      end
  end.

Definition expect (c : Ascii.ascii) (s : string) : option string :=
  match s with
  | String c' s' => if Ascii.eqb c c' then Some s' else None
  | EmptyString => None
  end.

Definition in_range (lo hi v : Z) : option unit :=
  if (lo <=? v) && (v <=? hi) then Some tt else None.

Definition year_digits (s : string) : option (Z * string) :=
  match s with
  | String c s' =>
      if Ascii.eqb c "+"%char || Ascii.eqb c "-"%char then digits 6 0 s' else digits 4 0 s
  | EmptyString => None
  end.

Definition iso8601_fields (s : string) : option unit :=
  '(_, s) ← year_digits s;
  s ← expect "-"%char s;
  '(month, s) ← digits 2 0 s;
  _ ← in_range 1 12 month;
  s ← expect "-"%char s;
  '(day, s) ← digits 2 0 s;
  _ ← in_range 1 31 day;
  s ← expect "T"%char s;
  '(hour, s) ← digits 2 0 s;
  _ ← in_range 0 23 hour;
  s ← expect ":"%char s;
  '(minute, s) ← digits 2 0 s;
  _ ← in_range 0 59 minute;
  s ← expect ":"%char s;
  '(second, s) ← digits 2 0 s;
  _ ← in_range 0 59 second;
  s ← expect "."%char s;
  '(_, s) ← digits 3 0 s;
  s ← expect "Z"%char s;
  if String.eqb s "" then Some tt else None.

Definition is_iso8601 (s : string) : bool := bool_decide (is_Some (iso8601_fields s)).

(** *** A host's [Date.parse] on what a [datetime-local] input holds *)

(** Day number of a civil date, the inverse of [civil_from_days]. *)
Definition days_from_civil (y m d : Z) : Z :=
  let y' := if m <=? 2 then y - 1 else y in
  let era := y' / 400 in
  let yoe := y' - era * 400 in
  let doy := (153 * (if 2 <? m then m - 3 else m + 9) + 2) / 5 + d - 1 in
  let doe := yoe * 365 + yoe / 4 - yoe / 100 + doy in
  era * 146097 + doe - 719468.

(** [YYYY-MM-DDTHH:mm], read as local time in a zone that is
    [offset_minutes] ahead of UTC all year round. *)
Definition parse_local (offset_minutes : Z) (s : string) : option Z :=
  '(year, s) ← digits 4 0 s;
  s ← expect "-"%char s;
  '(month, s) ← digits 2 0 s;
  _ ← in_range 1 12 month;
  s ← expect "-"%char s;
  '(day, s) ← digits 2 0 s;
  _ ← in_range 1 31 day;
  s ← expect "T"%char s;
  '(hour, s) ← digits 2 0 s;
  _ ← in_range 0 23 hour;
  s ← expect ":"%char s;
  '(minute, s) ← digits 2 0 s;
  _ ← in_range 0 59 minute;
  if String.eqb s ""
  then Some (days_from_civil year month day * msPerDay
             + hour * 3600000 + (minute - offset_minutes) * 60000)
  else None.

End JsDate.

(** ** The create-event form ([src/pages/CreateEvent.tsx]) *)

Module CreateEvent.
Import Js Store.

Record EventFormValues := mkValues {
  title : string;
  description : option string;
  date : string;
  location : string
}.

(** A validation issue: the field and its message. *)
Definition Issue : Type := string * string.

(** [eventSchema] *)
Definition eventSchema (values : EventFormValues) : list Issue :=
  (if (String.length (title values) <? 1)%nat then [("title", "El título es requerido")] else [])
  ++ (if (200 <? String.length (title values))%nat
      then [("title", "El título es demasiado largo")] else [])
  ++ match description values with
     | Some d =>
         if (1000 <? String.length d)%nat
         then [("description", "La descripción es demasiado larga")] else []
     | None => []
     end
  ++ (if (String.length (date values) <? 1)%nat then [("date", "La fecha es requerida")] else [])
  ++ (if (String.length (location values) <? 1)%nat
      then [("location", "La ubicación es requerida")] else [])
  ++ (if (200 <? String.length (location values))%nat
      then [("location", "La ubicación es demasiado larga")] else []).

(** The form as [useForm] holds it. *)
Record View := mkView { values : EventFormValues; errors : list Issue }.

(** [defaultValues] *)
Definition initial : View := mkView (mkValues "" (Some "") "" "") [].

Definition setErrors (x : list Issue) (v : View) : View := mkView (values v) x.

Definition nothing : World View := mkWorld initial [] [] [] [] [] [].

Section Host.
Variable Date_parse : string → option Z.

(** [onSubmit] up to its [await]; the result tells whether a call is
    awaited. A [RangeError] from [toISOString] lands in the [catch]. *)
Definition onSubmit (values : EventFormValues) : Eff View bool :=
  match JsDate.toISOString Date_parse (date values) with
  | Some dateValue =>
      send (Request.createEvent
              (CreateEventInput.mk (title values) (or_null (description values))
                                   dateValue (location values))) ;;;
      ret true
  | None =>
      console_error "Error al crear evento:" ;;;
      toast_error "Error inesperado al crear el evento" ;;;
      ret false
  end.

(** [onSubmit] from the [await] on. *)
Definition onSubmit_resume (o : Outcome (Response Event.t)) : Eff View unit :=
  match o with
  | Resolved r =>
      match error r with
      | Some e => toast_error (or_else (message e) "Error al crear el evento")
      | None =>
          toast_success "Evento creado exitosamente" ;;;
          navigate "/"
      end
  | Rejected _ =>
      console_error "Error al crear evento:" ;;;
      toast_error "Error inesperado al crear el evento"
  end.

(** [form.handleSubmit(onSubmit)]: the resolver runs first, and [onSubmit]
    is called only when it raises no issue. *)
Definition handleSubmit : Eff View bool :=
  v <- get ;;
  match eventSchema (values v) with
  | [] => modify (setErrors []) ;;; onSubmit (values v)
  | issues => modify (setErrors issues) ;;; ret false
  end.

End Host.

(** The user fills the form. *)
Definition fill (x : EventFormValues) : Eff View unit :=
  modify (fun v => mkView x (errors v)).

End CreateEvent.

(** ** What the subscription lifecycle maintains *)

Module Lifecycle.
Import Js Realtime EventDetail.

(** What the lifecycle looks at in a channel: the platform may change the
    rest (the presence state) at any time. *)
Definition outline (ch : Channel View) : string * bool * list (Binding View) :=
  (topic ch, subscribed ch, bindings ch).

(** The dependencies of the realtime effect, and what its cleanup holds. *)
Definition dependencies (v : View)
  : option string * option string
    * option (option RealtimeChannel * option RealtimeChannel) :=
  (id v, currentUserId v, realtime_closure v).

(** A callback that leaves the dependencies alone and keeps the message
    sequence free of repeated identifiers. *)
Definition quiet (b : Binding View) : Prop :=
  match b with
  | on_postgres_changes _ _ _ _ callback =>
      ∀ new v,
        dependencies (callback new v) = dependencies v
        ∧ (NoDup (MessageStream.ids (messages v)) →
           NoDup (MessageStream.ids (messages (callback new v))))
  | on_presence _ callback =>
      ∀ state v,
        dependencies (callback state v) = dependencies v
        ∧ messages (callback state v) = messages v
  end.

(** A fetched batch whose rows have distinct identifiers, as rows of a
    table with a primary key have. *)
Definition distinct_batch (i : Input) : Prop :=
  match i with
  | MessagesFetched (Resolved r) =>
      ∀ rows, Store.data r = Some rows → NoDup (MessageStream.ids rows)
  | _ => True
  end.

(** The channels a run of the realtime effect creates for a view. *)
Definition expected_live (v : View) : list (Channel View) :=
  match id v with
  | Some i =>
      if truthy i then
        Subscriptions.messages_channel i messageCallback
        :: match currentUserId v with
           | Some u =>
               if truthy u
               then [Subscriptions.presence_channel i u presenceCallback]
               else []
           | None => []
           end
      else []
  | None => []
  end.

Definition expected_topics (v : View) : list string := topic <$> expected_live v.

(** The handles that run leaves to the cleanup, when [n] channels existed
    before it. *)
Definition expected_closure (n : nat) (v : View)
  : option (option RealtimeChannel * option RealtimeChannel) :=
  match id v with
  | Some i =>
      if truthy i then
        Some (Some n,
              match currentUserId v with
              | Some u => if truthy u then Some (S n) else None
              | None => None
              end)
      else None
  | None => None
  end.

(** The world's channels are those of a view [before]: the channels of
    earlier runs are all closed; those of the last run are the last ones
    created, are the ones the dependencies of [before] call for, and are the
    ones the cleanup holds. *)
Definition tracks (before : View) (w : World View) : Prop :=
  ∃ old live,
    realtime w = old ++ live
    ∧ Forall (fun ch => subscribed ch = false) old
    ∧ outline <$> live = outline <$> expected_live before
    ∧ realtime_closure (view w) = expected_closure (length old) before
    ∧ Forall (fun ch => Forall quiet (bindings ch)) (realtime w).

(** Between two events the world's channels are those of its own view. *)
Definition invariant (w : World View) : Prop := tracks (view w) w.

End Lifecycle.

(** ** Sample data for the worked instances *)

Module Sample.

Definition message (i eventId : string) (at_ : Z) : ChatMessage.t :=
  ChatMessage.mk i eventId "u1" "hola" at_.

Definition launch : Event.t :=
  Event.mk "e1" "Launch" None "2025-01-01T18:00:00.000Z" "HQ" 1 1.

Definition meetup : Event.t :=
  Event.mk "e2" "Meetup" (Some "Monthly") "2025-02-01T18:00:00.000Z" "Cafe" 2 2.

Definition database : Store.Database :=
  Store.mkDatabase [launch; meetup]
                   [message "m2" "e1" 20; message "m3" "e2" 15; message "m1" "e1" 10]
                   ["u1"; "u2"].

(** A request the platform serves. *)
Definition served : Store.Env := Store.mkEnv None "e3" 100.

(** A request the platform fails. *)
Definition unreachable : Store.PostgrestError := Store.mkError "Failed to fetch" "".

(** A browser in San Salvador (UTC-06:00). *)
Definition Date_parse : string → option Z := JsDate.parse_local (-360).

Definition launch_form : CreateEvent.EventFormValues :=
  CreateEvent.mkValues "Launch" (Some "") "2025-01-01T12:00" "HQ".

(** 1001 characters. *)
Definition long_description : string :=
  Eval vm_compute in
    fold_right (fun _ s => String "a"%char s) EmptyString (seq 0 1001).


(** The form filled in for the launch, and the same with the long
    description. *)
Definition launch_world : World CreateEvent.View :=
  exec (CreateEvent.fill launch_form) CreateEvent.nothing.

Definition long_form : CreateEvent.EventFormValues :=
  CreateEvent.mkValues "Launch" (Some long_description) "2025-01-01T12:00" "HQ".

Definition long_world : World CreateEvent.View :=
  exec (CreateEvent.fill long_form) CreateEvent.nothing.

(** The platform's choices when it serves the launch: a fresh identifier
    and the time of the insert. *)
Definition serves_launch : Store.Env := Store.mkEnv None "e3" 1735000000000.


(** The detail view of event e1 with user u1 signed in and a text typed,
    the same with only blanks typed, and the view of a visitor. *)
Definition chat_world : World EventDetail.View :=
  exec (EventDetail.mount (Some "e1") ;;;
        EventDetail.run [EventDetail.SessionResolved (Some (EventDetail.mkSession "u1" None));
                         EventDetail.MessagesFetched
                           (Js.Resolved (Store.ok [message "m1" "e1" 10]));
                         EventDetail.Typed "  hello "])
       EventDetail.nothing.

Definition blank_world : World EventDetail.View :=
  exec (EventDetail.step (EventDetail.Typed "   ")) chat_world.

Definition visitor_world : World EventDetail.View :=
  exec (EventDetail.mount (Some "e1") ;;;
        EventDetail.run [EventDetail.SessionResolved None; EventDetail.Typed "hello"])
       EventDetail.nothing.


(** The user moves on to event e2, which has no message yet. *)
Definition moved_world : World EventDetail.View :=
  exec (EventDetail.run [EventDetail.ParamChange (Some "e2");
                         EventDetail.MessagesFetched (Js.Resolved (Store.ok []))])
       chat_world.

(** The view of event e1 whose initial fetch failed. *)
Definition failed_fetch_world : World EventDetail.View :=
  exec (EventDetail.mount (Some "e1") ;;;
        EventDetail.run [EventDetail.MessagesFetched
                           (Js.Resolved (Store.failed unreachable))])
       EventDetail.nothing.

End Sample.

(** ** The rest of the events repository ([src/lib/events.ts]) *)

Module EventsQuery.
Import Store.

Section Platform.
(** The instant a [TIMESTAMPTZ] value denotes, given the text the client
    sent for it: the platform's input conversion. *)
Variable timestamptz_in : string → Z.

(** [date] ascending. *)
Definition date_le (a b : Event.t) : Prop :=
  (timestamptz_in (Event.date a) <= timestamptz_in (Event.date b))%Z.

#[local] Instance date_le_dec : RelDecision date_le.
Proof. intros a b. unfold date_le. apply _. Defined.

(** [from("events").select("*").order("date", { ascending: true })] *)
Definition getEvents (env : Env) (db : Database) : Response (list Event.t) * Database :=
  match fault env with
  | Some e => (failed e, db)
  | None => (ok (merge_sort date_le (events db)), db)
  end.

End Platform.

(** Rows whose [updated_at] is not before their [created_at]. *)
Definition timestamps_ordered (db : Database) : Prop :=
  ∀ ev, ev ∈ events db → (Event.created_at ev <= Event.updated_at ev)%Z.

(** An update that sets at least one column. *)
Definition sets_a_column (input : UpdateEventInput.t) : Prop :=
  is_Some (UpdateEventInput.title input) ∨ is_Some (UpdateEventInput.description input)
  ∨ is_Some (UpdateEventInput.date input) ∨ is_Some (UpdateEventInput.location input).

End EventsQuery.

(** ** Reading an ISO 8601 timestamp back *)

Module IsoTimestamp.
Import JsDate.
Local Open Scope Z_scope.

(** The year field with its sign: four digits, or a sign and six digits. *)
Definition signed_year (s : string) : option (Z * string) :=
  match s with
  | String c s' =>
      if Ascii.eqb c "+"%char then digits 6 0 s'
      else if Ascii.eqb c "-"%char then
        '(y, rest) ← digits 6 0 s'; Some (- y, rest)
      else digits 4 0 s
  | EmptyString => None
  end.

(** The time value of [YYYY-MM-DDTHH:mm:ss.sssZ] or
    [±YYYYYY-MM-DDTHH:mm:ss.sssZ], which is what [Date.parse] and the
    platform's [TIMESTAMPTZ] input make of such a text. *)
Definition of_iso (s : string) : option Z :=
  '(year, s) ← signed_year s;
  s ← expect "-"%char s;
  '(month, s) ← digits 2 0 s;
  _ ← in_range 1 12 month;
  s ← expect "-"%char s;
  '(day, s) ← digits 2 0 s;
  _ ← in_range 1 31 day;
  s ← expect "T"%char s;
  '(hour, s) ← digits 2 0 s;
  _ ← in_range 0 23 hour;
  s ← expect ":"%char s;
  '(minute, s) ← digits 2 0 s;
  _ ← in_range 0 59 minute;
  s ← expect ":"%char s;
  '(second, s) ← digits 2 0 s;
  _ ← in_range 0 59 second;
  s ← expect "."%char s;
  '(millisecond, s) ← digits 3 0 s;
  s ← expect "Z"%char s;
  if String.eqb s ""
  then Some (days_from_civil year month day * msPerDay
             + hour * 3600000 + minute * 60000 + second * 1000 + millisecond)
  else None.

End IsoTimestamp.

(** ** What the event-detail view shows of a date and of a user
    ([src/pages/EventDetail.tsx], [src/pages/EventsList.tsx]) *)

Module Display.
Import Js.
Local Open Scope Z_scope.

Section Host.
(** [Date.parse] of the host. *)
Variable Date_parse : string → option Z.
(** [format(date, "PPP 'a las' p", { locale: es })] of date-fns on a valid
    date; on an invalid one it throws a [RangeError]. *)
Variable format : Z → string.
(** [String.prototype.toUpperCase] *)
Variable toUpperCase : string → string.

(** [formatMessageDate], [now] being the reading of [new Date()]. An
    invalid date makes [diffInSeconds] a [NaN], which fails the three
    comparisons, and [format] then throws into the [catch]. *)
Definition formatMessageDate (now : Z) (dateString : string) : string :=
  match JsDate.Date_new Date_parse dateString with
  | Some date =>
      let diffInSeconds := (now - date) / 1000 in
      if diffInSeconds <? 60 then "Ahora"
      else if diffInSeconds <? 3600 then "Hace " +:+ pretty (diffInSeconds / 60) +:+ " min"
      else if diffInSeconds <? 86400 then "Hace " +:+ pretty (diffInSeconds / 3600) +:+ " h"
      else format date
  | None => dateString
  end.

(** [formatEventDate] *)
Definition formatEventDate (dateString : string) : string :=
  match JsDate.Date_new Date_parse dateString with
  | Some date => format date
  | None => dateString
  end.

(** [isEventPast]: the comparison with an invalid date is [false]. *)
Definition isEventPast (now : Z) (dateString : string) : bool :=
  match JsDate.Date_new Date_parse dateString with
  | Some date => date <? now
  | None => false
  end.

Definition colors : list string :=
  ["bg-blue-500"; "bg-green-500"; "bg-purple-500"; "bg-pink-500"; "bg-orange-500";
   "bg-indigo-500"].

(** [userId.split("").reduce((acc, char) => acc + char.charCodeAt(0), 0)];
    the identifiers are UUIDs, whose characters are one code unit each. *)
Definition hash (userId : string) : nat :=
  fold_left (fun acc char => (acc + nat_of_ascii char)%nat) (String.list_ascii_of_string userId) 0%nat.

(** [color] is [None] where [colors[...]] would be [undefined]. *)
Record Initials := mkInitials { color : option string; initial : string }.

(** [getInitials] *)
Definition getInitials (userId : string) : Initials :=
  mkInitials (colors !! (hash userId mod length colors)%nat)
             (toUpperCase (String.substring 0 2 userId)).

End Host.
End Display.

(** ** The list of events ([src/pages/EventsList.tsx]) *)

Module EventsList.
Import Js Store.

Record View := mkView { events : list Event.t; loading : bool; refreshing : bool }.

(** The [useState] initial values. *)
Definition initial : View := mkView [] true false.

Definition setEvents (x : list Event.t) (v : View) : View :=
  mkView x (loading v) (refreshing v).
Definition setLoading (x : bool) (v : View) : View :=
  mkView (events v) x (refreshing v).
Definition setRefreshing (x : bool) (v : View) : View :=
  mkView (events v) (loading v) x.

(** The call the view makes. *)
Inductive Call := getEvents.

(** [fetchEvents] up to its [await]: the call it waits for. *)
Definition fetchEvents : Eff View Call := ret getEvents.

(** [fetchEvents] from the [await] on, [finally] included. *)
Definition fetchEvents_resume (o : Outcome (Response (list Event.t))) : Eff View unit :=
  match o with
  | Resolved r =>
      match error r with
      | Some e => toast_error (or_else (message e) "Error al cargar eventos")
      | None => modify (setEvents (default [] (data r)))
      end
  | Rejected _ =>
      console_error "Error al cargar eventos:" ;;;
      toast_error "Error inesperado al cargar eventos"
  end ;;;
  modify (setLoading false) ;;;
  modify (setRefreshing false).

(** First render, then the effect. *)
Definition mount : Eff View Call :=
  modify (fun _ => initial) ;;;
  fetchEvents.

(** [handleRefresh] *)
Definition handleRefresh : Eff View Call :=
  modify (setRefreshing true) ;;;
  fetchEvents.

Definition nothing : World View := mkWorld initial [] [] [] [] [] [].

(** *** Rendering *)

Record Card := mkCard {
  card_title : string;
  finalizado : bool;                      (** the "Finalizado" badge *)
  card_description : option string;
  card_date : string;
  card_location : string;
  opens : string                          (** where a click navigates *)
}.

Inductive Screen :=
| Skeleton
| Listing (found : string) (refresh_disabled : bool) (cards : list Card).

(** The line under the heading. *)
Definition found_line (n : nat) : string :=
  if (n =? 0)%nat then "No hay eventos disponibles"
  else pretty n +:+ " " +:+ (if (n =? 1)%nat then "evento" else "eventos")
       +:+ " encontrado" +:+ (if (n =? 1)%nat then "" else "s").

Section Host.
Variable Date_parse : string → option Z.
Variable format : Z → string.

Definition card (now : Z) (event : Event.t) : Card :=
  mkCard (Event.title event)
         (Display.isEventPast Date_parse now (Event.date event))
         (or_null (Event.description event))
         (Display.formatEventDate Date_parse format (Event.date event))
         (Event.location event)
         ("/events/" +:+ Event.id event).

Definition render (now : Z) (v : View) : Screen :=
  if loading v then Skeleton
  else Listing (found_line (length (events v))) (refreshing v) (card now <$> events v).

End Host.
End EventsList.

(** ** What the event-detail view keeps between two events *)

Module Page.
Import Js Realtime EventDetail.

(** The registrations the view makes through [subscribeToMessages] and
    [subscribeToPresence]. *)
Definition page_binding (b : Binding View) : Prop :=
  match b with
  | on_postgres_changes _ _ _ _ callback => callback = messageCallback
  | on_presence _ callback =>
      callback = fun state => presenceCallback (length (Object_keys state))
  end.

(** Every channel the client holds carries registrations of the view. *)
Definition bound (w : World View) : Prop :=
  Forall (fun ch => Forall page_binding (bindings ch)) (realtime w).

(** An answer to the initial fetch that ends the [loading] state. *)
Definition settles (i : Input) : bool :=
  match i with
  | MessagesFetched (Resolved r) => bool_decide (Store.error r = None)
  | MessagesFetched (Rejected _) => true
  | _ => false
  end.

(** A session answer that names a user. *)
Definition signs_in (i : Input) : bool :=
  match i with
  | SessionResolved session => truthy_opt (or_null (session_user_id <$> session))
  | _ => false
  end.

(** A channel that carries row inserts only. *)
Definition inserts_only (ch : Channel View) : Prop :=
  Forall (fun b => match b with
                   | on_postgres_changes _ _ _ _ callback => callback = messageCallback
                   | on_presence _ _ => False
                   end) (bindings ch)
  ∧ ∃ i, topic ch = "messages:" +:+ i.

(** What a visitor's view never gets to: a user, a presence count, a
    presence channel, a [createMessage] call. *)
Definition visitor (w : World View) : Prop :=
  currentUserId (view w) = None
  ∧ onlineUsersCount (view w) = 0%nat
  ∧ Forall inserts_only (realtime w)
  ∧ (∀ t, Wire.join t ∈ wire w → ∃ i, t = "messages:" +:+ i)
  ∧ (∀ input, Request.createMessage input ∉ requests w).

End Page.

(** ** More sample data *)

Module Fixture.

(** The platform's reading of a [TIMESTAMPTZ] text, for the samples. *)
Definition timestamptz_in (s : string) : Z := default 0%Z (IsoTimestamp.of_iso s).

(** The two sample events, the later one stored first. *)
Definition unsorted_database : Store.Database :=
  Store.mkDatabase [Sample.meetup; Sample.launch] [] ["u1"].

Definition empty_database : Store.Database := Store.mkDatabase [] [] [].

(** A form whose date the browser cannot read. *)
Definition vague_form : CreateEvent.EventFormValues :=
  CreateEvent.mkValues "Launch" (Some "") "pronto" "HQ".

Definition vague_world : World CreateEvent.View :=
  exec (CreateEvent.fill vague_form) CreateEvent.nothing.

(** The detail view of event e1 whose event arrived and whose initial
    fetch of the messages was answered with an error. *)
Definition stuck_inputs : list EventDetail.Input :=
  [EventDetail.EventFetched (Js.Resolved (Store.ok Sample.launch));
   EventDetail.MessagesFetched (Js.Resolved (Store.failed Sample.unreachable))].

Definition stuck_world : World EventDetail.View :=
  exec (EventDetail.mount (Some "e1") ;;; EventDetail.run stuck_inputs) EventDetail.nothing.

(** The platform's choices when it serves a new message. *)
Definition serves_message : Store.Env := Store.mkEnv None "m9" 100.

End Fixture.

(** ** The writes no view makes ([src/lib/events.ts], [src/lib/messages.ts]) *)

Module Repository.
Import Js Store.

(** The request each of them waits for. *)
Inductive Call :=
| update_events (id : string) (input : UpdateEventInput.t)
| delete_events (id : string)
| delete_chat_messages (id : string).

Section Browser.
(** The state of whichever page the caller belongs to. *)
Context {V : Type}.

(** [updateEvent] up to its [await]. *)
Definition updateEvent (id : string) (input : UpdateEventInput.t) : Eff V Call :=
  ret (update_events id input).

(** [updateEvent] from the [await] on: [return { data, error }]. *)
Definition updateEvent_resume (answer : Response Event.t) : Eff V (Response Event.t) :=
  ret answer.

(** [deleteEvent] up to its [await]. *)
Definition deleteEvent (id : string) : Eff V Call := ret (delete_events id).

(** [deleteEvent] from the [await] on: [return { error }]. *)
Definition deleteEvent_resume (answer : option PostgrestError)
  : Eff V (option PostgrestError) :=
  ret answer.

(** [deleteMessage] up to its [await]. *)
Definition deleteMessage (id : string) : Eff V Call := ret (delete_chat_messages id).

(** [deleteMessage] from the [await] on: [return { error }]. *)
Definition deleteMessage_resume (answer : option PostgrestError)
  : Eff V (option PostgrestError) :=
  ret answer.

End Browser.
End Repository.

(** * Properties *)

(** ** The store: initial load and cascade *)

Section StoreFacts.
Import Store.

#[local] Instance created_le_trans : Transitive created_le.
Proof. intros a b c. unfold created_le. lia. Qed.

#[local] Instance created_le_total : Total created_le.
Proof. intros a b. unfold created_le. lia. Qed.

Lemma order_by_created_at_sorted rows : StronglySorted created_le (order_by_created_at rows).
Proof. apply StronglySorted_merge_sort; apply _. Qed.

Lemma order_by_created_at_perm rows : order_by_created_at rows ≡ₚ rows.
Proof. apply merge_sort_Permutation. Qed.

Lemma eq_event_id_none eventId rows :
  (∀ m, m ∈ rows → ChatMessage.event_id m ≠ eventId) → eq_event_id eventId rows = [].
Proof.
  intros Hnone. unfold eq_event_id.
  destruct (filter _ rows) as [|x k] eqn:E; [done |].
  assert (x ∈ filter (λ m, ChatMessage.event_id m = eventId) rows) as Hx
      by (rewrite E; by left).
  apply list_elem_of_filter in Hx as [Heq Hx]. by apply Hnone in Hx.
Qed.

Lemma getMessagesByEvent_rows env eventId db :
  fault env = None →
  Messages.getMessagesByEvent env eventId db
  = (ok (order_by_created_at (eq_event_id eventId (chat_messages db))), db).
Proof. intros Hf. unfold Messages.getMessagesByEvent. by rewrite Hf. Qed.

Lemma getMessagesByEvent_unique_ids env eventId db rows :
  well_formed db →
  (Messages.getMessagesByEvent env eventId db).1 = ok rows →
  NoDup (MessageStream.ids rows).
Proof.
  intros (_ & Hpk & _). unfold Messages.getMessagesByEvent.
  destruct (fault env); [done |]. simpl. intros [= <-].
  unfold MessageStream.ids. rewrite (order_by_created_at_perm _).
  eapply sublist_NoDup; [exact Hpk |].
  unfold message_ids, eq_event_id. apply fmap_sublist, sublist_filter.
Qed.

End StoreFacts.

(** C5. [getMessagesByEvent] leaves the tables as they are and answers
    either with the fetch error or with exactly the messages of the event,
    in ascending order of creation time. When the event has no message row
    the answer is the empty sequence with no error, and the view that
    receives it holds an empty sequence, stops loading, raises no
    notification and renders the "no messages" placeholder. *)
Theorem getMessagesByEvent_all_in_creation_order
    (env : Store.Env) (eventId : string) (db : Store.Database) :
  let r := (Messages.getMessagesByEvent env eventId db).1 in
  (Messages.getMessagesByEvent env eventId db).2 = db
  ∧ match Store.fault env with
    | Some e => r = Store.failed e
    | None =>
        ∃ rows,
          r = Store.ok rows
          ∧ rows ≡ₚ filter (fun m => ChatMessage.event_id m = eventId) (Store.chat_messages db)
          ∧ (∀ m, m ∈ rows ↔ m ∈ Store.chat_messages db ∧ ChatMessage.event_id m = eventId)
          ∧ StronglySorted (fun a b => (ChatMessage.created_at a <= ChatMessage.created_at b)%Z)
                           rows
    end
  ∧ (Store.fault env = None →
     (∀ m, m ∈ Store.chat_messages db → ChatMessage.event_id m ≠ eventId) →
     r = Store.mkResponse (Some []) None
     ∧ ∀ w : World EventDetail.View,
         let w' := exec (EventDetail.fetchMessages_resume (Js.Resolved r)) w in
         EventDetail.messages (view w') = []
         ∧ EventDetail.loading (view w') = false
         ∧ toasts w' = toasts w
         ∧ EventDetail.chat_area (view w') = EventDetail.NoMessagesYet
         ∧ ∀ ev, EventDetail.event (view w') = Some ev →
                 ∃ badge, EventDetail.render (view w')
                          = EventDetail.Detail ev badge 0 EventDetail.NoMessagesYet).
Proof.
  intros r. subst r. unfold Messages.getMessagesByEvent.
  destruct (Store.fault env) as [e|] eqn:Hf; simpl.
  - split; [done |]. split; [done |]. intros [=].
  - split; [done |]. split.
    + eexists. split; [reflexivity |].
      split; [apply order_by_created_at_perm |].
      split; [| apply order_by_created_at_sorted].
      intros m. rewrite (order_by_created_at_perm _).
      unfold Store.eq_event_id. rewrite list_elem_of_filter. tauto.
    + intros _ Hnone. rewrite (eq_event_id_none _ _ Hnone).
      split; [reflexivity |].
      intros w. cbn. repeat split.
      intros ev Hev. cbn in Hev. unfold EventDetail.render. cbn. rewrite Hev.
      by eexists.
Qed.

Lemma getMessagesByEvent_all_in_creation_order_witness :
  Store.fault Sample.served = None
  ∧ (∀ m, m ∈ Store.chat_messages Sample.database → ChatMessage.event_id m ≠ "e9")
  ∧ (Messages.getMessagesByEvent Sample.served "e9" Sample.database).1
    = Store.mkResponse (Some []) None
  ∧ (Messages.getMessagesByEvent Sample.served "e1" Sample.database).1
    = Store.ok [Sample.message "m1" "e1" 10; Sample.message "m2" "e1" 20].
Proof.
  assert (∀ m, m ∈ Store.chat_messages Sample.database → ChatMessage.event_id m ≠ "e9")
    as Hnone.
  { intros m Hm. simpl in Hm.
    repeat (apply elem_of_cons in Hm as [-> | Hm]); try discriminate.
    by apply elem_of_nil in Hm. }
  split; [reflexivity |]. split; [exact Hnone |].
  split; [| reflexivity].
  destruct (getMessagesByEvent_all_in_creation_order Sample.served "e9" Sample.database)
    as (_ & _ & Hzero).
  by destruct (Hzero eq_refl Hnone) as [-> _].
Defined.

(** C6. A served [deleteEvent] removes the event and, by the cascade, every
    chat message that references it, and nothing else; the keys of the
    schema still hold afterwards. Fetching the messages of the deleted
    identifier then answers with the empty sequence and no error. *)
Theorem deleteEvent_cascades_to_messages
    (env env' : Store.Env) (id : string) (db : Store.Database) :
  Store.fault env = None →
  Store.fault env' = None →
  let db' := (Events.deleteEvent env id db).2 in
  (Events.deleteEvent env id db).1 = None
  ∧ (id ∉ Store.event_ids db')
  ∧ (∀ m, m ∈ Store.chat_messages db'
          ↔ m ∈ Store.chat_messages db ∧ ChatMessage.event_id m ≠ id)
  ∧ (∀ ev, ev ∈ Store.events db' ↔ ev ∈ Store.events db ∧ Event.id ev ≠ id)
  ∧ (Store.well_formed db → Store.well_formed db')
  ∧ Messages.getMessagesByEvent env' id db' = (Store.mkResponse (Some []) None, db').
Proof.
  intros Hf Hf' db'. subst db'. unfold Events.deleteEvent. rewrite Hf. simpl.
  split; [done |].
  split.
  { unfold Store.event_ids. simpl. intros (ev & Hid & Hin)%list_elem_of_fmap.
    apply list_elem_of_filter in Hin as [Hne _]. by apply Hne. }
  split; [intros m; rewrite list_elem_of_filter; tauto |].
  split; [intros ev; rewrite list_elem_of_filter; tauto |].
  split.
  { intros (Hev & Hms & Hfk). unfold Store.well_formed, Store.event_ids, Store.message_ids.
    simpl. split; [| split].
    - clear -Hev. unfold Store.event_ids in Hev.
      induction (Store.events db) as [|ev evs IH]; [constructor |].
      rewrite fmap_cons in Hev. apply NoDup_cons in Hev as [Hnin Hnd].
      rewrite filter_cons. case_decide; [| by apply IH].
      rewrite fmap_cons. apply NoDup_cons. split; [| by apply IH].
      intros (ev' & Hid & Hin)%list_elem_of_fmap.
      apply list_elem_of_filter in Hin as [_ Hin].
      apply Hnin. rewrite Hid. by apply list_elem_of_fmap_2.
    - clear -Hms. unfold Store.message_ids in Hms.
      induction (Store.chat_messages db) as [|m ms IH]; [constructor |].
      rewrite fmap_cons in Hms. apply NoDup_cons in Hms as [Hnin Hnd].
      rewrite filter_cons. case_decide; [| by apply IH].
      rewrite fmap_cons. apply NoDup_cons. split; [| by apply IH].
      intros (m' & Hid & Hin)%list_elem_of_fmap.
      apply list_elem_of_filter in Hin as [_ Hin].
      apply Hnin. rewrite Hid. by apply list_elem_of_fmap_2.
    - intros m [Hne Hin]%list_elem_of_filter.
      destruct (Hfk m Hin) as [Hevent Huser]. split; [| done].
      unfold Store.event_ids in Hevent.
      apply list_elem_of_fmap in Hevent as (ev & Hid & Hevin).
      apply list_elem_of_fmap. exists ev. split; [done |].
      apply list_elem_of_filter. split; [congruence | done]. }
  rewrite getMessagesByEvent_rows by done. simpl.
  rewrite eq_event_id_none; [done |].
  intros m [Hne _]%list_elem_of_filter. done.
Qed.

Lemma deleteEvent_cascades_to_messages_witness :
  Store.fault Sample.served = None
  ∧ Store.chat_messages (Events.deleteEvent Sample.served "e1" Sample.database).2
    = [Sample.message "m3" "e2" 15]
  ∧ (Messages.getMessagesByEvent Sample.served "e1"
       (Events.deleteEvent Sample.served "e1" Sample.database).2).1
    = Store.mkResponse (Some []) None.
Proof.
  split; [reflexivity |]. split; [reflexivity |].
  destruct (deleteEvent_cascades_to_messages
              Sample.served Sample.served "e1" Sample.database eq_refl eq_refl)
    as (_ & _ & _ & _ & _ & ->).
  reflexivity.
Defined.

(** ** The message-stream merge *)

Section MessageStreamFacts.
Import MessageStream.
Implicit Types (m : ChatMessage.t) (prev local ds : list ChatMessage.t).

Lemma some_same_id_elem m prev :
  some_same_id m prev = true ↔ ChatMessage.id m ∈ ids prev.
Proof.
  unfold some_same_id, ids. rewrite existsb_exists, list_elem_of_fmap.
  split.
  - intros (x & Hin & Heq). apply String.eqb_eq in Heq.
    exists x. split; [done | by apply list_elem_of_In].
  - intros (x & Heq & Hin). exists x.
    split; [by apply list_elem_of_In | by apply String.eqb_eq].
Qed.

Lemma onRemoteInsert_cases m prev :
  onRemoteInsert m prev
  = if bool_decide (ChatMessage.id m ∈ ids prev) then prev else prev ++ [m].
Proof.
  unfold onRemoteInsert. destruct (some_same_id m prev) eqn:E.
  - apply some_same_id_elem in E. by rewrite bool_decide_true.
  - rewrite bool_decide_false; [done |].
    intros H. apply some_same_id_elem in H. congruence.
Qed.

Lemma first_seen_ext seen seen' ds :
  (∀ i, i ∈ seen ↔ i ∈ seen') → first_seen seen ds = first_seen seen' ds.
Proof.
  revert seen seen'. induction ds as [|m ds IH]; intros seen seen' Hs; simpl; [done |].
  rewrite (bool_decide_ext _ _ (Hs (ChatMessage.id m))).
  case_bool_decide.
  - by apply IH.
  - f_equal. apply IH. intros i. rewrite !elem_of_cons. by rewrite Hs.
Qed.

Lemma deliveries_first_seen ds local :
  deliveries ds local = local ++ first_seen (ids local) ds.
Proof.
  unfold deliveries. revert local.
  induction ds as [|m ds IH]; intros local; simpl.
  - by rewrite app_nil_r.
  - rewrite IH, onRemoteInsert_cases. case_bool_decide; [done |].
    rewrite <- app_assoc. simpl. do 2 f_equal.
    apply first_seen_ext. intros i. unfold ids.
    rewrite fmap_app, elem_of_app, elem_of_cons. simpl.
    rewrite list_elem_of_singleton. tauto.
Qed.

Lemma first_seen_fresh seen ds :
  NoDup (ids (first_seen seen ds)) ∧ ∀ i, i ∈ ids (first_seen seen ds) → i ∉ seen.
Proof.
  revert seen. induction ds as [|m ds IH]; intros seen; simpl.
  - split; [constructor | intros i Hi; by apply elem_of_nil in Hi].
  - case_bool_decide as Hm; [apply IH |].
    destruct (IH (ChatMessage.id m :: seen)) as [Hnd Hfresh].
    split.
    + unfold ids in *. rewrite fmap_cons. constructor; [| done].
      intros Hin. apply Hfresh in Hin. apply Hin. by left.
    + intros i. unfold ids in *. rewrite fmap_cons, elem_of_cons.
      intros [-> | Hin]; [done |].
      apply Hfresh in Hin. intros Hs. apply Hin. by right.
Qed.

Lemma first_seen_covers seen ds m :
  m ∈ ds → ChatMessage.id m ∈ seen ∨ ChatMessage.id m ∈ ids (first_seen seen ds).
Proof.
  revert seen. induction ds as [|d ds IH]; intros seen Hin; [by apply elem_of_nil in Hin |].
  simpl. apply elem_of_cons in Hin as [-> | Hin].
  - case_bool_decide; [by left | right]. unfold ids. rewrite fmap_cons. by left.
  - case_bool_decide.
    + by apply IH.
    + destruct (IH (ChatMessage.id d :: seen) Hin) as [Hs | Hf].
      * apply elem_of_cons in Hs as [Heq | Hs]; [right | by left].
        unfold ids. rewrite fmap_cons, Heq. by left.
      * right. unfold ids in *. rewrite fmap_cons. by right.
Qed.

Lemma deliveries_NoDup ds local :
  NoDup (ids local) → NoDup (ids (deliveries ds local)).
Proof.
  intros Hl. rewrite deliveries_first_seen. unfold ids. rewrite fmap_app.
  destruct (first_seen_fresh (ids local) ds) as [Hnd Hfresh].
  apply NoDup_app. split; [done |]. split; [| done].
  intros i Hi Hf. by apply Hfresh in Hf.
Qed.

Lemma onRemoteInsert_NoDup m prev :
  NoDup (ids prev) → NoDup (ids (onRemoteInsert m prev)).
Proof. intros Hprev. by apply (deliveries_NoDup [m]). Qed.

Lemma entries_with_id_NoDup i l :
  NoDup (ids l) → (entries_with_id i l ≤ 1)%nat.
Proof.
  unfold entries_with_id, ids. induction l as [|m l IH]; simpl; [lia |].
  rewrite NoDup_cons. intros [Hm Hl].
  rewrite filter_cons. case_decide as Heq; [| by apply IH].
  simpl. subst i.
  destruct (filter (λ m0, ChatMessage.id m0 = ChatMessage.id m) l) as [|x k] eqn:E;
    [simpl; lia |].
  exfalso. apply Hm.
  assert (x ∈ filter (λ m0, ChatMessage.id m0 = ChatMessage.id m) l) as Hx
      by (rewrite E; by left).
  apply list_elem_of_filter in Hx as [<- Hx]. by apply list_elem_of_fmap_2.
Qed.

Lemma entries_with_id_present i l :
  i ∈ ids l → (1 ≤ entries_with_id i l)%nat.
Proof.
  unfold entries_with_id, ids. intros (m & -> & Hm)%list_elem_of_fmap.
  assert (m ∈ filter (λ m0, ChatMessage.id m0 = ChatMessage.id m) l) as Hx
      by (by apply list_elem_of_filter).
  destruct (filter _ l); [by apply elem_of_nil in Hx | simpl; lia].
Qed.

End MessageStreamFacts.


(** ** The presence aggregator *)

Section PresenceFacts.
Import Realtime.

Lemma Object_keys_NoDup (state : gmap string PresenceEntry) : NoDup (Object_keys state).
Proof. apply NoDup_fst_map_to_list. Qed.

Lemma Object_keys_length (state : gmap string PresenceEntry) :
  length (Object_keys state) = size (dom state).
Proof.
  unfold Object_keys. rewrite length_fmap, length_map_to_list. symmetry. apply size_dom.
Qed.

Lemma Object_keys_elem (state : gmap string PresenceEntry) k :
  k ∈ Object_keys state ↔ k ∈ dom state.
Proof.
  unfold Object_keys. rewrite elem_of_dom, list_elem_of_fmap. split.
  - intros ([k' x] & -> & Hin). apply elem_of_map_to_list in Hin. by exists x.
  - intros [x Hx]. exists (k, x). split; [done | by apply elem_of_map_to_list].
Qed.

Lemma presence_handlers_count {V} eventId userId (cb : nat → V → V) state ev v :
  trigger_presence (with_presence state (Subscriptions.presence_channel eventId userId cb)) ev v
  = cb (size (dom state)) v.
Proof.
  unfold trigger_presence. simpl. rewrite Object_keys_length. by destruct ev.
Qed.

End PresenceFacts.

(** C3. On each sync, join or leave event the handlers installed by
    [subscribeToPresence] hand the caller's callback the number of distinct
    keys of the channel's current presence state. Once the local principal
    alone is tracked the count is 1, once a second, different identifier is
    tracked it is 2, and once either of the two has left it is 1 again. In
    the event-detail view the callback stores the count. *)
Theorem presence_count_is_number_of_tracked_keys
    {V : Type} (eventId u1 u2 clock : string) (entry2 : Realtime.PresenceEntry)
    (onPresenceChange : nat → V → V) :
  u1 ≠ u2 →
  let ch := Subscriptions.presence_channel eventId u1 onPresenceChange in
  (∀ state ev v,
      Realtime.trigger_presence (Realtime.with_presence state ch) ev v
      = onPresenceChange (size (dom state)) v
      ∧ NoDup (Realtime.Object_keys state)
      ∧ length (Realtime.Object_keys state) = size (dom state)
      ∧ ∀ k, k ∈ Realtime.Object_keys state ↔ k ∈ dom state)
  ∧ (let ch1 := Realtime.trigger_status Realtime.SUBSCRIBED clock ch in
     let ch2 := Realtime.track u2 entry2 ch1 in
     ∀ ev v,
       Realtime.trigger_presence ch ev v = onPresenceChange 0 v
       ∧ Realtime.trigger_presence ch1 ev v = onPresenceChange 1 v
       ∧ Realtime.trigger_presence ch2 ev v = onPresenceChange 2 v
       ∧ Realtime.trigger_presence (Realtime.untrack u2 ch2) ev v = onPresenceChange 1 v
       ∧ Realtime.trigger_presence (Realtime.untrack u1 ch2) ev v = onPresenceChange 1 v)
  ∧ (∀ count v,
       EventDetail.onlineUsersCount (EventDetail.presenceCallback count v) = count).
Proof.
  intros Hne ch. split; [| split; [| done]].
  - intros state ev v. split; [apply presence_handlers_count |].
    split; [apply Object_keys_NoDup |].
    split; [apply Object_keys_length | apply Object_keys_elem].
  - intros ch1 ch2 ev v.
    pose proof (λ st, presence_handlers_count eventId u1 onPresenceChange st ev v) as Hcount.
    fold ch in Hcount.
    set (e1 := Realtime.mkPresence u1 clock).
    assert ((∅ : gmap string Realtime.PresenceEntry) !! u1 = None) as H0
        by apply lookup_empty.
    assert ((<[u1:=e1]> ∅ : gmap string Realtime.PresenceEntry) !! u2 = None) as H1
        by (by rewrite lookup_insert_ne, lookup_empty).
    assert (is_Some ((<[u2:=entry2]> (<[u1:=e1]> ∅)
                      : gmap string Realtime.PresenceEntry) !! u1)) as H2.
    { rewrite lookup_insert_ne by done. rewrite lookup_insert_eq. by eexists. }
    assert (is_Some ((<[u2:=entry2]> (<[u1:=e1]> ∅)
                      : gmap string Realtime.PresenceEntry) !! u2)) as H3.
    { rewrite lookup_insert_eq. by eexists. }
    repeat split.
    + change ch with (Realtime.with_presence ∅ ch).
      by rewrite Hcount, size_dom, map_size_empty.
    + change ch1 with (Realtime.with_presence (<[u1:=e1]> ∅) ch).
      by rewrite Hcount, size_dom, map_size_insert_None, map_size_empty.
    + change ch2 with (Realtime.with_presence (<[u2:=entry2]> (<[u1:=e1]> ∅)) ch).
      by rewrite Hcount, size_dom, !map_size_insert_None, map_size_empty.
    + change (Realtime.untrack u2 ch2)
        with (Realtime.with_presence (delete u2 (<[u2:=entry2]> (<[u1:=e1]> ∅))) ch).
      by rewrite Hcount, size_dom, map_size_delete_Some, !map_size_insert_None,
                 map_size_empty.
    + change (Realtime.untrack u1 ch2)
        with (Realtime.with_presence (delete u1 (<[u2:=entry2]> (<[u1:=e1]> ∅))) ch).
      by rewrite Hcount, size_dom, map_size_delete_Some, !map_size_insert_None,
                 map_size_empty.
Qed.

Lemma presence_count_is_number_of_tracked_keys_witness :
  "u1" ≠ "u2"
  ∧ ∀ v : EventDetail.View,
      let ch := Realtime.track "u2" (Realtime.mkPresence "u2" "2025-01-01T18:00:01.000Z")
                  (Realtime.trigger_status Realtime.SUBSCRIBED "2025-01-01T18:00:00.000Z"
                     (Subscriptions.presence_channel "e1" "u1" EventDetail.presenceCallback)) in
      EventDetail.onlineUsersCount (Realtime.trigger_presence ch Realtime.join v) = 2
      ∧ EventDetail.onlineUsersCount
          (Realtime.trigger_presence (Realtime.untrack "u1" ch) Realtime.leave v) = 1.
Proof.
  assert ("u1" ≠ "u2") as Hne by discriminate.
  split; [exact Hne |].
  intros v ch. subst ch.
  destruct (presence_count_is_number_of_tracked_keys
              "e1" "u1" "u2" "2025-01-01T18:00:00.000Z"
              (Realtime.mkPresence "u2" "2025-01-01T18:00:01.000Z")
              EventDetail.presenceCallback Hne) as (_ & Hscenario & _).
  split.
  - by destruct (Hscenario Realtime.join v) as (_ & _ & -> & _).
  - by destruct (Hscenario Realtime.leave v) as (_ & _ & _ & _ & ->).
Defined.

(** ** ISO 8601 rendering of time values *)

Section DateFacts.
Import JsDate.
Local Open Scope Z_scope.

Lemma civil_month_day days :
  let '(y, m, d) := civil_from_days days in 1 <= m <= 12 ∧ 1 <= d <= 31.
Proof.
  unfold civil_from_days.
  set (z := days + 719468).
  set (era := z / 146097).
  set (doe := z - era * 146097).
  set (yoe := (doe - doe / 1460 + doe / 36524 - doe / 146096) / 365).
  set (doy := doe - (365 * yoe + yoe / 4 - yoe / 100)).
  set (mp := (5 * doy + 2) / 153).
  assert (0 <= doe <= 146096) as Hdoe by (subst doe era; Z.div_mod_to_equations; lia).
  assert (0 <= yoe <= 399) as Hyoe by (subst yoe; Z.div_mod_to_equations; lia).
  assert (0 <= doy <= 365) as Hdoy.
  { subst doy yoe. Z.div_mod_to_equations. lia. }
  assert (0 <= mp <= 11) as Hmp by (subst mp; Z.div_mod_to_equations; lia).
  split.
  - destruct (mp <? 10) eqn:E; [apply Z.ltb_lt in E | apply Z.ltb_ge in E]; lia.
  - subst mp. Z.div_mod_to_equations. lia.
Qed.

Lemma civil_year_range days :
  -100000000 <= days <= 100000000 →
  let '(y, m, d) := civil_from_days days in -272000 <= y <= 276000.
Proof.
  intros Hdays. unfold civil_from_days.
  set (z := days + 719468).
  set (era := z / 146097).
  set (doe := z - era * 146097).
  set (yoe := (doe - doe / 1460 + doe / 36524 - doe / 146096) / 365).
  set (doy := doe - (365 * yoe + yoe / 4 - yoe / 100)).
  set (mp := (5 * doy + 2) / 153).
  set (m := if mp <? 10 then mp + 3 else mp - 9).
  assert (0 <= doe <= 146096) as Hdoe by (subst doe era; Z.div_mod_to_equations; lia).
  assert (0 <= yoe <= 399) as Hyoe by (subst yoe; Z.div_mod_to_equations; lia).
  assert (-680 <= era <= 689) as Hera by (subst era z; Z.div_mod_to_equations; lia).
  assert (0 <= (if m <=? 2 then 1 else 0) <= 1) as Hadj by (destruct (m <=? 2); lia).
  lia.
Qed.

Lemma mod_10_digit n : 0 <= n mod 10 <= 9.
Proof. pose proof (Z.mod_pos_bound n 10). lia. Qed.

Lemma digit_value_digit d : 0 <= d <= 9 → digit_value (digit d) = Some d.
Proof.
  intros Hd.
  assert (d = 0 ∨ d = 1 ∨ d = 2 ∨ d = 3 ∨ d = 4 ∨ d = 5 ∨ d = 6 ∨ d = 7 ∨ d = 8 ∨ d = 9)
    as Hcases by lia.
  repeat (destruct Hcases as [-> | Hcases]; [reflexivity |]). by subst.
Qed.

Lemma digit_not_sign d :
  0 <= d <= 9 → Ascii.eqb (digit d) "+" || Ascii.eqb (digit d) "-" = false.
Proof.
  intros Hd.
  assert (d = 0 ∨ d = 1 ∨ d = 2 ∨ d = 3 ∨ d = 4 ∨ d = 5 ∨ d = 6 ∨ d = 7 ∨ d = 8 ∨ d = 9)
    as Hcases by lia.
  repeat (destruct Hcases as [-> | Hcases]; [reflexivity |]). by subst.
Qed.

Lemma append_String c s r : String c s +:+ r = String c (s +:+ r).
Proof. reflexivity. Qed.

Lemma digits_pad width acc n rest :
  digits width acc (pad width n +:+ rest)
  = Some (acc * 10 ^ Z.of_nat width + n mod 10 ^ Z.of_nat width, rest).
Proof.
  revert acc. induction width as [|w IH]; intros acc.
  - simpl. rewrite Z.mod_1_r. do 2 f_equal. lia.
  - cbn [pad digits]. rewrite append_String.
    rewrite digit_value_digit by apply mod_10_digit.
    rewrite IH. do 2 f_equal.
    rewrite Nat2Z.inj_succ, Z.pow_succ_r by lia.
    rewrite (Z.mul_comm 10 (10 ^ Z.of_nat w)).
    rewrite Z.rem_mul_r by lia. lia.
Qed.

Lemma digits_pad_small width n rest :
  0 <= n < 10 ^ Z.of_nat width → digits width 0 (pad width n +:+ rest) = Some (n, rest).
Proof.
  intros Hn. rewrite digits_pad. do 2 f_equal. rewrite Z.mod_small by done. lia.
Qed.

Lemma year_digits_year_string y rest :
  -999999 <= y <= 999999 → ∃ v, year_digits (year_string y +:+ rest) = Some (v, rest).
Proof.
  intros Hy. unfold year_string.
  destruct ((0 <=? y) && (y <=? 9999)) eqn:E.
  - apply andb_true_iff in E as [Hlo%Z.leb_le Hhi%Z.leb_le].
    exists y. rewrite <- (digits_pad_small 4 y rest) by lia.
    change (pad 4 y +:+ rest)
      with (String (digit ((y / 10 ^ Z.of_nat 3) mod 10)) (pad 3 y +:+ rest)).
    unfold year_digits. by rewrite digit_not_sign by apply mod_10_digit.
  - exists (Z.abs y). rewrite <- (digits_pad_small 6 (Z.abs y) rest) by lia.
    by destruct (y <? 0).
Qed.

Lemma digits2_pad n rest : 0 <= n <= 99 → digits 2 0 (pad 2 n +:+ rest) = Some (n, rest).
Proof. intros Hn. apply digits_pad_small. lia. Qed.

Lemma digits3_pad n rest : 0 <= n <= 999 → digits 3 0 (pad 3 n +:+ rest) = Some (n, rest).
Proof. intros Hn. apply digits_pad_small. lia. Qed.

Lemma expect_head c rest : expect c (String c "" +:+ rest) = Some rest.
Proof. simpl. by rewrite Ascii.eqb_refl. Qed.

Lemma in_range_ok lo hi v : lo <= v <= hi → in_range lo hi v = Some tt.
Proof.
  intros [Hlo Hhi]. unfold in_range.
  apply Z.leb_le in Hlo, Hhi. by rewrite Hlo, Hhi.
Qed.

Ltac iso_field :=
  first [ rewrite expect_head
        | rewrite digits2_pad by (Z.div_mod_to_equations; lia)
        | rewrite digits3_pad by (Z.div_mod_to_equations; lia)
        | rewrite in_range_ok by (Z.div_mod_to_equations; lia) ];
  cbn [mbind option_bind].

Lemma format_iso_is_iso8601 t :
  Z.abs t <= max_time → is_iso8601 (format_iso t) = true.
Proof.
  intros Ht. unfold max_time in Ht.
  apply bool_decide_eq_true. unfold format_iso.
  pose proof (civil_month_day (Day t)) as Hmd.
  assert (-100000000 <= Day t <= 100000000) as Hday
      by (unfold Day, msPerDay; Z.div_mod_to_equations; lia).
  pose proof (civil_year_range (Day t) Hday) as Hy.
  destruct (civil_from_days (Day t)) as [[y m] d].
  assert (0 <= TimeWithinDay t < 86400000) as Hms
      by (unfold TimeWithinDay, msPerDay; apply Z.mod_pos_bound; lia).
  set (ms := TimeWithinDay t) in *. clearbody ms.
  unfold iso8601_fields.
  destruct (year_digits_year_string y
              ("-" +:+ pad 2 m +:+ "-" +:+ pad 2 d +:+ "T" +:+
               pad 2 (ms / 3600000) +:+ ":" +:+ pad 2 (ms / 60000 mod 60) +:+ ":" +:+
               pad 2 (ms / 1000 mod 60) +:+ "." +:+ pad 3 (ms mod 1000) +:+ "Z"))
    as [v ->]; [lia |].
  cbn [mbind option_bind].
  do 17 iso_field.
  change ("Z" : string) with ("Z" +:+ "").
  iso_field. by eexists.
Qed.

End DateFacts.

(** ** Reading the timestamp back *)

Section IsoRoundTrip.
Import JsDate IsoTimestamp.
Local Open Scope Z_scope.

Lemma days_from_civil_from_days days :
  let '(y, m, d) := civil_from_days days in days_from_civil y m d = days.
Proof.
  unfold civil_from_days, days_from_civil.
  set (z := days + 719468).
  set (era := z / 146097).
  set (doe := z - era * 146097).
  set (yoe := (doe - doe / 1460 + doe / 36524 - doe / 146096) / 365).
  set (doy := doe - (365 * yoe + yoe / 4 - yoe / 100)).
  set (mp := (5 * doy + 2) / 153).
  assert (0 <= doe <= 146096) as Hdoe by (subst doe era; Z.div_mod_to_equations; lia).
  assert (0 <= yoe <= 399) as Hyoe by (subst yoe; Z.div_mod_to_equations; lia).
  assert (0 <= doy <= 365) as Hdoy by (subst doy yoe; Z.div_mod_to_equations; lia).
  assert (0 <= mp <= 11) as Hmp by (subst mp; Z.div_mod_to_equations; lia).
  set (m := if mp <? 10 then mp + 3 else mp - 9).
  assert ((if 2 <? m then m - 3 else m + 9) = mp) as Hmonth.
  { subst m. destruct (Z.ltb_spec mp 10).
    - destruct (Z.ltb_spec 2 (mp + 3)); lia.
    - destruct (Z.ltb_spec 2 (mp - 9)); lia. }
  rewrite Hmonth.
  set (y := yoe + era * 400 + (if m <=? 2 then 1 else 0)).
  assert ((if m <=? 2 then y - 1 else y) = yoe + era * 400) as Hyear
      by (subst y; destruct (m <=? 2); lia).
  rewrite Hyear.
  assert ((yoe + era * 400) / 400 = era) as Hera by (Z.div_mod_to_equations; lia).
  rewrite Hera.
  replace (yoe + era * 400 - era * 400) with yoe by lia.
  assert ((153 * mp + 2) / 5 + (doy - (153 * mp + 2) / 5 + 1) - 1 = doy) as -> by lia.
  subst doy doe z. lia.
Qed.

Lemma signed_year_year_string y rest :
  -999999 <= y <= 999999 → signed_year (year_string y +:+ rest) = Some (y, rest).
Proof.
  intros Hy. unfold year_string.
  destruct ((0 <=? y) && (y <=? 9999)) eqn:E.
  - apply andb_true_iff in E as [Hlo%Z.leb_le Hhi%Z.leb_le].
    rewrite <- (digits_pad_small 4 y rest) by lia.
    change (pad 4 y +:+ rest)
      with (String (digit ((y / 10 ^ Z.of_nat 3) mod 10)) (pad 3 y +:+ rest)).
    unfold signed_year.
    pose proof (digit_not_sign ((y / 10 ^ Z.of_nat 3) mod 10) (mod_10_digit _)) as Hsign.
    apply orb_false_iff in Hsign as [-> ->]. done.
  - apply andb_false_iff in E.
    destruct (Z.ltb_spec y 0) as [Hneg | Hpos].
    + change (("-" +:+ pad 6 (Z.abs y)) +:+ rest)
        with (String "-" (pad 6 (Z.abs y) +:+ rest)).
      unfold signed_year. simpl Ascii.eqb.
      rewrite digits_pad_small by lia. simpl. do 2 f_equal. lia.
    + change (("+" +:+ pad 6 (Z.abs y)) +:+ rest)
        with (String "+" (pad 6 (Z.abs y) +:+ rest)).
      unfold signed_year. simpl Ascii.eqb.
      rewrite digits_pad_small by lia. do 2 f_equal. lia.
Qed.

Ltac read_field :=
  first [ rewrite expect_head
        | rewrite digits2_pad by (Z.div_mod_to_equations; lia)
        | rewrite digits3_pad by (Z.div_mod_to_equations; lia)
        | rewrite in_range_ok by (Z.div_mod_to_equations; lia) ];
  cbn [mbind option_bind].

Lemma of_iso_format_iso t :
  Z.abs t <= max_time → of_iso (format_iso t) = Some t.
Proof.
  intros Ht. unfold max_time in Ht. unfold format_iso.
  pose proof (civil_month_day (Day t)) as Hmd.
  assert (-100000000 <= Day t <= 100000000) as Hday
      by (unfold Day, msPerDay; Z.div_mod_to_equations; lia).
  pose proof (civil_year_range (Day t) Hday) as Hy.
  pose proof (days_from_civil_from_days (Day t)) as Hback.
  destruct (civil_from_days (Day t)) as [[y m] d].
  assert (0 <= TimeWithinDay t < 86400000) as Hms
      by (unfold TimeWithinDay, msPerDay; apply Z.mod_pos_bound; lia).
  assert (t = Day t * msPerDay + TimeWithinDay t) as Hsplit
      by (unfold Day, TimeWithinDay, msPerDay; Z.div_mod_to_equations; lia).
  set (ms := TimeWithinDay t) in *. clearbody ms.
  unfold of_iso. rewrite signed_year_year_string by lia.
  cbn [mbind option_bind].
  do 17 read_field.
  change ("Z" : string) with ("Z" +:+ "").
  read_field. simpl String.eqb. cbv iota. f_equal. rewrite Hback.
  set (day := Day t) in *. clearbody day. subst t.
  unfold msPerDay. clear Ht Hday Hy Hmd Hback. Z.div_mod_to_equations. lia.
Qed.

End IsoRoundTrip.

(** ** The create-event form *)

Section CreateEventFacts.
Import CreateEvent.

Lemma TimeClip_bound t t' : JsDate.TimeClip t = Some t' → t' = t ∧ (Z.abs t <= JsDate.max_time)%Z.
Proof.
  unfold JsDate.TimeClip. destruct (Z.abs t <=? JsDate.max_time)%Z eqn:E; [| done].
  intros [= <-]. split; [done | by apply Z.leb_le].
Qed.

Lemma Date_new_is_iso8601 Date_parse s t :
  JsDate.Date_new Date_parse s = Some t → JsDate.is_iso8601 (JsDate.format_iso t) = true.
Proof.
  unfold JsDate.Date_new. destruct (Date_parse s) as [t0|]; [| done]. simpl.
  intros [-> Hb]%TimeClip_bound. by apply format_iso_is_iso8601.
Qed.

Lemma Date_new_round_trip Date_parse s t :
  JsDate.Date_new Date_parse s = Some t → IsoTimestamp.of_iso (JsDate.format_iso t) = Some t.
Proof.
  unfold JsDate.Date_new. destruct (Date_parse s) as [t0|]; [| done]. simpl.
  intros [-> Hb]%TimeClip_bound. by apply of_iso_format_iso.
Qed.

Lemma or_null_not_empty d : Js.or_null d ≠ Some "".
Proof.
  destruct d as [s|]; [| done]. simpl. unfold Js.truthy.
  destruct (String.eqb s "") eqn:E; [done |]. simpl.
  intros [= ->]. by rewrite String.eqb_refl in E.
Qed.

Lemma onSubmit_requests Date_parse x (w : World View) :
  requests (exec (onSubmit Date_parse x) w)
  = requests w ++
    match JsDate.Date_new Date_parse (date x) with
     | Some t =>
         [Request.createEvent
            (CreateEventInput.mk (title x) (Js.or_null (description x))
                                 (JsDate.format_iso t) (location x))]
     | None => []
     end
  ∧ view (exec (onSubmit Date_parse x) w) = view w
  ∧ navigations (exec (onSubmit Date_parse x) w) = navigations w
  ∧ (onSubmit Date_parse x w).1 = bool_decide (is_Some (JsDate.Date_new Date_parse (date x))).
Proof.
  unfold onSubmit, JsDate.toISOString, exec.
  destruct (JsDate.Date_new Date_parse (date x)) as [t|]; simpl.
  - repeat split. 
  - rewrite app_nil_r. repeat split.
Qed.

Lemma handleSubmit_valid Date_parse (w : World View) :
  eventSchema (values (view w)) = [] →
  requests (exec (handleSubmit Date_parse) w)
  = requests (exec (onSubmit Date_parse (values (view w))) w)
  ∧ (handleSubmit Date_parse w).1 = (onSubmit Date_parse (values (view w)) w).1
  ∧ toasts (exec (handleSubmit Date_parse) w)
    = toasts (exec (onSubmit Date_parse (values (view w))) w)
  ∧ navigations (exec (handleSubmit Date_parse) w) = navigations w.
Proof.
  intros E. unfold handleSubmit, exec, bind, get. simpl. rewrite E.
  unfold onSubmit, JsDate.toISOString.
  by destruct (JsDate.Date_new Date_parse (date (values (view w)))).
Qed.

Lemma handleSubmit_invalid Date_parse (w : World View) :
  eventSchema (values (view w)) ≠ [] →
  exec (handleSubmit Date_parse) w
  = mkWorld (setErrors (eventSchema (values (view w))) (view w)) (realtime w) (wire w)
            (requests w) (toasts w) (navigations w) (console w)
  ∧ (handleSubmit Date_parse w).1 = false.
Proof.
  intros E. unfold handleSubmit, exec, bind, get. simpl.
  by destruct (eventSchema (values (view w))).
Qed.

End CreateEventFacts.

(** C10. What the submitted form sends: when validation passes and the
    date parses, exactly one [createEvent] call whose description is
    [values.description || null] and whose date is the ISO 8601 rendering of
    the parsed instant; nothing when validation fails or the date is
    invalid. An empty description therefore reaches [createEvent] as
    [null], no description ever reaches it as the empty string, and every
    date sent is an ISO 8601 timestamp that, read back, is the very instant
    the browser read from the submitted date value. *)
Theorem onSubmit_sends_null_description_and_iso_date
    (Date_parse : string → option Z) (w : World CreateEvent.View) :
  let x := CreateEvent.values (view w) in
  let sent :=
    match JsDate.Date_new Date_parse (CreateEvent.date x) with
    | Some t =>
        [Request.createEvent
           (CreateEventInput.mk (CreateEvent.title x) (Js.or_null (CreateEvent.description x))
                                (JsDate.format_iso t) (CreateEvent.location x))]
    | None => []
    end in
  requests (exec (CreateEvent.onSubmit Date_parse x) w) = requests w ++ sent
  ∧ requests (exec (CreateEvent.handleSubmit Date_parse) w)
    = requests w ++ (if bool_decide (CreateEvent.eventSchema x = []) then sent else [])
  ∧ (CreateEvent.description x = Some "" → Js.or_null (CreateEvent.description x) = None)
  ∧ (∀ d, Js.or_null d ≠ Some "")
  ∧ (∀ t, JsDate.Date_new Date_parse (CreateEvent.date x) = Some t →
          JsDate.toISOString Date_parse (CreateEvent.date x) = Some (JsDate.format_iso t)
          ∧ JsDate.is_iso8601 (JsDate.format_iso t) = true
          ∧ IsoTimestamp.of_iso (JsDate.format_iso t) = Some t).
Proof.
  intros x sent.
  pose proof (onSubmit_requests Date_parse x w) as (Hsent & _).
  split; [exact Hsent |].
  split.
  { case_bool_decide as Hvalid.
    - destruct (handleSubmit_valid Date_parse w Hvalid) as (-> & _). exact Hsent.
    - destruct (handleSubmit_invalid Date_parse w Hvalid) as (-> & _).
      simpl. by rewrite app_nil_r. }
  split; [by intros -> |].
  split; [apply or_null_not_empty |].
  intros t Ht. split.
  - unfold JsDate.toISOString. by rewrite Ht.
  - split; [by eapply Date_new_is_iso8601 | by eapply Date_new_round_trip].
Qed.

Lemma onSubmit_sends_null_description_and_iso_date_witness :
  CreateEvent.description (CreateEvent.values (view Sample.launch_world)) = Some ""
  ∧ Js.or_null (CreateEvent.description (CreateEvent.values (view Sample.launch_world)))
    = None
  ∧ JsDate.Date_new Sample.Date_parse
      (CreateEvent.date (CreateEvent.values (view Sample.launch_world)))
    = Some 1735754400000%Z
  ∧ requests (exec (CreateEvent.handleSubmit Sample.Date_parse) Sample.launch_world)
    = [Request.createEvent
         (CreateEventInput.mk "Launch" None "2025-01-01T18:00:00.000Z" "HQ")]
  ∧ JsDate.is_iso8601 "2025-01-01T18:00:00.000Z" = true
  ∧ IsoTimestamp.of_iso "2025-01-01T18:00:00.000Z" = Some 1735754400000%Z.
Proof.
  destruct (onSubmit_sends_null_description_and_iso_date
              Sample.Date_parse Sample.launch_world)
    as (_ & Hsent & Hnull & _ & Hiso).
  destruct (Hiso 1735754400000%Z eq_refl) as (_ & Hshape & Hback).
  split; [reflexivity |]. split; [exact (Hnull eq_refl) |]. split; [reflexivity |].
  split; [rewrite Hsent; reflexivity |].
  split; [exact Hshape | exact Hback].
Defined.

Section CreateEventValidation.
Import CreateEvent.

Lemma eventSchema_accepts (x : EventFormValues) :
  (1 ≤ String.length (title x) ≤ 200)%nat →
  (1 ≤ String.length (date x))%nat →
  (1 ≤ String.length (location x) ≤ 200)%nat →
  (∀ d, description x = Some d → (String.length d ≤ 1000)%nat) →
  eventSchema x = [].
Proof.
  intros Ht Hd Hl Hdesc. unfold eventSchema.
  destruct (Nat.ltb_spec (String.length (title x)) 1); [lia |].
  destruct (Nat.ltb_spec 200 (String.length (title x))); [lia |].
  destruct (Nat.ltb_spec (String.length (date x)) 1); [lia |].
  destruct (Nat.ltb_spec (String.length (location x)) 1); [lia |].
  destruct (Nat.ltb_spec 200 (String.length (location x))); [lia |].
  destruct (description x) as [d|]; [| done].
  specialize (Hdesc d eq_refl).
  by destruct (Nat.ltb_spec 1000 (String.length d)); [lia |].
Qed.

Lemma eventSchema_empty_title (x : EventFormValues) :
  title x = "" → ("title", "El título es requerido") ∈ eventSchema x.
Proof. intros Ht. unfold eventSchema. rewrite Ht. simpl. by left. Qed.

Lemma createEvent_served env input db :
  Store.fault env = None →
  Store.uuid env ∉ Store.event_ids db →
  Events.createEvent env input db
  = (Store.mkResponse (Some (Events.inserted_row env input)) None,
     Store.mkDatabase (Store.events db ++ [Events.inserted_row env input])
                      (Store.chat_messages db) (Store.auth_users db)).
Proof.
  intros Hf Hfresh. unfold Events.createEvent. rewrite Hf.
  by rewrite bool_decide_false by done.
Qed.

End CreateEventValidation.

(** C7, as the code has it. A form with an empty title is rejected by the
    resolver: no call leaves the browser and the title issue is recorded.
    A form with a title and a location of 1 to 200 characters, a date that
    parses, and a description that is absent or of at most 1000 characters
    sends exactly one [createEvent] call; when the platform serves it, the
    answer is the created record, carrying the identifier and the two
    timestamps the platform assigned, the record is in the table, and the
    form reports success and navigates home. *)
Theorem create_event_validation_then_creation
    (Date_parse : string → option Z) (w : World CreateEvent.View) :
  let x := CreateEvent.values (view w) in
  let w' := exec (CreateEvent.handleSubmit Date_parse) w in
  (CreateEvent.title x = "" →
   (CreateEvent.handleSubmit Date_parse w).1 = false
   ∧ requests w' = requests w
   ∧ toasts w' = toasts w
   ∧ navigations w' = navigations w
   ∧ ("title", "El título es requerido") ∈ CreateEvent.errors (view w'))
  ∧ (∀ t,
       (1 ≤ String.length (CreateEvent.title x) ≤ 200)%nat →
       (1 ≤ String.length (CreateEvent.date x))%nat →
       (1 ≤ String.length (CreateEvent.location x) ≤ 200)%nat →
       (∀ d, CreateEvent.description x = Some d → (String.length d ≤ 1000)%nat) →
       JsDate.Date_new Date_parse (CreateEvent.date x) = Some t →
       let input :=
         CreateEventInput.mk (CreateEvent.title x) (Js.or_null (CreateEvent.description x))
                             (JsDate.format_iso t) (CreateEvent.location x) in
       (CreateEvent.handleSubmit Date_parse w).1 = true
       ∧ requests w' = requests w ++ [Request.createEvent input]
       ∧ ∀ env db,
           Store.fault env = None →
           Store.uuid env ∉ Store.event_ids db →
           let row :=
             Event.mk (Store.uuid env) (CreateEvent.title x)
                      (Js.or_null (CreateEvent.description x)) (JsDate.format_iso t)
                      (CreateEvent.location x) (Store.now env) (Store.now env) in
           let served := Events.createEvent env input db in
           served.1 = Store.mkResponse (Some row) None
           ∧ Store.events served.2 = Store.events db ++ [row]
           ∧ Store.chat_messages served.2 = Store.chat_messages db
           ∧ let w'' := exec (CreateEvent.onSubmit_resume (Js.Resolved served.1)) w' in
             toasts w'' = toasts w' ++ [Toast.success "Evento creado exitosamente"]
             ∧ navigations w'' = navigations w' ++ ["/"]
             ∧ requests w'' = requests w').
Proof.
  intros x w'. split.
  - intros Htitle.
    assert (CreateEvent.eventSchema x ≠ []) as Hinvalid.
    { intros Hnil. pose proof (eventSchema_empty_title x Htitle) as Hin.
      rewrite Hnil in Hin. by apply elem_of_nil in Hin. }
    destruct (handleSubmit_invalid Date_parse w Hinvalid) as [Hw' Hret].
    subst w'. rewrite Hw'. simpl.
    repeat split; try done. by apply eventSchema_empty_title.
  - intros t Ht Hd Hl Hdesc Hparse input.
    pose proof (eventSchema_accepts x Ht Hd Hl Hdesc) as Hvalid.
    destruct (handleSubmit_valid Date_parse w Hvalid) as (Hreq & Hret & _ & _).
    destruct (onSubmit_requests Date_parse x w) as (Hsent & _ & _ & Hawait).
    fold x in Hreq, Hret. rewrite Hparse in Hsent.
    split.
    { rewrite Hret, Hawait, Hparse. apply bool_decide_true. by eexists. }
    split; [subst w'; by rewrite Hreq |].
    intros env db Hf Hfresh row served. subst served.
    rewrite (createEvent_served env input db Hf Hfresh). simpl.
    repeat split.
Qed.

Lemma create_event_validation_then_creation_witness :
  CreateEvent.title (CreateEvent.values (view CreateEvent.nothing)) = ""
  ∧ requests (exec (CreateEvent.handleSubmit Sample.Date_parse) CreateEvent.nothing) = []
  ∧ JsDate.Date_new Sample.Date_parse
      (CreateEvent.date (CreateEvent.values (view Sample.launch_world)))
    = Some 1735754400000%Z
  ∧ Store.fault Sample.serves_launch = None
  ∧ (Store.uuid Sample.serves_launch ∉ Store.event_ids Sample.database)
  ∧ requests (exec (CreateEvent.handleSubmit Sample.Date_parse) Sample.launch_world)
    = [Request.createEvent
         (CreateEventInput.mk "Launch" None "2025-01-01T18:00:00.000Z" "HQ")]
  ∧ (Events.createEvent Sample.serves_launch
       (CreateEventInput.mk "Launch" None "2025-01-01T18:00:00.000Z" "HQ")
       Sample.database).1
    = Store.ok (Event.mk "e3" "Launch" None "2025-01-01T18:00:00.000Z" "HQ"
                         1735000000000 1735000000000).
Proof.
  destruct (create_event_validation_then_creation Sample.Date_parse CreateEvent.nothing)
    as [Hempty _].
  destruct (Hempty eq_refl) as (_ & Hnone & _).
  destruct (create_event_validation_then_creation Sample.Date_parse Sample.launch_world)
    as [_ Hvalid].
  assert (Store.uuid Sample.serves_launch ∉ Store.event_ids Sample.database) as Hfresh.
  { intros Hin. vm_compute in Hin.
    repeat (apply elem_of_cons in Hin as [Hin | Hin]; [discriminate |]).
    by apply elem_of_nil in Hin. }
  destruct (Hvalid 1735754400000%Z) as (_ & Hsent & Hserved).
  { vm_compute. lia. }
  { vm_compute. lia. }
  { vm_compute. lia. }
  { intros d [= <-]. vm_compute. lia. }
  { reflexivity. }
  destruct (Hserved Sample.serves_launch Sample.database eq_refl Hfresh)
    as (Hrow & _).
  split; [reflexivity |]. split; [exact Hnone |]. split; [reflexivity |].
  split; [reflexivity |]. split; [exact Hfresh |].
  split; [exact Hsent |]. exact Hrow.
Defined.

(** The specification asks only for a valid title, date and location: a
    form with these and a description of 1001 characters is rejected by the
    resolver, and no [createEvent] call is made. *)
Lemma create_event_long_description_rejected :
  (1 ≤ String.length (CreateEvent.title Sample.long_form) ≤ 200)%nat
  ∧ (1 ≤ String.length (CreateEvent.location Sample.long_form) ≤ 200)%nat
  ∧ JsDate.toISOString Sample.Date_parse (CreateEvent.date Sample.long_form)
    = Some "2025-01-01T18:00:00.000Z"
  ∧ (CreateEvent.handleSubmit Sample.Date_parse Sample.long_world).1 = false
  ∧ requests (exec (CreateEvent.handleSubmit Sample.Date_parse) Sample.long_world) = []
  ∧ CreateEvent.errors
      (view (exec (CreateEvent.handleSubmit Sample.Date_parse) Sample.long_world))
    = [("description", "La descripción es demasiado larga")].
Proof.
  split; [vm_compute; lia |]. split; [vm_compute; lia |].
  repeat split; vm_compute; reflexivity.
Qed.

(** ** Sending a message *)

Section SendFacts.
Import EventDetail.

Lemma truthy_iff s : Js.truthy s = true ↔ s ≠ "".
Proof.
  unfold Js.truthy. destruct (String.eqb_spec s ""); simpl; split; done.
Qed.

Lemma truthy_opt_iff o : Js.truthy_opt o = true ↔ ∃ s, o = Some s ∧ s ≠ "".
Proof.
  destruct o as [s|]; simpl.
  - rewrite truthy_iff. split; [intros H; by exists s | by intros (s' & [= <-] & H)].
  - split; [done | by intros (s' & [=] & _)].
Qed.

(** The guard of [handleSendMessage]. *)
Lemma handleSendMessage_blocked (w : World View) :
  Js.truthy (Js.trim (messageText (view w))) = false
  ∨ Js.truthy_opt (currentUserId (view w)) = false
  ∨ Js.truthy_opt (id (view w)) = false →
  (handleSendMessage w).1 = false
  ∧ requests (exec handleSendMessage w) = requests w
  ∧ view (exec handleSendMessage w) = view w.
Proof.
  intros Hguard. unfold handleSendMessage, exec, bind, get. simpl.
  destruct (Js.truthy (Js.trim (messageText (view w)))),
           (Js.truthy_opt (currentUserId (view w))) eqn:Hu,
           (Js.truthy_opt (id (view w))); simpl;
    try done; destruct Hguard as [? | [? | ?]]; done.
Qed.

Lemma handleSendMessage_sends (w : World View) u i :
  currentUserId (view w) = Some u → u ≠ "" →
  id (view w) = Some i → i ≠ "" →
  Js.trim (messageText (view w)) ≠ "" →
  (handleSendMessage w).1 = true
  ∧ exec handleSendMessage w
    = mkWorld (setSending true (view w)) (realtime w) (wire w)
              (requests w ++ [Request.createMessage
                                (CreateMessageInput.mk i u (Js.trim (messageText (view w))))])
              (toasts w) (navigations w) (console w).
Proof.
  intros Hu Hune Hi Hine Htext. unfold handleSendMessage, exec, bind, get. simpl.
  apply truthy_iff in Htext, Hune, Hine.
  rewrite Htext, Hu, Hi. simpl. rewrite Hune, Hine. by simpl.
Qed.

Lemma handleSendMessage_resume_no_request o (w : World View) :
  requests (exec (handleSendMessage_resume o) w) = requests w.
Proof.
  unfold handleSendMessage_resume, exec, bind.
  destruct o as [r|reason]; [destruct (Store.error r) |]; done.
Qed.

End SendFacts.

(** C9. A send attempt whose text trims to the empty string, or made while
    no user identifier or no event identifier is known, issues no call and
    leaves the view as it is; nor does anything run later for it. Otherwise
    the attempt issues exactly one [createMessage] call, for the displayed
    event and the current user, whose content is the trimmed text. *)
Theorem handleSendMessage_guard_and_trimmed_content (w : World EventDetail.View) :
  let v := view w in
  let w' := exec EventDetail.handleSendMessage w in
  (Js.trim (EventDetail.messageText v) = ""
   ∨ EventDetail.currentUserId v = None ∨ EventDetail.currentUserId v = Some ""
   ∨ EventDetail.id v = None ∨ EventDetail.id v = Some "" →
   (EventDetail.handleSendMessage w).1 = false
   ∧ requests w' = requests w
   ∧ view w' = v)
  ∧ (∀ u i,
       EventDetail.currentUserId v = Some u → u ≠ "" →
       EventDetail.id v = Some i → i ≠ "" →
       Js.trim (EventDetail.messageText v) ≠ "" →
       (EventDetail.handleSendMessage w).1 = true
       ∧ requests w'
         = requests w ++ [Request.createMessage
                            (CreateMessageInput.mk i u (Js.trim (EventDetail.messageText v)))])
  ∧ (∀ input,
       Request.createMessage input ∈ requests w' →
       Request.createMessage input ∈ requests w
       ∨ CreateMessageInput.content input = Js.trim (EventDetail.messageText v)
         ∧ CreateMessageInput.content input ≠ ""
         ∧ Some (CreateMessageInput.user_id input) = EventDetail.currentUserId v
         ∧ Some (CreateMessageInput.event_id input) = EventDetail.id v)
  ∧ (∀ o w0, requests (exec (EventDetail.handleSendMessage_resume o) w0) = requests w0).
Proof.
  intros v w'.
  assert (∀ s, Js.truthy s = false ↔ s = "") as Hfalsy.
  { intros s. pose proof (truthy_iff s) as Ht.
    destruct (Js.truthy s); split; intros H; try done.
    - subst s. by destruct (proj1 Ht eq_refl).
    - destruct (decide (s = "")) as [|Hne]; [done |]. apply Ht in Hne. done. }
  split.
  { intros Hguard. apply handleSendMessage_blocked.
    destruct Hguard as [Ht | [Hu | [Hu | [Hi | Hi]]]].
    - left. by apply Hfalsy.
    - right; left. fold v. by rewrite Hu.
    - right; left. fold v. by rewrite Hu.
    - right; right. fold v. by rewrite Hi.
    - right; right. fold v. by rewrite Hi. }
  split.
  { intros u i Hu Hune Hi Hine Htext.
    destruct (handleSendMessage_sends w u i Hu Hune Hi Hine Htext) as [Hret Hw'].
    split; [done |]. subst w'. by rewrite Hw'. }
  split; [| apply handleSendMessage_resume_no_request].
  intros input Hin.
  destruct (Js.truthy (Js.trim (EventDetail.messageText v))) eqn:Ht;
    [| left; destruct (handleSendMessage_blocked w) as (_ & <- & _); [by left | done]].
  destruct (Js.truthy_opt (EventDetail.currentUserId v)) eqn:Hu;
    [| left; destruct (handleSendMessage_blocked w) as (_ & <- & _);
       [by (right; left) | done]].
  destruct (Js.truthy_opt (EventDetail.id v)) eqn:Hi;
    [| left; destruct (handleSendMessage_blocked w) as (_ & <- & _);
       [by (right; right) | done]].
  apply truthy_iff in Ht.
  apply truthy_opt_iff in Hu as (u & Hu & Hune), Hi as (i & Hi & Hine).
  destruct (handleSendMessage_sends w u i Hu Hune Hi Hine Ht) as [_ Hw'].
  subst w'. rewrite Hw' in Hin. simpl in Hin.
  apply elem_of_app in Hin as [Hin | Hin]; [by left | right].
  apply list_elem_of_singleton in Hin. injection Hin as ->. simpl.
  by rewrite Hu, Hi.
Qed.

Lemma handleSendMessage_guard_and_trimmed_content_witness :
  Js.trim (EventDetail.messageText (view Sample.blank_world)) = ""
  ∧ requests (exec EventDetail.handleSendMessage Sample.blank_world)
    = requests Sample.blank_world
  ∧ EventDetail.currentUserId (view Sample.visitor_world) = None
  ∧ requests (exec EventDetail.handleSendMessage Sample.visitor_world)
    = requests Sample.visitor_world
  ∧ EventDetail.currentUserId (view Sample.chat_world) = Some "u1"
  ∧ EventDetail.id (view Sample.chat_world) = Some "e1"
  ∧ Js.trim (EventDetail.messageText (view Sample.chat_world)) = "hello"
  ∧ requests (exec EventDetail.handleSendMessage Sample.chat_world)
    = requests Sample.chat_world
      ++ [Request.createMessage (CreateMessageInput.mk "e1" "u1" "hello")].
Proof.
  destruct (handleSendMessage_guard_and_trimmed_content Sample.blank_world)
    as (Hblank & _).
  destruct (Hblank (or_introl eq_refl)) as (_ & Hblank_requests & _).
  destruct (handleSendMessage_guard_and_trimmed_content Sample.visitor_world)
    as (Hvisitor & _).
  destruct (Hvisitor (or_intror (or_introl eq_refl))) as (_ & Hvisitor_requests & _).
  destruct (handleSendMessage_guard_and_trimmed_content Sample.chat_world)
    as (_ & Hsends & _).
  assert ("u1" ≠ "") as Hu by discriminate.
  assert ("e1" ≠ "") as Hi by discriminate.
  assert (Js.trim (EventDetail.messageText (view Sample.chat_world)) ≠ "") as Ht
      by (vm_compute; discriminate).
  destruct (Hsends "u1" "e1" eq_refl Hu eq_refl Hi Ht) as (_ & Hsent).
  split; [reflexivity |]. split; [exact Hblank_requests |].
  split; [reflexivity |]. split; [exact Hvisitor_requests |].
  split; [reflexivity |]. split; [reflexivity |]. split; [reflexivity |].
  exact Hsent.
Defined.

(** ** Failed writes *)

(** C8, as the code has it. When [createMessage] or [createEvent], the two
    writes the views make, answers with an error, one error notification is
    raised, the view keeps its state (the message sequence, the pending
    text and the form values are those from before the call, and [sending]
    is back to [false]), nothing navigates, and no further call is made.
    [updateEvent], [deleteEvent] and [deleteMessage] are called by no view:
    each hands the error back to its caller after its single request,
    leaves the tables as they are, and raises no notification itself. *)
Theorem write_error_notifies_once_and_keeps_state (e : Store.PostgrestError) :
  (∀ (w : World EventDetail.View) data,
      let w' := exec (EventDetail.handleSendMessage_resume
                        (Js.Resolved (Store.mkResponse data (Some e)))) w in
      toasts w' = toasts w ++ [Toast.error (Js.or_else (Store.message e)
                                                       "Error al enviar mensaje")]
      ∧ view w' = EventDetail.setSending false (view w)
      ∧ EventDetail.messages (view w') = EventDetail.messages (view w)
      ∧ EventDetail.messageText (view w') = EventDetail.messageText (view w)
      ∧ requests w' = requests w
      ∧ navigations w' = navigations w
      ∧ realtime w' = realtime w)
  ∧ (∀ (w : World EventDetail.View) data,
      EventDetail.sending (view w) = false →
      let attempt :=
        awaited <- EventDetail.handleSendMessage ;;
        if awaited
        then EventDetail.handleSendMessage_resume
               (Js.Resolved (Store.mkResponse data (Some e)))
        else ret tt in
      view (exec attempt w) = view w
      ∧ (length (requests (exec attempt w)) ≤ length (requests w) + 1)%nat)
  ∧ (∀ (w : World CreateEvent.View) data,
      let w' := exec (CreateEvent.onSubmit_resume
                        (Js.Resolved (Store.mkResponse data (Some e)))) w in
      toasts w' = toasts w ++ [Toast.error (Js.or_else (Store.message e)
                                                       "Error al crear el evento")]
      ∧ view w' = view w
      ∧ requests w' = requests w
      ∧ navigations w' = navigations w)
  ∧ (∀ env db,
      Store.fault env = Some e →
      (∀ input, Events.createEvent env input db = (Store.failed e, db))
      ∧ (∀ id input, Events.updateEvent env id input db = (Store.failed e, db))
      ∧ (∀ id, Events.deleteEvent env id db = (Some e, db))
      ∧ (∀ input, Messages.createMessage env input db = (Store.failed e, db))
      ∧ (∀ id, Messages.deleteMessage env id db = (Some e, db)))
  ∧ (∀ (V : Type) (w : World V) env db id input,
      Store.fault env = Some e →
      Repository.updateEvent_resume (Events.updateEvent env id input db).1 w
      = (Store.failed e, w)
      ∧ Repository.deleteEvent_resume (Events.deleteEvent env id db).1 w = (Some e, w)
      ∧ Repository.deleteMessage_resume (Messages.deleteMessage env id db).1 w
        = (Some e, w)).
Proof.
  split; [by intros w data |].
  split.
  { intros w data Hsending attempt. subst attempt. unfold exec, bind.
    destruct (EventDetail.handleSendMessage w) as [awaited w1] eqn:Hrun.
    assert (awaited = (EventDetail.handleSendMessage w).1) as Hret by (by rewrite Hrun).
    assert (w1 = exec EventDetail.handleSendMessage w) as Hw1
        by (unfold exec; by rewrite Hrun).
    clear Hrun.
    destruct (Js.truthy (Js.trim (EventDetail.messageText (view w)))) eqn:Ht;
      [| destruct (handleSendMessage_blocked w) as (Hb & Hr & Hv); [by left |];
         rewrite Hb in Hret; subst awaited w1; simpl; rewrite Hr, Hv; split; [done | lia]].
    destruct (Js.truthy_opt (EventDetail.currentUserId (view w))) eqn:Hu;
      [| destruct (handleSendMessage_blocked w) as (Hb & Hr & Hv); [by (right; left) |];
         rewrite Hb in Hret; subst awaited w1; simpl; rewrite Hr, Hv; split; [done | lia]].
    destruct (Js.truthy_opt (EventDetail.id (view w))) eqn:Hi;
      [| destruct (handleSendMessage_blocked w) as (Hb & Hr & Hv); [by (right; right) |];
         rewrite Hb in Hret; subst awaited w1; simpl; rewrite Hr, Hv; split; [done | lia]].
    apply truthy_iff in Ht.
    apply truthy_opt_iff in Hu as (u & Hu & Hune), Hi as (i & Hi & Hine).
    destruct (handleSendMessage_sends w u i Hu Hune Hi Hine Ht) as [Hb Hw'].
    rewrite Hb in Hret. rewrite Hw' in Hw1. subst awaited w1. simpl.
    rewrite length_app. simpl. split; [| lia].
    destruct w as [v ? ? ? ? ? ?]. destruct v. simpl in *. by subst. }
  split; [by intros w data |].
  split.
  { intros env db Hf.
    unfold Events.createEvent, Events.updateEvent, Events.deleteEvent,
           Messages.createMessage, Messages.deleteMessage.
    by rewrite Hf. }
  intros V w env db id input Hf.
  unfold Repository.updateEvent_resume, Repository.deleteEvent_resume,
         Repository.deleteMessage_resume, ret,
         Events.updateEvent, Events.deleteEvent, Messages.deleteMessage.
  by rewrite Hf.
Qed.

Lemma write_error_notifies_once_and_keeps_state_witness :
  EventDetail.sending (view Sample.chat_world) = false
  ∧ Store.fault (Store.mkEnv (Some Sample.unreachable) "m9" 100) = Some Sample.unreachable
  ∧ view (exec (awaited <- EventDetail.handleSendMessage ;;
                if awaited
                then EventDetail.handleSendMessage_resume
                       (Js.Resolved (Store.mkResponse None (Some Sample.unreachable)))
                else ret tt) Sample.chat_world)
    = view Sample.chat_world
  ∧ Messages.createMessage (Store.mkEnv (Some Sample.unreachable) "m9" 100)
      (CreateMessageInput.mk "e1" "u1" "hello") Sample.database
    = (Store.failed Sample.unreachable, Sample.database)
  ∧ Repository.deleteEvent_resume
      (Events.deleteEvent (Store.mkEnv (Some Sample.unreachable) "m9" 100) "e1"
                          Sample.database).1
      Sample.chat_world
    = (Some Sample.unreachable, Sample.chat_world).
Proof.
  destruct (write_error_notifies_once_and_keeps_state Sample.unreachable)
    as (_ & Hattempt & _ & Hrepo & Hbrowser).
  destruct (Hbrowser EventDetail.View Sample.chat_world
              (Store.mkEnv (Some Sample.unreachable) "m9" 100) Sample.database "e1"
              (UpdateEventInput.mk None None None None) eq_refl) as (_ & Hdelete & _).
  destruct (Hattempt Sample.chat_world None eq_refl) as [Hview _].
  destruct (Hrepo (Store.mkEnv (Some Sample.unreachable) "m9" 100) Sample.database eq_refl)
    as (_ & _ & _ & Hcreate & _).
  split; [reflexivity |]. split; [reflexivity |].
  split; [exact Hview |]. split; [apply Hcreate | exact Hdelete].
Defined.

(** The specification asks for a notification after every failed write.
    A [deleteEvent] that the platform fails hands the error back and that
    is all: in the page it is called from no notification appears, and the
    same goes for [updateEvent] and [deleteMessage]. *)
Lemma failed_delete_surfaces_no_notification :
  Events.deleteEvent (Store.mkEnv (Some Sample.unreachable) "" 0) "e1" Sample.database
  = (Some Sample.unreachable, Sample.database)
  ∧ toasts Sample.chat_world = []
  ∧ toasts (exec (Repository.deleteEvent_resume
                    (Events.deleteEvent (Store.mkEnv (Some Sample.unreachable) "" 0) "e1"
                                        Sample.database).1)
                 Sample.chat_world) = []
  ∧ toasts (exec (Repository.updateEvent_resume
                    (Events.updateEvent (Store.mkEnv (Some Sample.unreachable) "" 0) "e1"
                                        (UpdateEventInput.mk (Some "Launch 2") None None None)
                                        Sample.database).1)
                 Sample.chat_world) = []
  ∧ toasts (exec (Repository.deleteMessage_resume
                    (Messages.deleteMessage (Store.mkEnv (Some Sample.unreachable) "" 0) "m1"
                                            Sample.database).1)
                 Sample.chat_world) = [].
Proof. repeat split; vm_compute; reflexivity. Qed.

(** ** The subscription lifecycle *)

Section LifecycleFacts.
Import Js Realtime EventDetail Lifecycle.
Implicit Types (w : World View) (v : View) (c old live : list (Channel View)).

Lemma open_topics_closed old :
  Forall (fun ch => subscribed ch = false) old →
  filter (fun ch => subscribed ch = true) old = [].
Proof.
  induction 1 as [|ch old Hch _ IH]; [done |].
  rewrite filter_cons_False by congruence. done.
Qed.

Lemma outline_topics live live' :
  outline <$> live = outline <$> live' →
  topic <$> live = topic <$> live'
  ∧ (topic <$> filter (fun ch => subscribed ch = true) live)
    = (topic <$> filter (fun ch => subscribed ch = true) live').
Proof.
  revert live'. induction live as [|ch live IH]; intros [|ch' live'] Heq; try done.
  rewrite !fmap_cons in Heq. injection Heq as Ht Hs Hb Hrest.
  destruct (IH live' Hrest) as [IH1 IH2].
  split; [rewrite !fmap_cons; congruence |].
  rewrite !filter_cons. rewrite Hs.
  case_decide; rewrite ?fmap_cons; congruence.
Qed.

Lemma expected_live_subscribed v :
  filter (fun ch => subscribed ch = true) (expected_live v) = expected_live v.
Proof.
  unfold expected_live.
  destruct (id v) as [i|]; [| done]. destruct (truthy i); [| done].
  destruct (currentUserId v) as [u|]; [destruct (truthy u) |]; done.
Qed.

Lemma invariant_open_topics w :
  invariant w → open_topics w = expected_topics (view w).
Proof.
  intros (old & live & Hrt & Hold & Hlive & _ & _).
  unfold open_topics, expected_topics. rewrite Hrt, filter_app, fmap_app.
  rewrite (open_topics_closed old Hold). simpl.
  destruct (outline_topics _ _ Hlive) as [_ ->].
  by rewrite expected_live_subscribed.
Qed.

Lemma open_channel_subscribe (ch : Channel View) w :
  open_channel (subscribe ch) w
  = (length (realtime w),
     mkWorld (view w) (realtime w ++ [ch]) (wire w ++ [Wire.join (topic ch)])
             (requests w) (toasts w) (navigations w) (console w)).
Proof.
  unfold open_channel, subscribe. by rewrite list_lookup_middle.
Qed.

Lemma close_channel_at h w ch :
  realtime w !! h = Some ch →
  close_channel h w
  = (tt, mkWorld (view w) (alter close h (realtime w)) (wire w ++ [Wire.leave (topic ch)])
                 (requests w) (toasts w) (navigations w) (console w)).
Proof. intros Hh. unfold close_channel, unsubscribe. by rewrite Hh. Qed.

(** One run of the realtime effect. *)
Lemma realtime_effect_run w :
  exec realtime_effect w
  = mkWorld (set_realtime_closure (expected_closure (length (realtime w)) (view w)) (view w))
            (realtime w ++ expected_live (view w))
            (wire w ++ (Wire.join <$> expected_topics (view w)))
            (requests w) (toasts w) (navigations w) (console w).
Proof.
  unfold realtime_effect, expected_closure, expected_topics, expected_live, exec, bind, get.
  simpl.
  destruct (id (view w)) as [i|]; [| by rewrite !app_nil_r].
  destruct (truthy i); [| by rewrite !app_nil_r].
  unfold setupRealtime, bind, Subscriptions.subscribeToMessages,
         Subscriptions.subscribeToPresence.
  rewrite open_channel_subscribe.
  destruct (currentUserId (view w)) as [u|]; [destruct (truthy u) |]; try done.
  rewrite open_channel_subscribe. simpl.
  rewrite length_app, <- !app_assoc. simpl. by rewrite Nat.add_1_r.
Qed.

Lemma alter_first_live (f : Channel View → Channel View) old ch rest :
  alter f (length old) (old ++ ch :: rest) = old ++ f ch :: rest.
Proof. by rewrite <- (Nat.add_0_r (length old)), alter_app_r. Qed.

Lemma alter_second_live (f : Channel View → Channel View) old ch ch' rest :
  alter f (S (length old)) (old ++ ch :: ch' :: rest) = old ++ ch :: f ch' :: rest.
Proof. by rewrite <- (Nat.add_1_r (length old)), alter_app_r. Qed.

Lemma lookup_second_live old (ch ch' : Channel View) rest :
  (old ++ ch :: ch' :: rest) !! S (length old) = Some ch'.
Proof. rewrite lookup_app_r by lia. by replace (S (length old) - length old) with 1 by lia. Qed.

(** The cleanup of the last run, from a world that satisfies the
    invariant. *)
Lemma realtime_cleanup_run before w old live :
  realtime w = old ++ live →
  outline <$> live = outline <$> expected_live before →
  realtime_closure (view w) = expected_closure (length old) before →
  exec realtime_cleanup w
  = mkWorld (set_realtime_closure None (view w))
            (old ++ (close <$> live))
            (wire w ++ (Wire.leave <$> expected_topics before))
            (requests w) (toasts w) (navigations w) (console w).
Proof.
  intros Hrt Hlive Hclosure.
  unfold realtime_cleanup, exec, bind, get. simpl. rewrite Hclosure.
  unfold expected_closure, expected_topics, expected_live in *.
  destruct w as [v rt wr rq ts nv cs]. simpl in *. subst rt.
  destruct (id before) as [i|] eqn:Hi; [destruct (truthy i) eqn:Hti |].
  - destruct (currentUserId before) as [u|] eqn:Hu; [destruct (truthy u) eqn:Htu |].
    + destruct live as [|chm [|chp [|? ?]]]; try done.
      injection Hlive as Htm _ _ Htp _ _.
      unfold unsubscribe_if, bind.
      rewrite (close_channel_at _ _ chm) by (simpl; by apply list_lookup_middle).
      cbv beta iota zeta.
      rewrite (close_channel_at _ _ chp)
        by (simpl; rewrite alter_first_live; apply lookup_second_live).
      simpl. rewrite alter_first_live, alter_second_live, <- !app_assoc. simpl.
      by rewrite Htm, Htp.
    + destruct live as [|chm [|? ?]]; try done.
      injection Hlive as Htm _ _.
      unfold unsubscribe_if, bind.
      rewrite (close_channel_at _ _ chm) by (simpl; by apply list_lookup_middle).
      simpl. rewrite alter_first_live. by rewrite Htm.
    + destruct live as [|chm [|? ?]]; try done.
      injection Hlive as Htm _ _.
      unfold unsubscribe_if, bind.
      rewrite (close_channel_at _ _ chm) by (simpl; by apply list_lookup_middle).
      simpl. rewrite alter_first_live. by rewrite Htm.
  - destruct live; [| done]. simpl. rewrite !app_nil_r.
    destruct v. simpl in *. by subst.
  - destruct live; [| done]. simpl. rewrite !app_nil_r.
    destruct v. simpl in *. by subst.
Qed.

Lemma exec_then {A} (m : Eff View A) (k : Eff View unit) w :
  exec (m ;;; k) w = exec k (exec m w).
Proof. unfold exec, bind. by destruct (m w). Qed.

Lemma exec_when b (m : Eff View unit) w :
  exec (when b m) w = if b then exec m w else w.
Proof. by destruct b. Qed.

(** The calls the second and third effects send. *)
Lemma fetch_effects_run w :
  exec fetchMessages_effect (exec fetchEvent_effect w)
  = mkWorld (view w) (realtime w) (wire w)
            (requests w ++ match id (view w) with
                           | Some i =>
                               if truthy i
                               then [Request.getEventById i; Request.getMessagesByEvent i]
                               else []
                           | None => []
                           end)
            (toasts w) (navigations w) (console w).
Proof.
  unfold fetchEvent_effect, fetchMessages_effect, exec, bind, get. simpl.
  destruct w as [v rt wr rq ts nv cs]. simpl.
  destruct (id v) as [i|] eqn:Hi; [destruct (truthy i) eqn:Ht |];
    repeat (simpl; rewrite ?Hi, ?Ht); by rewrite ?app_nil_r, <- ?app_assoc.
Qed.

(** The commit, from a world whose channels are those of the view
    [before] the state change. *)
Lemma commit_run before w old live :
  realtime w = old ++ live →
  outline <$> live = outline <$> expected_live before →
  realtime_closure (view w) = expected_closure (length old) before →
  exec (commit before) w
  = if bool_decide (id before = id (view w)
                    ∧ currentUserId before = currentUserId (view w))
    then w
    else
      mkWorld (set_realtime_closure
                 (expected_closure (length (old ++ live)) (view w)) (view w))
              ((old ++ (close <$> live)) ++ expected_live (view w))
              (wire w ++ (Wire.leave <$> expected_topics before)
                      ++ (Wire.join <$> expected_topics (view w)))
              (requests w ++ if bool_decide (id before = id (view w)) then []
                             else match id (view w) with
                                  | Some i =>
                                      if truthy i
                                      then [Request.getEventById i;
                                            Request.getMessagesByEvent i]
                                      else []
                                  | None => []
                                  end)
              (toasts w) (navigations w) (console w).
Proof.
  intros Hrt Hlive Hclosure.
  pose proof (realtime_cleanup_run before w old live Hrt Hlive Hclosure) as Hcleanup.
  unfold commit. unfold exec at 1, bind at 1, get. cbv beta iota zeta.
  fold (exec (when (bool_decide (id before ≠ id (view w))
                    || bool_decide (currentUserId before ≠ currentUserId (view w)))
                realtime_cleanup;;;
              when (bool_decide (id before ≠ id (view w))) fetchEvent_effect;;;
              when (bool_decide (id before ≠ id (view w))) fetchMessages_effect;;;
              when (bool_decide (id before ≠ id (view w))
                    || bool_decide (currentUserId before ≠ currentUserId (view w)))
                realtime_effect) w).
  rewrite !exec_then, !exec_when.
  destruct (decide (id before = id (view w))) as [Hid | Hid].
  - rewrite (bool_decide_false (id before ≠ id (view w))) by tauto.
    rewrite (bool_decide_true (id before = id (view w))) by done. simpl.
    destruct (decide (currentUserId before = currentUserId (view w))) as [Hu | Hu].
    + rewrite (bool_decide_false (currentUserId before ≠ _)) by tauto.
      by rewrite bool_decide_true.
    + rewrite (bool_decide_true (currentUserId before ≠ _)) by done.
      rewrite bool_decide_false by tauto.
      rewrite Hcleanup, realtime_effect_run. simpl.
      destruct w as [v rt wr rq ts nv cs]. destruct v. simpl in *.
      by rewrite !length_app, length_fmap, app_nil_r, <- !app_assoc.
  - rewrite (bool_decide_true (id before ≠ id (view w))) by done.
    rewrite (bool_decide_false (id before = id (view w))) by done. simpl.
    rewrite bool_decide_false by tauto.
    rewrite Hcleanup.
    rewrite fetch_effects_run, realtime_effect_run. simpl.
    destruct w as [v rt wr rq ts nv cs]. destruct v. simpl in *.
    by rewrite !length_app, length_fmap, <- !app_assoc.
Qed.

Lemma outline_Forall (P : string * bool * list (Binding View) → Prop) c c' :
  outline <$> c' = outline <$> c →
  Forall (fun ch => P (outline ch)) c → Forall (fun ch => P (outline ch)) c'.
Proof.
  intros Heq Hc. revert c' Heq.
  induction Hc as [|ch c Hch _ IH]; intros [|ch' c'] Heq; try done.
  rewrite !fmap_cons in Heq. injection Heq as Ht Hs Hb Hrest.
  constructor; [| by apply IH].
  unfold outline in *. by rewrite Ht, Hs, Hb.
Qed.

Lemma tracks_outline before w w' :
  tracks before w →
  outline <$> realtime w' = outline <$> realtime w →
  realtime_closure (view w') = realtime_closure (view w) →
  tracks before w'.
Proof.
  intros (old & live & Hrt & Hold & Hlive & Hclosure & Hquiet) Heq Hc.
  rewrite Hrt, fmap_app in Heq.
  exists (take (length old) (realtime w')), (drop (length old) (realtime w')).
  assert (outline <$> take (length old) (realtime w') = outline <$> old) as Htake.
  { rewrite fmap_take, Heq.
    rewrite take_app_length' by (by rewrite length_fmap). done. }
  assert (outline <$> drop (length old) (realtime w') = outline <$> live) as Hdrop.
  { rewrite fmap_drop, Heq.
    rewrite drop_app_length' by (by rewrite length_fmap). done. }
  split; [by rewrite take_drop |].
  split.
  { apply (outline_Forall (fun o => o.1.2 = false) old); [done |]. exact Hold. }
  split; [congruence |].
  split.
  { rewrite Hc, Hclosure. f_equal.
    apply (f_equal length) in Htake. by rewrite !length_fmap in Htake. }
  apply (outline_Forall (fun o => Forall quiet o.2) (realtime w)); [| exact Hquiet].
  by rewrite Hrt, fmap_app.
Qed.

Lemma expected_live_quiet v :
  Forall (fun ch => Forall quiet (bindings ch)) (expected_live v).
Proof.
  unfold expected_live.
  destruct (id v) as [i|]; [| constructor]. destruct (truthy i); [| constructor].
  constructor.
  { repeat constructor. simpl. apply onRemoteInsert_NoDup. }
  destruct (currentUserId v) as [u|]; [destruct (truthy u) |]; repeat constructor.
Qed.

Lemma expected_live_dependencies v v' :
  id v = id v' → currentUserId v = currentUserId v' →
  expected_live v = expected_live v' ∧ ∀ n, expected_closure n v = expected_closure n v'.
Proof. unfold expected_live, expected_closure. by intros -> ->. Qed.

(** The commit re-establishes the invariant. *)
Lemma commit_invariant before w :
  tracks before w → invariant (exec (commit before) w).
Proof.
  intros (old & live & Hrt & Hold & Hlive & Hclosure & Hquiet).
  rewrite (commit_run before w old live Hrt Hlive Hclosure).
  case_bool_decide as Hdeps.
  - destruct Hdeps as [Hid Hu].
    destruct (expected_live_dependencies before (view w) Hid Hu) as [Hl Hc].
    exists old, live. rewrite <- Hl, <- Hc. done.
  - exists (old ++ (close <$> live)), (expected_live (view w)). simpl.
    split; [done |].
    split.
    { apply Forall_app. split; [done |].
      apply Forall_fmap. by apply Forall_true. }
    split; [done |].
    split; [by rewrite !length_app, length_fmap |].
    rewrite Hrt in Hquiet. apply Forall_app in Hquiet as [Hqo Hql].
    apply Forall_app. split; [| apply expected_live_quiet].
    apply Forall_app. split; [done |].
    apply Forall_fmap. eapply Forall_impl; [exact Hql | done].
Qed.

Lemma exec_update (m : Eff View unit) w :
  exec (update m) w = exec (commit (view w)) (exec m w).
Proof. unfold update, exec, bind, get. simpl. by destruct (m w). Qed.

Lemma update_invariant (m : Eff View unit) w :
  invariant w →
  realtime (exec m w) = realtime w →
  realtime_closure (view (exec m w)) = realtime_closure (view w) →
  invariant (exec (update m) w).
Proof.
  intros Hinv Hrt Hc. rewrite exec_update. apply commit_invariant.
  apply (tracks_outline _ w); [done | by rewrite Hrt | done].
Qed.

Lemma quiet_bindings_insert (bs : list (Binding View)) new v :
  Forall quiet bs →
  dependencies
    (fold_left (fun v b =>
                  match b with
                  | on_postgres_changes _ _ _ _ callback => callback new v
                  | on_presence _ _ => v
                  end) bs v)
  = dependencies v.
Proof.
  intros Hq. revert v. induction Hq as [|b bs Hb _ IH]; intros v; [done |].
  simpl. rewrite IH. destruct b; [apply Hb | done].
Qed.

Lemma quiet_bindings_insert_distinct (bs : list (Binding View)) new v :
  Forall quiet bs →
  NoDup (MessageStream.ids (messages v)) →
  NoDup (MessageStream.ids
           (messages
              (fold_left (fun v b =>
                            match b with
                            | on_postgres_changes _ _ _ _ callback => callback new v
                            | on_presence _ _ => v
                            end) bs v))).
Proof.
  intros Hq. revert v. induction Hq as [|b bs Hb _ IH]; intros v Hv; [done |].
  simpl. apply IH. destruct b; [by apply Hb | done].
Qed.

Lemma quiet_bindings_presence (bs : list (Binding View)) ev state v :
  Forall quiet bs →
  dependencies
    (fold_left (fun v b =>
                  match b with
                  | on_presence ev' callback =>
                      if same_event ev ev' then callback state v else v
                  | on_postgres_changes _ _ _ _ _ => v
                  end) bs v)
  = dependencies v.
Proof.
  intros Hq. revert v. induction Hq as [|b bs Hb _ IH]; intros v; [done |].
  simpl. rewrite IH. destruct b as [| ev' callback]; [done |].
  destruct (same_event ev ev'); [apply Hb | done].
Qed.

Lemma quiet_bindings_presence_messages (bs : list (Binding View)) ev state v :
  Forall quiet bs →
  messages
    (fold_left (fun v b =>
                  match b with
                  | on_presence ev' callback =>
                      if same_event ev ev' then callback state v else v
                  | on_postgres_changes _ _ _ _ _ => v
                  end) bs v)
  = messages v.
Proof.
  intros Hq. revert v. induction Hq as [|b bs Hb _ IH]; intros v; [done |].
  simpl. rewrite IH. destruct b as [| ev' callback]; [done |].
  destruct (same_event ev ev'); [apply Hb | done].
Qed.

Lemma deliver_invariant h (f : Channel View → View → View) w :
  invariant w →
  (∀ ch v, Forall quiet (bindings ch) → dependencies (f ch v) = dependencies v) →
  invariant (exec (update (deliver h f)) w).
Proof.
  intros Hinv Hf.
  assert (realtime (exec (deliver h f) w) = realtime w
          ∧ dependencies (view (exec (deliver h f) w)) = dependencies (view w))
    as [Hrt Hdeps].
  { unfold deliver, exec. destruct (realtime w !! h) as [ch|] eqn:Hh; [| done].
    simpl. split; [done |]. apply Hf.
    destruct Hinv as (_ & _ & _ & _ & _ & _ & Hquiet).
    rewrite Forall_forall in Hquiet. apply Hquiet.
    by eapply list_elem_of_lookup_2. }
  apply update_invariant; [done | done |].
  unfold dependencies in Hdeps. congruence.
Qed.

Lemma alter_outline (f : Channel View → Channel View) h c :
  (∀ ch, outline (f ch) = outline ch) → outline <$> alter f h c = outline <$> c.
Proof.
  intros Hf. rewrite (list_fmap_alter outline f (fun o => o)).
  - by apply list_alter_id.
  - by apply Forall_true.
Qed.

Lemma on_channel_invariant h (f : Channel View → Channel View) w :
  invariant w →
  (∀ ch, outline (f ch) = outline ch) →
  invariant (exec (on_channel h f) w).
Proof.
  intros Hinv Hf. apply (tracks_outline _ w); [done | | done].
  by apply alter_outline.
Qed.

Lemma step_invariant i w : invariant w → invariant (exec (step i) w).
Proof.
  intros Hinv. destruct i as [param | session | o | o | h new | h status clock
                              | h key entry | h key | h ev | text | | o]; simpl.
  - by apply update_invariant.
  - by apply update_invariant.
  - apply update_invariant; [done | |]; by destruct o as [[data [e|]]|reason].
  - apply update_invariant; [done | |]; by destruct o as [[data [e|]]|reason].
  - apply deliver_invariant; [done |]. intros ch v Hq. by apply quiet_bindings_insert.
  - apply on_channel_invariant; [done |]. intros ch. unfold trigger_status.
    destruct (status_callback ch) as [cb|]; [| done].
    destruct (presence_key ch) as [key|]; [| done].
    by destruct (cb status clock).
  - by apply on_channel_invariant.
  - by apply on_channel_invariant.
  - apply deliver_invariant; [done |]. intros ch v Hq. by apply quiet_bindings_presence.
  - by apply update_invariant.
  - apply update_invariant; [done | |];
      unfold handleSendMessage, exec, bind, get; simpl;
      destruct (negb (truthy (trim (messageText (view w))))
                || negb (truthy_opt (currentUserId (view w)))
                || negb (truthy_opt (id (view w))));
      [destruct (negb (truthy_opt (currentUserId (view w)))) | |
       destruct (negb (truthy_opt (currentUserId (view w)))) |]; done.
  - apply update_invariant; [done | |]; by destruct o as [[data [e|]]|reason].
Qed.

Lemma run_invariant inputs w : invariant w → invariant (exec (run inputs) w).
Proof.
  unfold run, exec at 1. simpl. revert w.
  induction inputs as [|i inputs IH]; intros w Hinv; [done |].
  simpl. apply IH. by apply step_invariant.
Qed.

Lemma mount_invariant param w :
  realtime w = [] → invariant (exec (mount param) w).
Proof.
  intros Hrt. unfold mount. rewrite !exec_then, realtime_effect_run.
  exists [], (expected_live (initial param)).
  assert (view (exec fetchMessages_effect
                 (exec fetchEvent_effect
                    (exec getCurrentUser (exec (modify (fun _ => initial param)) w))))
          = initial param) as Hv by (by rewrite fetch_effects_run).
  assert (realtime (exec fetchMessages_effect
                     (exec fetchEvent_effect
                        (exec getCurrentUser (exec (modify (fun _ => initial param)) w))))
          = []) as Hr by (by rewrite fetch_effects_run).
  rewrite Hv, Hr. simpl.
  repeat split; try done. apply expected_live_quiet.
Qed.

(** Every world the view reaches satisfies the invariant. *)
Lemma reachable_invariant param inputs :
  invariant (exec (mount param ;;; run inputs) nothing).
Proof. rewrite exec_then. apply run_invariant. by apply mount_invariant. Qed.

(** A state change that touches neither the channels nor the dependencies
    triggers no effect. *)
Lemma update_without_effect (m : Eff View unit) w :
  invariant w →
  realtime (exec m w) = realtime w →
  dependencies (view (exec m w)) = dependencies (view w) →
  exec (update m) w = exec m w.
Proof.
  intros Hinv Hrt Hdeps. rewrite exec_update.
  assert (tracks (view w) (exec m w)) as (old & live & Hrt' & _ & Hlive & Hclosure & _).
  { apply (tracks_outline _ w); [done | by rewrite Hrt |].
    unfold dependencies in Hdeps. congruence. }
  rewrite (commit_run _ _ old live Hrt' Hlive Hclosure).
  unfold dependencies in Hdeps. rewrite bool_decide_true; [done |].
  split; congruence.
Qed.

Lemma closed_after_cleanup old live new h (ch : Channel View) :
  Forall (fun ch => subscribed ch = false) old →
  (old ++ live) !! h = Some ch →
  ∃ ch', ((old ++ (close <$> live)) ++ new) !! h = Some ch'
         ∧ subscribed ch' = false ∧ topic ch' = topic ch.
Proof.
  intros Hold Hh.
  assert (h < length (old ++ live)) as Hlt by (by eapply lookup_lt_Some).
  rewrite lookup_app_l by (by rewrite !length_app, length_fmap in *).
  apply lookup_app_Some in Hh as [Hh | [Hge Hh]].
  - exists ch. split; [by apply lookup_app_l_Some |]. split; [| done].
    rewrite Forall_forall in Hold. apply Hold. by eapply list_elem_of_lookup_2.
  - exists (close ch). split; [| done].
    rewrite lookup_app_r by done. by rewrite list_lookup_fmap, Hh.
Qed.

End LifecycleFacts.

(** C4, as the code has it. In every world the view reaches, the
    subscribed channels are exactly those its current event and user call
    for, so a callback that comes through a subscribed channel belongs to
    the displayed event. Moving to another event identifier first leaves
    every channel of the previous run and only then joins the new ones, and
    afterwards every earlier channel is closed; unmounting leaves them all.
    The callback a message channel carries is the unguarded merge: a closed
    channel keeps it, and it looks neither at the channel nor at the event
    of the message. *)
Theorem remount_leaves_before_joining_and_unmount_tears_down
    (param : option string) (inputs : list EventDetail.Input) (param' : option string) :
  let w := exec (EventDetail.mount param ;;; EventDetail.run inputs) EventDetail.nothing in
  let w' := exec (EventDetail.step (EventDetail.ParamChange param')) w in
  EventDetail.open_topics w = Lifecycle.expected_topics (view w)
  ∧ (∀ h ch, realtime w !! h = Some ch → Realtime.subscribed ch = true →
             Realtime.topic ch ∈ Lifecycle.expected_topics (view w))
  ∧ (param' ≠ EventDetail.id (view w) →
     wire w' = wire w ++ (Wire.leave <$> EventDetail.open_topics w)
                      ++ (Wire.join <$> EventDetail.open_topics w')
     ∧ EventDetail.open_topics w'
       = Lifecycle.expected_topics (EventDetail.setId param' (view w))
     ∧ ∀ h ch, realtime w !! h = Some ch →
               ∃ ch', realtime w' !! h = Some ch'
                      ∧ Realtime.subscribed ch' = false
                      ∧ Realtime.topic ch' = Realtime.topic ch)
  ∧ wire (exec EventDetail.unmount w) = wire w ++ (Wire.leave <$> EventDetail.open_topics w)
  ∧ EventDetail.open_topics (exec EventDetail.unmount w) = []
  ∧ (∀ i new v,
       Realtime.trigger_insert
         (Realtime.close (Subscriptions.messages_channel i EventDetail.messageCallback)) new v
       = EventDetail.messageCallback new v
       ∧ EventDetail.messages (EventDetail.messageCallback new v)
         = MessageStream.onRemoteInsert new (EventDetail.messages v)).
Proof.
  intros w w'.
  pose proof (reachable_invariant param inputs) as Hinv. fold w in Hinv.
  pose proof (invariant_open_topics w Hinv) as Hopen.
  split; [exact Hopen |].
  split.
  { intros h ch Hh Hs. rewrite <- Hopen. unfold EventDetail.open_topics.
    apply list_elem_of_fmap_2, list_elem_of_filter.
    split; [done | by eapply list_elem_of_lookup_2]. }
  split.
  { intros Hchange.
    pose proof (step_invariant (EventDetail.ParamChange param') w Hinv) as Hinv'.
    fold w' in Hinv'.
    pose proof (invariant_open_topics w' Hinv') as Hopen'.
    destruct Hinv as (old & live & Hrt & Hold & Hlive & Hclosure & _).
    assert (w' = _) as Hw'
        by exact (commit_run (view w) (exec (modify (EventDetail.setId param')) w)
                             old live Hrt Hlive Hclosure).
    rewrite bool_decide_false in Hw'; [| simpl; intros [Hid _]; by destruct (view w)].
    rewrite Hopen, Hopen'. rewrite Hw'. simpl. split; [done |]. split; [done |].
    intros h ch Hh. rewrite Hrt in Hh. by apply closed_after_cleanup. }
  destruct Hinv as (old & live & Hrt & Hold & Hlive & Hclosure & _).
  unfold EventDetail.unmount.
  rewrite (realtime_cleanup_run (view w) w old live Hrt Hlive Hclosure). simpl.
  split; [by rewrite Hopen |].
  split; [| done].
  unfold EventDetail.open_topics. simpl. rewrite filter_app.
  rewrite (open_topics_closed old Hold). simpl.
  rewrite open_topics_closed; [done |].
  apply Forall_fmap. by apply Forall_true.
Qed.

Lemma remount_leaves_before_joining_and_unmount_tears_down_witness :
  Some "e2" ≠ EventDetail.id (view Sample.chat_world)
  ∧ EventDetail.open_topics Sample.chat_world = ["messages:e1"; "presence:e1"]
  ∧ wire (exec (EventDetail.step (EventDetail.ParamChange (Some "e2"))) Sample.chat_world)
    = wire Sample.chat_world
      ++ [Wire.leave "messages:e1"; Wire.leave "presence:e1";
          Wire.join "messages:e2"; Wire.join "presence:e2"]
  ∧ EventDetail.open_topics (exec EventDetail.unmount Sample.chat_world) = [].
Proof.
  destruct (remount_leaves_before_joining_and_unmount_tears_down
              (Some "e1")
              [EventDetail.SessionResolved (Some (EventDetail.mkSession "u1" None));
               EventDetail.MessagesFetched
                 (Js.Resolved (Store.ok [Sample.message "m1" "e1" 10]));
               EventDetail.Typed "  hello "]
              (Some "e2"))
    as (Hopen & _ & Hmove & _ & Hunmount & _).
  match type of Hmove with
  | ?P → _ => assert P as Hne by (vm_compute; discriminate)
  end.
  destruct (Hmove Hne) as (Hwire & _).
  vm_compute in Hopen, Hwire, Hunmount.
  split; [vm_compute; discriminate |].
  split; [vm_compute; exact Hopen |].
  split; [vm_compute; exact Hwire | vm_compute; exact Hunmount].
Defined.

(** The specification also asks that a stale callback never change what is
    displayed. After the move from e1 to e2, channel 1 (the messages of
    e1) is closed; an insert still delivered through it lands in the
    sequence shown for e2. *)
Lemma stale_insert_reaches_displayed_messages :
  Realtime.subscribed <$> realtime Sample.moved_world !! 1 = Some false
  ∧ Realtime.topic <$> realtime Sample.moved_world !! 1 = Some "messages:e1"
  ∧ EventDetail.id (view Sample.moved_world) = Some "e2"
  ∧ EventDetail.messages (view Sample.moved_world) = []
  ∧ EventDetail.messages
      (view (exec (EventDetail.step (EventDetail.Inserted 1 (Sample.message "m2" "e1" 20)))
                  Sample.moved_world))
    = [Sample.message "m2" "e1" 20].
Proof. vm_compute. repeat split. Qed.

(** C2, as the code has it. In every world the view reaches, a failed
    initial fetch raises one error notification, carrying the error's
    message or the default text, and changes neither the message sequence
    nor any channel: the message subscription, which the mount opens on its
    own whatever the fetch does, stays subscribed. *)
Theorem failed_initial_fetch_is_reported_and_subscription_stays
    (param : option string) (inputs : list EventDetail.Input)
    (e : Store.PostgrestError) (data : option (list ChatMessage.t)) :
  let w := exec (EventDetail.mount param ;;; EventDetail.run inputs) EventDetail.nothing in
  let w' := exec (EventDetail.step
                    (EventDetail.MessagesFetched
                       (Js.Resolved (Store.mkResponse data (Some e))))) w in
  toasts w' = toasts w ++ [Toast.error (Js.or_else (Store.message e)
                                                   "Error al cargar mensajes")]
  ∧ EventDetail.messages (view w') = EventDetail.messages (view w)
  ∧ realtime w' = realtime w
  ∧ wire w' = wire w
  ∧ EventDetail.open_topics w' = Lifecycle.expected_topics (view w)
  ∧ (∀ i, EventDetail.id (view w) = Some i → i ≠ "" →
          "messages:" +:+ i ∈ EventDetail.open_topics w')
  ∧ (∀ i, i ≠ "" →
          wire (exec (EventDetail.mount (Some i)) EventDetail.nothing)
          = [Wire.join ("messages:" +:+ i)]
          ∧ requests (exec (EventDetail.mount (Some i)) EventDetail.nothing)
            = [Request.auth_getSession; Request.getEventById i;
               Request.getMessagesByEvent i]).
Proof.
  intros w w'.
  pose proof (reachable_invariant param inputs) as Hinv. fold w in Hinv.
  assert (w' = exec (EventDetail.fetchMessages_resume
                       (Js.Resolved (Store.mkResponse data (Some e)))) w) as Hw'
      by (by apply update_without_effect).
  pose proof (invariant_open_topics w Hinv) as Hopen.
  assert (EventDetail.open_topics w' = EventDetail.open_topics w) as Hsame
      by (by rewrite Hw').
  rewrite Hsame, Hopen, Hw'. simpl.
  do 5 (split; [done |]).
  split.
  - intros i Hi Hne. unfold Lifecycle.expected_topics, Lifecycle.expected_live.
    rewrite Hi. apply truthy_iff in Hne. rewrite Hne. rewrite fmap_cons. by left.
  - intros i Hne. apply truthy_iff in Hne.
    unfold EventDetail.mount.
    rewrite !exec_then, realtime_effect_run, fetch_effects_run.
    unfold Lifecycle.expected_topics, Lifecycle.expected_live.
    cbn [view wire requests realtime exec modify EventDetail.getCurrentUser send snd
         EventDetail.initial EventDetail.id EventDetail.currentUserId EventDetail.nothing].
    rewrite Hne. by cbn.
Qed.

Lemma failed_initial_fetch_is_reported_and_subscription_stays_witness :
  EventDetail.id (view (exec (EventDetail.mount (Some "e1")) EventDetail.nothing))
  = Some "e1"
  ∧ "e1" ≠ ""
  ∧ toasts Sample.failed_fetch_world = [Toast.error "Failed to fetch"]
  ∧ "messages:e1" ∈ EventDetail.open_topics Sample.failed_fetch_world.
Proof.
  assert ("e1" ≠ "") as Hne by discriminate.
  destruct (failed_initial_fetch_is_reported_and_subscription_stays
              (Some "e1") [] Sample.unreachable None)
    as (Htoast & _ & _ & _ & _ & Hopen & _).
  specialize (Hopen "e1").
  match type of Hopen with
  | ?P → _ => assert P as Hid by (vm_compute; reflexivity)
  end.
  specialize (Hopen Hid Hne).
  vm_compute in Htoast, Hopen.
  split; [vm_compute; reflexivity |]. split; [exact Hne |].
  split; [vm_compute; exact Htoast | vm_compute; exact Hopen].
Defined.

(** The specification asks that no subscription be opened when the initial
    fetch fails: here the fetch for e1 has failed and been reported,
    and the channel of e1's messages is joined and subscribed. *)
Lemma failed_initial_fetch_leaves_subscription_open :
  requests Sample.failed_fetch_world
  = [Request.auth_getSession; Request.getEventById "e1"; Request.getMessagesByEvent "e1"]
  ∧ toasts Sample.failed_fetch_world = [Toast.error "Failed to fetch"]
  ∧ wire Sample.failed_fetch_world = [Wire.join "messages:e1"]
  ∧ EventDetail.open_topics Sample.failed_fetch_world = ["messages:e1"]
  ∧ EventDetail.open_topics Sample.failed_fetch_world ≠ [].
Proof. vm_compute. repeat split. discriminate. Qed.

(** ** The message sequence of the view *)

Section DisplayedMessages.
Import Js Realtime EventDetail Lifecycle.

Lemma realtime_cleanup_messages (w : World View) :
  messages (view (exec realtime_cleanup w)) = messages (view w).
Proof.
  unfold realtime_cleanup, exec, bind, get. simpl.
  by destruct (realtime_closure (view w)) as [[[hm|] [hp|]]|].
Qed.

(** The commit never touches the messages. *)
Lemma commit_messages before (w : World View) :
  messages (view (exec (commit before) w)) = messages (view w).
Proof.
  unfold commit. unfold exec at 1, bind at 1, get. cbv beta iota zeta.
  fold (exec (when (bool_decide (id before ≠ id (view w))
                    || bool_decide (currentUserId before ≠ currentUserId (view w)))
                realtime_cleanup;;;
              when (bool_decide (id before ≠ id (view w))) fetchEvent_effect;;;
              when (bool_decide (id before ≠ id (view w))) fetchMessages_effect;;;
              when (bool_decide (id before ≠ id (view w))
                    || bool_decide (currentUserId before ≠ currentUserId (view w)))
                realtime_effect) w).
  rewrite !exec_then, !exec_when.
  destruct (bool_decide (id before ≠ id (view w)));
    destruct (bool_decide (currentUserId before ≠ currentUserId (view w))); simpl;
    rewrite ?realtime_effect_run, ?fetch_effects_run; simpl;
    by rewrite ?realtime_cleanup_messages.
Qed.

Lemma update_messages (m : Eff View unit) (w : World View) :
  messages (view (exec (update m) w)) = messages (view (exec m w)).
Proof. rewrite exec_update. apply commit_messages. Qed.

Lemma step_distinct i (w : World View) :
  invariant w →
  distinct_batch i →
  NoDup (MessageStream.ids (messages (view w))) →
  NoDup (MessageStream.ids (messages (view (exec (step i) w)))).
Proof.
  intros Hinv Hbatch Hw.
  destruct i as [param | session | o | o | h new | h status clock
                 | h key entry | h key | h ev | text | | o]; simpl;
    rewrite ?update_messages; try done.
  - by destruct o as [[data [e|]]|reason].
  - destruct o as [[data [e|]]|reason]; try done. simpl.
    destruct data as [rows|]; [by apply Hbatch | constructor].
  - unfold deliver, exec. destruct (realtime w !! h) as [ch|] eqn:Hh; [| done].
    simpl. apply quiet_bindings_insert_distinct; [| done].
    destruct Hinv as (_ & _ & _ & _ & _ & _ & Hquiet).
    rewrite Forall_forall in Hquiet. apply Hquiet. by eapply list_elem_of_lookup_2.
  - unfold deliver, exec. destruct (realtime w !! h) as [ch|] eqn:Hh; [| done].
    simpl. unfold trigger_presence.
    rewrite quiet_bindings_presence_messages; [done |].
    destruct Hinv as (_ & _ & _ & _ & _ & _ & Hquiet).
    rewrite Forall_forall in Hquiet. apply Hquiet. by eapply list_elem_of_lookup_2.
  - unfold handleSendMessage, exec, bind, get. simpl.
    destruct (negb (truthy (trim (messageText (view w))))
              || negb (truthy_opt (currentUserId (view w)))
              || negb (truthy_opt (id (view w))));
      [destruct (negb (truthy_opt (currentUserId (view w)))) |]; done.
  - by destruct o as [[data [e|]]|reason].
Qed.

Lemma run_distinct inputs (w : World View) :
  invariant w →
  Forall distinct_batch inputs →
  NoDup (MessageStream.ids (messages (view w))) →
  NoDup (MessageStream.ids (messages (view (exec (run inputs) w)))).
Proof.
  intros Hinv Hbatches. revert w Hinv.
  unfold run, exec at 2. simpl.
  induction Hbatches as [|i inputs Hi _ IH]; intros w Hinv Hw; [done |].
  simpl. apply IH; [by apply step_invariant | by apply step_distinct].
Qed.

(** In every world the view reaches, the displayed messages have distinct
    identifiers, provided the fetched batches had. *)
Lemma reachable_distinct param inputs :
  Forall distinct_batch inputs →
  NoDup (MessageStream.ids
           (messages (view (exec (mount param ;;; run inputs) nothing)))).
Proof.
  intros Hbatches. rewrite exec_then.
  apply run_distinct; [by apply mount_invariant | done |].
  unfold mount. rewrite !exec_then, realtime_effect_run, fetch_effects_run. simpl.
  constructor.
Qed.

End DisplayedMessages.

(** C1. Whatever the remote-insert deliveries are, duplicates included, the
    local sequence holds at most one entry per identifier (and exactly one
    for each delivered identifier); a delivered message goes to the tail
    exactly when no entry carries its identifier, and is dropped otherwise;
    the result is the local sequence followed by the first arrival of each
    new identifier, in arrival order. The view's callback applies this merge
    to its [messages], and the initial batch it starts from has distinct
    identifiers as long as the table keeps its primary key: in every world
    the view then reaches, no two displayed messages share an identifier. *)
Theorem message_stream_unique_in_arrival_order (local ds : list ChatMessage.t) :
  NoDup (MessageStream.ids local) →
  let merged := MessageStream.deliveries ds local in
  (∀ i, (MessageStream.entries_with_id i merged ≤ 1)%nat)
  ∧ (∀ m, m ∈ ds → MessageStream.entries_with_id (ChatMessage.id m) merged = 1%nat)
  ∧ (∀ m prev,
        MessageStream.onRemoteInsert m prev
        = if bool_decide (ChatMessage.id m ∈ MessageStream.ids prev)
          then prev else prev ++ [m])
  ∧ merged = local ++ MessageStream.first_seen (MessageStream.ids local) ds
  ∧ (∀ m v, EventDetail.messages (EventDetail.messageCallback m v)
            = MessageStream.onRemoteInsert m (EventDetail.messages v))
  ∧ (∀ env eventId db rows,
       Store.well_formed db →
       (Messages.getMessagesByEvent env eventId db).1 = Store.ok rows →
       NoDup (MessageStream.ids rows))
  ∧ (∀ param inputs,
       Forall Lifecycle.distinct_batch inputs →
       NoDup (MessageStream.ids
                (EventDetail.messages
                   (view (exec (EventDetail.mount param ;;; EventDetail.run inputs)
                               EventDetail.nothing))))).
Proof.
  intros Hlocal merged.
  assert (NoDup (MessageStream.ids merged)) as Hnd by by apply deliveries_NoDup.
  split; [intros i; by apply entries_with_id_NoDup |].
  split.
  { intros m Hm.
    pose proof (entries_with_id_NoDup (ChatMessage.id m) merged Hnd) as Hle.
    enough (1 ≤ MessageStream.entries_with_id (ChatMessage.id m) merged)%nat by lia.
    apply entries_with_id_present. subst merged.
    rewrite deliveries_first_seen. unfold MessageStream.ids at 1.
    rewrite fmap_app, elem_of_app.
    by apply first_seen_covers. }
  split; [intros m prev; apply onRemoteInsert_cases |].
  split; [apply deliveries_first_seen |].
  split; [done |].
  split; [apply getMessagesByEvent_unique_ids | apply reachable_distinct].
Qed.

Lemma message_stream_unique_in_arrival_order_witness :
  NoDup (MessageStream.ids [Sample.message "m1" "e1" 10])
  ∧ MessageStream.deliveries
      [Sample.message "m2" "e1" 20; Sample.message "m1" "e1" 30; Sample.message "m2" "e1" 40;
       Sample.message "m3" "e1" 15]
      [Sample.message "m1" "e1" 10]
    = [Sample.message "m1" "e1" 10; Sample.message "m2" "e1" 20; Sample.message "m3" "e1" 15].
Proof.
  split.
  - apply NoDup_singleton.
  - pose proof (message_stream_unique_in_arrival_order
                  [Sample.message "m1" "e1" 10]
                  [Sample.message "m2" "e1" 20; Sample.message "m1" "e1" 30;
                   Sample.message "m2" "e1" 40; Sample.message "m3" "e1" 15]
                  (NoDup_singleton _)) as (_ & _ & _ & Hmerged & _).
    rewrite Hmerged. reflexivity.
Defined.

(** * Further properties *)

(** ** The repositories on the store *)

Section RepositoryFacts.
Import Store.


Lemma filter_none {A} (P : A → Prop) `{∀ x, Decision (P x)} (l : list A) :
  (∀ x, x ∈ l → ¬ P x) → filter P l = [].
Proof.
  induction l as [|x l IH]; intros Hnone; [done |].
  rewrite filter_cons_False by (apply Hnone; by left).
  apply IH. intros y Hy. apply Hnone. by right.
Qed.

Lemma filter_ids_NoDup {A} (f : A → string) (P : A → Prop) `{∀ x, Decision (P x)}
    (l : list A) :
  NoDup (f <$> l) → NoDup (f <$> filter P l).
Proof.
  intros Hl. eapply sublist_NoDup; [exact Hl |]. apply fmap_sublist, sublist_filter.
Qed.

Lemma createMessage_outcome env input db :
  Messages.createMessage env input db
  = match fault env with
    | Some e => (failed e, db)
    | None =>
        if bool_decide (uuid env ∈ message_ids db) then (failed unique_violation, db)
        else if bool_decide (CreateMessageInput.event_id input ∈ event_ids db
                             ∧ CreateMessageInput.user_id input ∈ auth_users db)
        then (ok (Messages.inserted_row env input),
              mkDatabase (events db) (chat_messages db ++ [Messages.inserted_row env input])
                         (auth_users db))
        else (failed foreign_key_violation, db)
    end.
Proof. reflexivity. Qed.

Lemma createMessage_stored env input db :
  error (Messages.createMessage env input db).1 = None →
  (uuid env ∉ message_ids db)
  ∧ (Messages.createMessage env input db).2
    = mkDatabase (events db) (chat_messages db ++ [Messages.inserted_row env input])
                 (auth_users db).
Proof.
  rewrite createMessage_outcome. destruct (fault env); [done |].
  case_bool_decide as Hid; [done |]. by case_bool_decide.
Qed.

End RepositoryFacts.

(** X1. [createMessage] stores a row only when the platform serves the
    request, the generated identifier is new, and both the event and the
    user the input names exist; the row then carries the input's three
    fields, the generated identifier and the insert time, and goes to the
    end of the table. In every other case the answer is an error and the
    tables are as before. *)
Theorem createMessage_requires_event_and_user
    (env : Store.Env) (input : CreateMessageInput.t) (db : Store.Database) :
  let r := (Messages.createMessage env input db).1 in
  let db' := (Messages.createMessage env input db).2 in
  (Store.error r = None
   ↔ Store.fault env = None
     ∧ (Store.uuid env ∉ Store.message_ids db)
     ∧ CreateMessageInput.event_id input ∈ Store.event_ids db
     ∧ CreateMessageInput.user_id input ∈ Store.auth_users db)
  ∧ (Store.error r ≠ None → Store.data r = None ∧ db' = db)
  ∧ (Store.error r = None →
     Store.data r
     = Some (ChatMessage.mk (Store.uuid env) (CreateMessageInput.event_id input)
                            (CreateMessageInput.user_id input)
                            (CreateMessageInput.content input) (Store.now env))
     ∧ Store.chat_messages db'
       = Store.chat_messages db
         ++ [ChatMessage.mk (Store.uuid env) (CreateMessageInput.event_id input)
                            (CreateMessageInput.user_id input)
                            (CreateMessageInput.content input) (Store.now env)]
     ∧ Store.events db' = Store.events db
     ∧ Store.auth_users db' = Store.auth_users db).
Proof.
  intros r db'. subst r db'. rewrite createMessage_outcome.
  destruct (Store.fault env) as [e|]; simpl.
  { split; [split; [done | by intros [? _]] |]. split; [done | done]. }
  case_bool_decide as Hid; simpl.
  { split; [split; [done | by intros (_ & ? & _)] |]. split; [done | done]. }
  case_bool_decide as Hfk; simpl.
  - destruct Hfk as [He Hu]. split; [split; [done | done] |]. split; [done | done].
  - split; [split; [done | intros (_ & _ & He & Hu); by destruct Hfk] |].
    split; [done | done].
Qed.

Lemma createMessage_requires_event_and_user_witness :
  Store.fault (Store.mkEnv None "m9" 100) = None
  ∧ (Store.uuid (Store.mkEnv None "m9" 100) ∉ Store.message_ids Sample.database)
  ∧ Store.error (Messages.createMessage (Store.mkEnv None "m9" 100)
                   (CreateMessageInput.mk "e1" "u1" "hello") Sample.database).1 = None
  ∧ Store.error (Messages.createMessage (Store.mkEnv None "m9" 100)
                   (CreateMessageInput.mk "e7" "u1" "hello") Sample.database).1
    = Some Store.foreign_key_violation
  ∧ (Messages.createMessage (Store.mkEnv None "m9" 100)
       (CreateMessageInput.mk "e7" "u1" "hello") Sample.database).2 = Sample.database.
Proof.
  assert (Store.uuid (Store.mkEnv None "m9" 100) ∉ Store.message_ids Sample.database)
    as Hfresh.
  { intros Hin. vm_compute in Hin.
    repeat (apply elem_of_cons in Hin as [Hin | Hin]; [discriminate |]).
    by apply elem_of_nil in Hin. }
  assert ("e1" ∈ Store.event_ids Sample.database) as Hevent by (by left).
  assert ("u1" ∈ Store.auth_users Sample.database) as Huser by (by left).
  destruct (createMessage_requires_event_and_user (Store.mkEnv None "m9" 100)
              (CreateMessageInput.mk "e1" "u1" "hello") Sample.database)
    as ([_ Hserved] & _ & _).
  destruct (createMessage_requires_event_and_user (Store.mkEnv None "m9" 100)
              (CreateMessageInput.mk "e7" "u1" "hello") Sample.database)
    as (_ & Hrefused & _).
  split; [reflexivity |]. split; [exact Hfresh |].
  split; [exact (Hserved (conj eq_refl (conj Hfresh (conj Hevent Huser)))) |].
  split; [reflexivity |].
  apply Hrefused. vm_compute. discriminate.
Defined.

Section SchemaFacts.
Import Store.

Lemma createEvent_well_formed env input db :
  well_formed db → well_formed (Events.createEvent env input db).2.
Proof.
  intros (Hev & Hms & Hfk). unfold Events.createEvent.
  destruct (fault env); [done |]. case_bool_decide as Hid; [done |]. simpl.
  split; [| split; [done |]].
  - unfold event_ids. simpl. rewrite fmap_app. apply NoDup_app.
    split; [done |]. split; [| apply NoDup_singleton].
    intros i Hi Hin. apply list_elem_of_singleton in Hin. simpl in Hin. by subst.
  - intros m Hm. destruct (Hfk m Hm) as [He Hu]. split; [| done].
    unfold event_ids. simpl. rewrite fmap_app, elem_of_app. by left.
Qed.

Lemma updateEvent_ids env id input db :
  event_ids (Events.updateEvent env id input db).2 = event_ids db.
Proof.
  unfold Events.updateEvent. destruct (fault env); [done |]. unfold event_ids. simpl.
  change (map ?f ?l) with (f <$> l). rewrite <- list_fmap_compose.
  apply list_fmap_ext. intros k ev _. simpl. by case_bool_decide.
Qed.

Lemma updateEvent_well_formed env id input db :
  well_formed db → well_formed (Events.updateEvent env id input db).2.
Proof.
  intros (Hev & Hms & Hfk). unfold well_formed. rewrite updateEvent_ids.
  assert (chat_messages (Events.updateEvent env id input db).2 = chat_messages db
          ∧ auth_users (Events.updateEvent env id input db).2 = auth_users db)
    as [Hm Hu] by (unfold Events.updateEvent; by destruct (fault env)).
  unfold message_ids. by rewrite Hm, Hu.
Qed.

Lemma deleteEvent_well_formed env id db :
  well_formed db → well_formed (Events.deleteEvent env id db).2.
Proof.
  intros (Hev & Hms & Hfk). unfold Events.deleteEvent.
  destruct (fault env); [done |]. simpl.
  split; [by apply filter_ids_NoDup |]. split; [by apply filter_ids_NoDup |].
  simpl. intros m [Hne Hin]%list_elem_of_filter.
  destruct (Hfk m Hin) as [Hevent Huser]. split; [| done].
  apply list_elem_of_fmap in Hevent as (ev & Hid & Hevin).
  apply list_elem_of_fmap. exists ev. split; [done |].
  apply list_elem_of_filter. split; [congruence | done].
Qed.

Lemma createMessage_well_formed env input db :
  well_formed db → well_formed (Messages.createMessage env input db).2.
Proof.
  intros (Hev & Hms & Hfk). rewrite createMessage_outcome.
  destruct (fault env); [done |]. case_bool_decide as Hid; [done |].
  case_bool_decide as Hrefs; [| done]. simpl.
  split; [done |]. split.
  - unfold message_ids. simpl. rewrite fmap_app. apply NoDup_app.
    split; [done |]. split; [| apply NoDup_singleton].
    intros i Hi Hin. apply list_elem_of_singleton in Hin. simpl in Hin. by subst.
  - simpl. intros m [Hm | Hm]%elem_of_app; [by apply Hfk |].
    apply list_elem_of_singleton in Hm. by subst.
Qed.

Lemma deleteMessage_well_formed env id db :
  well_formed db → well_formed (Messages.deleteMessage env id db).2.
Proof.
  intros (Hev & Hms & Hfk). unfold Messages.deleteMessage.
  destruct (fault env); [done |]. simpl.
  split; [done |]. split; [by apply filter_ids_NoDup |].
  simpl. intros m [_ Hin]%list_elem_of_filter. by apply Hfk.
Qed.

End SchemaFacts.

(** X2. The keys of the schema survive every write of the two
    repositories, served or not: after [createEvent], [updateEvent],
    [deleteEvent], [createMessage] or [deleteMessage], event identifiers
    and message identifiers are still unique and every message still
    references an existing event and an existing user. *)
Theorem repository_writes_keep_the_keys (env : Store.Env) (db : Store.Database) :
  Store.well_formed db →
  (∀ input, Store.well_formed (Events.createEvent env input db).2)
  ∧ (∀ id input, Store.well_formed (Events.updateEvent env id input db).2)
  ∧ (∀ id, Store.well_formed (Events.deleteEvent env id db).2)
  ∧ (∀ input, Store.well_formed (Messages.createMessage env input db).2)
  ∧ (∀ id, Store.well_formed (Messages.deleteMessage env id db).2).
Proof.
  intros Hwf.
  split; [intros input; by apply createEvent_well_formed |].
  split; [intros id input; by apply updateEvent_well_formed |].
  split; [intros id; by apply deleteEvent_well_formed |].
  split; [intros input; by apply createMessage_well_formed |].
  intros id; by apply deleteMessage_well_formed.
Qed.

Lemma sample_database_well_formed : Store.well_formed Sample.database.
Proof.
  split; [| split].
  - apply (bool_decide_unpack _). by vm_compute.
  - apply (bool_decide_unpack _). by vm_compute.
  - intros m Hm. simpl in Hm.
    repeat (apply elem_of_cons in Hm as [-> | Hm]); [| | | by apply elem_of_nil in Hm];
      split; apply (bool_decide_unpack _); by vm_compute.
Qed.

Lemma repository_writes_keep_the_keys_witness :
  Store.well_formed Sample.database
  ∧ Store.well_formed
      (Messages.createMessage (Store.mkEnv None "m9" 100)
         (CreateMessageInput.mk "e1" "u1" "hello") Sample.database).2
  ∧ Store.well_formed (Events.deleteEvent Sample.served "e1" Sample.database).2.
Proof.
  destruct (repository_writes_keep_the_keys (Store.mkEnv None "m9" 100) Sample.database
              sample_database_well_formed) as (_ & _ & _ & Hcreate & _).
  destruct (repository_writes_keep_the_keys Sample.served Sample.database
              sample_database_well_formed) as (_ & _ & Hdelete & _).
  split; [exact sample_database_well_formed |].
  split; [apply Hcreate | apply Hdelete].
Defined.

(** X3. Insert then fetch: once [createMessage] has stored a row, the
    messages fetched for its event are those fetched before together with
    the new row, still in ascending order of creation time, and the new
    identifier occurs in them exactly once; what is fetched for any other
    event is what it was. *)
Theorem createMessage_then_getMessagesByEvent
    (env env' : Store.Env) (input : CreateMessageInput.t) (db : Store.Database) :
  Store.error (Messages.createMessage env input db).1 = None →
  Store.fault env' = None →
  let db' := (Messages.createMessage env input db).2 in
  let row := Messages.inserted_row env input in
  ∃ before after,
    (Messages.getMessagesByEvent env' (CreateMessageInput.event_id input) db).1
    = Store.ok before
    ∧ (Messages.getMessagesByEvent env' (CreateMessageInput.event_id input) db').1
      = Store.ok after
    ∧ after ≡ₚ before ++ [row]
    ∧ StronglySorted (fun a b => (ChatMessage.created_at a <= ChatMessage.created_at b)%Z)
                     after
    ∧ MessageStream.entries_with_id (Store.uuid env) after = 1%nat
    ∧ ∀ other, other ≠ CreateMessageInput.event_id input →
               (Messages.getMessagesByEvent env' other db').1
               = (Messages.getMessagesByEvent env' other db).1.
Proof.
  intros Hok Hserved db' row.
  destruct (createMessage_stored env input db Hok) as [Hfresh Hdb'].
  assert (Store.chat_messages db' = Store.chat_messages db ++ [row]) as Hrows
      by (subst db'; by rewrite Hdb').
  exists (Store.order_by_created_at
            (Store.eq_event_id (CreateMessageInput.event_id input) (Store.chat_messages db))),
         (Store.order_by_created_at
            (Store.eq_event_id (CreateMessageInput.event_id input) (Store.chat_messages db'))).
  rewrite !getMessagesByEvent_rows by done. simpl.
  split; [done |]. split; [done |].
  assert (Store.eq_event_id (CreateMessageInput.event_id input) (Store.chat_messages db')
          = Store.eq_event_id (CreateMessageInput.event_id input) (Store.chat_messages db)
            ++ [row]) as Hfilter.
  { rewrite Hrows. unfold Store.eq_event_id. rewrite filter_app.
    by rewrite (filter_cons_True _ _ []). }
  split.
  { rewrite !(order_by_created_at_perm _). by rewrite Hfilter. }
  split; [apply order_by_created_at_sorted |].
  split.
  { unfold MessageStream.entries_with_id.
    rewrite (order_by_created_at_perm _), Hfilter, filter_app, length_app.
    rewrite (filter_cons_True _ _ []) by done. simpl.
    assert (filter (fun m => ChatMessage.id m = Store.uuid env)
                   (Store.eq_event_id (CreateMessageInput.event_id input)
                                      (Store.chat_messages db)) = []) as ->; [| done].
    apply filter_none. intros m [_ Hm]%list_elem_of_filter Hid.
    apply Hfresh. rewrite <- Hid. by apply list_elem_of_fmap_2. }
  intros other Hother. rewrite !getMessagesByEvent_rows by done. simpl.
  rewrite Hrows. unfold Store.eq_event_id. rewrite filter_app.
  rewrite (filter_cons_False _ _ []) by (simpl; congruence).
  by rewrite app_nil_r.
Qed.

Lemma createMessage_then_getMessagesByEvent_witness :
  Store.error (Messages.createMessage (Store.mkEnv None "m9" 100)
                 (CreateMessageInput.mk "e1" "u1" "hello") Sample.database).1 = None
  ∧ Store.fault Sample.served = None
  ∧ (Messages.getMessagesByEvent Sample.served "e1"
       (Messages.createMessage (Store.mkEnv None "m9" 100)
          (CreateMessageInput.mk "e1" "u1" "hello") Sample.database).2).1
    = Store.ok [Sample.message "m1" "e1" 10; Sample.message "m2" "e1" 20;
                ChatMessage.mk "m9" "e1" "u1" "hello" 100]
  ∧ (Messages.getMessagesByEvent Sample.served "e2"
       (Messages.createMessage (Store.mkEnv None "m9" 100)
          (CreateMessageInput.mk "e1" "u1" "hello") Sample.database).2).1
    = (Messages.getMessagesByEvent Sample.served "e2" Sample.database).1.
Proof.
  destruct (createMessage_then_getMessagesByEvent (Store.mkEnv None "m9" 100) Sample.served
              (CreateMessageInput.mk "e1" "u1" "hello") Sample.database eq_refl eq_refl)
    as (before & after & _ & _ & _ & _ & _ & Hother).
  split; [reflexivity |]. split; [reflexivity |]. split; [reflexivity |].
  apply Hother. discriminate.
Defined.

Section LookupFacts.
Import Store.

Lemma filter_key_unique {A} (f : A → string) (l : list A) (x : A) :
  NoDup (f <$> l) → x ∈ l → filter (fun y => f y = f x) l = [x].
Proof.
  induction l as [|y l IH]; intros Hnd Hx; [by apply elem_of_nil in Hx |].
  rewrite fmap_cons in Hnd. apply NoDup_cons in Hnd as [Hy Hnd].
  apply elem_of_cons in Hx as [-> | Hx].
  - rewrite filter_cons_True by done. f_equal.
    apply filter_none. intros z Hz Heq. apply Hy. rewrite <- Heq.
    by apply list_elem_of_fmap_2.
  - rewrite filter_cons_False; [by apply IH |].
    intros Heq. apply Hy. rewrite Heq. by apply list_elem_of_fmap_2.
Qed.

Lemma filter_key_absent {A} (f : A → string) (l : list A) (k : string) :
  k ∉ f <$> l → filter (fun y => f y = k) l = [].
Proof.
  intros Hk. apply filter_none. intros y Hy Heq. apply Hk. rewrite <- Heq.
  by apply list_elem_of_fmap_2.
Qed.

Lemma getEventById_found env db ev :
  fault env = None → NoDup (event_ids db) → ev ∈ events db →
  Events.getEventById env (Event.id ev) db = (ok ev, db).
Proof.
  intros Hf Hnd Hev. unfold Events.getEventById. rewrite Hf.
  by rewrite (filter_key_unique Event.id).
Qed.

Lemma getEventById_missing env db id :
  fault env = None → id ∉ event_ids db →
  Events.getEventById env id db = (failed no_single_row, db).
Proof.
  intros Hf Hid. unfold Events.getEventById. rewrite Hf.
  by rewrite (filter_key_absent Event.id).
Qed.

End LookupFacts.

(** X4. Lookup by identifier: in a table that keeps its primary key,
    [getEventById] answers with the event that carries the identifier, and
    with the "no single row" error (PGRST116) and no data when no event
    does; the tables are not touched. In particular the record
    [createEvent] has just stored is found under the identifier the
    platform gave it, and an event that [deleteEvent] removed is no longer
    found. *)
Theorem getEventById_finds_exactly_the_event
    (env : Store.Env) (db : Store.Database) :
  Store.fault env = None →
  Store.well_formed db →
  (∀ ev, ev ∈ Store.events db →
         Events.getEventById env (Event.id ev) db = (Store.ok ev, db))
  ∧ (∀ id, id ∉ Store.event_ids db →
           Events.getEventById env id db = (Store.failed Store.no_single_row, db))
  ∧ (∀ env0 input,
       Store.fault env0 = None → Store.uuid env0 ∉ Store.event_ids db →
       (Events.getEventById env (Store.uuid env0) (Events.createEvent env0 input db).2).1
       = Store.ok (Event.mk (Store.uuid env0) (CreateEventInput.title input)
                            (CreateEventInput.description input)
                            (CreateEventInput.date input)
                            (CreateEventInput.location input)
                            (Store.now env0) (Store.now env0)))
  ∧ (∀ env0 id,
       Store.fault env0 = None →
       (Events.getEventById env id (Events.deleteEvent env0 id db).2).1
       = Store.failed Store.no_single_row).
Proof.
  intros Hf Hwf. pose proof Hwf as (Hnd & _ & _).
  split; [intros ev Hev; by apply getEventById_found |].
  split; [intros id Hid; by apply getEventById_missing |].
  split.
  - intros env0 input Hf0 Hfresh.
    pose proof (createEvent_well_formed env0 input db Hwf) as (Hnd' & _ & _).
    rewrite (createEvent_served env0 input db Hf0 Hfresh) in Hnd' |- *.
    change (Store.uuid env0) with (Event.id (Events.inserted_row env0 input)) at 1.
    rewrite getEventById_found; [done | done | done |].
    simpl. rewrite elem_of_app. right. by left.
  - intros env0 id Hf0. rewrite getEventById_missing; [done | done |].
    unfold Events.deleteEvent. rewrite Hf0. simpl. unfold Store.event_ids. simpl.
    intros (ev & Hid & [Hne _]%list_elem_of_filter)%list_elem_of_fmap. by apply Hne.
Qed.

Lemma getEventById_finds_exactly_the_event_witness :
  Store.fault Sample.served = None
  ∧ Store.well_formed Sample.database
  ∧ Events.getEventById Sample.served "e2" Sample.database
    = (Store.ok Sample.meetup, Sample.database)
  ∧ Events.getEventById Sample.served "e7" Sample.database
    = (Store.failed Store.no_single_row, Sample.database).
Proof.
  destruct (getEventById_finds_exactly_the_event Sample.served Sample.database eq_refl
              sample_database_well_formed) as (Hfound & Hmissing & _).
  split; [reflexivity |]. split; [exact sample_database_well_formed |].
  split.
  - apply (Hfound Sample.meetup). right. by left.
  - apply Hmissing. intros Hin. vm_compute in Hin.
    repeat (apply elem_of_cons in Hin as [Hin | Hin]; [discriminate |]).
    by apply elem_of_nil in Hin.
Defined.

Section UpdateFacts.
Import Store.

Lemma map_update_other env id input (evs : list Event.t) :
  id ∉ Event.id <$> evs →
  map (fun ev => if bool_decide (Event.id ev = id)
                 then Events.updated_row env input ev else ev) evs = evs.
Proof.
  induction evs as [|ev evs IH]; intros Hid; [done |].
  rewrite fmap_cons, not_elem_of_cons in Hid. destruct Hid as [Hne Hid].
  simpl. rewrite bool_decide_false by congruence. f_equal. by apply IH.
Qed.

Lemma elem_of_map_update env id input (evs : list Event.t) ev' :
  ev' ∈ map (fun ev => if bool_decide (Event.id ev = id)
                       then Events.updated_row env input ev else ev) evs
  ↔ (∃ ev, ev ∈ evs ∧ Event.id ev = id ∧ ev' = Events.updated_row env input ev)
    ∨ (ev' ∈ evs ∧ Event.id ev' ≠ id).
Proof.
  change (map ?f ?l) with (f <$> l). rewrite list_elem_of_fmap. split.
  - intros (ev & -> & Hev). case_bool_decide; [left; by exists ev | by right].
  - intros [(ev & Hev & Hid & ->) | [Hev Hne]].
    + exists ev. by rewrite bool_decide_true.
    + exists ev'. by rewrite bool_decide_false.
Qed.

End UpdateFacts.

(** X5. [updateEvent] on a table that keeps its primary key, for an update
    that sets at least one column. When an event carries the identifier,
    the answer is that event with the given columns replaced, the others
    kept, the identifier and [created_at] untouched and [updated_at] set to
    the time of the update by the trigger; the table holds this row in
    place of the old one, every other event and every message as before.
    When no event carries the identifier, the answer is the "no single
    row" error and nothing changes. *)
Theorem updateEvent_replaces_given_columns
    (env : Store.Env) (id : string) (input : UpdateEventInput.t) (db : Store.Database) :
  Store.fault env = None →
  Store.well_formed db →
  EventsQuery.sets_a_column input →
  let r := (Events.updateEvent env id input db).1 in
  let db' := (Events.updateEvent env id input db).2 in
  (∀ ev, ev ∈ Store.events db → Event.id ev = id →
     let ev' := Event.mk id
                  (default (Event.title ev) (UpdateEventInput.title input))
                  (default (Event.description ev) (UpdateEventInput.description input))
                  (default (Event.date ev) (UpdateEventInput.date input))
                  (default (Event.location ev) (UpdateEventInput.location input))
                  (Event.created_at ev) (Store.now env) in
     r = Store.ok ev'
     ∧ (∀ x, x ∈ Store.events db' ↔ x = ev' ∨ (x ∈ Store.events db ∧ Event.id x ≠ id)))
  ∧ (id ∉ Store.event_ids db → r = Store.failed Store.no_single_row ∧ db' = db)
  ∧ Store.event_ids db' = Store.event_ids db
  ∧ Store.chat_messages db' = Store.chat_messages db.
Proof.
  intros Hf (Hnd & _ & _) _ r db'. subst r db'.
  unfold Events.updateEvent. rewrite Hf. simpl.
  split; [| split; [| split; [| done]]].
  - intros ev Hev Hid. cbv zeta. subst id.
    rewrite (filter_key_unique Event.id) by done. simpl.
    split; [done |].
    intros x. rewrite elem_of_map_update. split.
    + intros [(ev0 & Hev0 & Hid0 & ->) | Hother]; [left | by right].
      assert (ev0 = ev) as ->; [| done].
      assert (ev0 ∈ filter (fun y => Event.id y = Event.id ev) (Store.events db)) as Hin
          by (by apply list_elem_of_filter).
      rewrite (filter_key_unique Event.id) in Hin by done.
      by apply list_elem_of_singleton in Hin.
    + intros [-> | Hother]; [left; by exists ev | by right].
  - intros Hid. rewrite (filter_key_absent Event.id) by done. simpl.
    split; [done |]. rewrite map_update_other by done. by destruct db.
  - pose proof (updateEvent_ids env id input db) as Hids.
    unfold Events.updateEvent in Hids. by rewrite Hf in Hids.
Qed.

Lemma updateEvent_replaces_given_columns_witness :
  Store.fault Sample.served = None
  ∧ Store.well_formed Sample.database
  ∧ EventsQuery.sets_a_column (UpdateEventInput.mk None None None (Some "Auditorio"))
  ∧ (Events.updateEvent Sample.served "e1"
       (UpdateEventInput.mk None None None (Some "Auditorio")) Sample.database).1
    = Store.ok (Event.mk "e1" "Launch" None "2025-01-01T18:00:00.000Z" "Auditorio" 1 100)
  ∧ Events.updateEvent Sample.served "e7"
      (UpdateEventInput.mk None None None (Some "Auditorio")) Sample.database
    = (Store.failed Store.no_single_row, Sample.database).
Proof.
  assert (EventsQuery.sets_a_column (UpdateEventInput.mk None None None (Some "Auditorio")))
    as Hsets by (right; right; right; by eexists).
  destruct (updateEvent_replaces_given_columns Sample.served "e1"
              (UpdateEventInput.mk None None None (Some "Auditorio")) Sample.database
              eq_refl sample_database_well_formed Hsets) as (Hfound & _).
  destruct (updateEvent_replaces_given_columns Sample.served "e7"
              (UpdateEventInput.mk None None None (Some "Auditorio")) Sample.database
              eq_refl sample_database_well_formed Hsets) as (_ & Hmissing & _).
  split; [reflexivity |]. split; [exact sample_database_well_formed |].
  split; [exact Hsets |]. split.
  - apply (Hfound Sample.launch); [by left | reflexivity].
  - apply injective_projections; apply Hmissing; intros Hin; vm_compute in Hin;
      repeat (apply elem_of_cons in Hin as [Hin | Hin]; [discriminate |]);
      by apply elem_of_nil in Hin.
Defined.

(** X6. Created before updated: an insert gives a row equal [created_at]
    and [updated_at], and an update moves [updated_at] to the time of the
    update, so as long as the platform's clock is not behind the creation
    time of the rows it updates, every event keeps [created_at] not after
    [updated_at] through [createEvent], [updateEvent] and [deleteEvent]. *)
Theorem events_keep_created_before_updated (env : Store.Env) (db : Store.Database) :
  EventsQuery.timestamps_ordered db →
  (∀ input, EventsQuery.timestamps_ordered (Events.createEvent env input db).2)
  ∧ (∀ id input,
       (∀ ev, ev ∈ Store.events db → Event.id ev = id →
              (Event.created_at ev <= Store.now env)%Z) →
       EventsQuery.timestamps_ordered (Events.updateEvent env id input db).2)
  ∧ (∀ id, EventsQuery.timestamps_ordered (Events.deleteEvent env id db).2).
Proof.
  intros Hord. unfold EventsQuery.timestamps_ordered in *.
  split; [| split].
  - intros input ev. unfold Events.createEvent.
    destruct (Store.fault env); [by apply Hord |].
    case_bool_decide; [by apply Hord |]. simpl.
    intros [Hev | Hev]%elem_of_app; [by apply Hord |].
    apply list_elem_of_singleton in Hev. subst ev. simpl. lia.
  - intros id input Hclock ev'. unfold Events.updateEvent.
    destruct (Store.fault env); [by apply Hord |]. simpl.
    rewrite elem_of_map_update.
    intros [(ev & Hev & Hid & ->) | [Hev _]]; [| by apply Hord].
    simpl. by apply Hclock.
  - intros id ev. unfold Events.deleteEvent.
    destruct (Store.fault env); [by apply Hord |]. simpl.
    intros [_ Hev]%list_elem_of_filter. by apply Hord.
Qed.

Lemma events_keep_created_before_updated_witness :
  EventsQuery.timestamps_ordered Sample.database
  ∧ EventsQuery.timestamps_ordered
      (Events.updateEvent Sample.served "e1"
         (UpdateEventInput.mk None None None (Some "Auditorio")) Sample.database).2.
Proof.
  assert (EventsQuery.timestamps_ordered Sample.database) as Hord.
  { intros ev Hev. simpl in Hev.
    repeat (apply elem_of_cons in Hev as [-> | Hev]); [| | by apply elem_of_nil in Hev];
      simpl; lia. }
  destruct (events_keep_created_before_updated Sample.served Sample.database Hord)
    as (_ & Hupdate & _).
  split; [exact Hord |]. apply Hupdate.
  intros ev Hev _. simpl in Hev.
  repeat (apply elem_of_cons in Hev as [-> | Hev]); [| | by apply elem_of_nil in Hev];
    simpl; lia.
Defined.



Section ListingFacts.
Import Store EventsQuery.
Variable timestamptz_in : string → Z.

#[local] Instance date_le_trans : Transitive (date_le timestamptz_in).
Proof. intros a b c. unfold date_le. lia. Qed.

#[local] Instance date_le_total : Total (date_le timestamptz_in).
Proof. intros a b. unfold date_le. lia. Qed.

Lemma getEvents_sorted (evs : list Event.t) :
  StronglySorted (date_le timestamptz_in)
                 (@merge_sort _ (date_le timestamptz_in) (date_le_dec timestamptz_in) evs).
Proof. apply StronglySorted_merge_sort; apply _. Qed.

Lemma getEvents_perm (evs : list Event.t) :
  @merge_sort _ (date_le timestamptz_in) (date_le_dec timestamptz_in) evs ≡ₚ evs.
Proof. apply merge_sort_Permutation. Qed.

End ListingFacts.

(** X8. [getEvents] leaves the tables as they are and answers either with
    the request's error and no data, or with every event of the table,
    each once, in ascending order of its date as the platform reads it;
    for an empty table the answer is the empty list, not an error. *)
Theorem getEvents_all_by_date
    (timestamptz_in : string → Z) (env : Store.Env) (db : Store.Database) :
  let r := (EventsQuery.getEvents timestamptz_in env db).1 in
  (EventsQuery.getEvents timestamptz_in env db).2 = db
  ∧ match Store.fault env with
    | Some e => r = Store.failed e
    | None =>
        ∃ rows,
          r = Store.ok rows
          ∧ rows ≡ₚ Store.events db
          ∧ StronglySorted
              (fun a b => (timestamptz_in (Event.date a) <= timestamptz_in (Event.date b))%Z)
              rows
          ∧ (Store.events db = [] → rows = [])
    end.
Proof.
  intros r. subst r. unfold EventsQuery.getEvents.
  destruct (Store.fault env) as [e|]; simpl; [done |].
  split; [done |]. eexists. split; [reflexivity |].
  split; [apply getEvents_perm |].
  split; [apply getEvents_sorted |].
  by intros ->.
Qed.

Lemma getEvents_all_by_date_witness :
  (EventsQuery.getEvents Fixture.timestamptz_in Sample.served Fixture.unsorted_database).1
  = Store.ok [Sample.launch; Sample.meetup]
  ∧ (EventsQuery.getEvents Fixture.timestamptz_in Sample.served Fixture.empty_database).1
    = Store.ok [].
Proof.
  split; [by vm_compute |].
  destruct (getEvents_all_by_date Fixture.timestamptz_in Sample.served
                                  Fixture.empty_database)
    as (_ & rows & Hrows & _ & _ & Hempty).
  rewrite Hrows. f_equal. apply Hempty. reflexivity.
Defined.

(** ** The date the form sends *)


(** X9. The date the create-event form sends denotes the instant the
    browser read from the date field: read back as an ISO 8601 timestamp it
    is that instant, to the millisecond and whatever the browser's time
    zone; and two different instants are never sent as the same text. *)
Theorem onSubmit_date_denotes_the_parsed_instant
    (Date_parse : string → option Z) (x : CreateEvent.EventFormValues)
    (w : World CreateEvent.View) (input : CreateEventInput.t) :
  requests (exec (CreateEvent.onSubmit Date_parse x) w)
  = requests w ++ [Request.createEvent input] →
  (∃ t, JsDate.Date_new Date_parse (CreateEvent.date x) = Some t
        ∧ IsoTimestamp.of_iso (CreateEventInput.date input) = Some t)
  ∧ (∀ t t', (Z.abs t <= JsDate.max_time)%Z → (Z.abs t' <= JsDate.max_time)%Z →
             JsDate.format_iso t = JsDate.format_iso t' → t = t').
Proof.
  intros Hsent. split.
  - destruct (onSubmit_requests Date_parse x w) as (Hreq & _).
    rewrite Hreq in Hsent. apply app_inv_head in Hsent.
    destruct (JsDate.Date_new Date_parse (CreateEvent.date x)) as [t|] eqn:Ht; [| done].
    injection Hsent as <-. exists t. split; [done |]. simpl.
    apply of_iso_format_iso.
    unfold JsDate.Date_new in Ht.
    destruct (Date_parse (CreateEvent.date x)) as [t0|]; [| done]. simpl in Ht.
    by apply TimeClip_bound in Ht as [-> Hb].
  - intros t t' Ht Ht' Heq.
    pose proof (of_iso_format_iso t Ht) as H1.
    pose proof (of_iso_format_iso t' Ht') as H2.
    rewrite Heq in H1. congruence.
Qed.

Lemma onSubmit_date_denotes_the_parsed_instant_witness :
  JsDate.Date_new Sample.Date_parse "2025-01-01T12:00" = Some 1735754400000%Z
  ∧ IsoTimestamp.of_iso "2025-01-01T18:00:00.000Z" = Some 1735754400000%Z.
Proof.
  destruct (onSubmit_date_denotes_the_parsed_instant
              Sample.Date_parse Sample.launch_form CreateEvent.nothing
              (CreateEventInput.mk "Launch" None "2025-01-01T18:00:00.000Z" "HQ"))
    as [(t & Ht & Hread) _]; [by vm_compute |].
  vm_compute in Ht. injection Ht as <-. split; [by vm_compute | exact Hread].
Defined.

(** X10. The form's validation asks of the date only that it is not empty,
    so a text the browser cannot read as a date passes it. The submission
    then fails before any call is made: nothing is sent, the failure is
    logged and reported once as unexpected, nothing navigates and the form
    keeps its values. *)
Theorem unreadable_date_passes_validation_and_is_caught
    (Date_parse : string → option Z) (w : World CreateEvent.View) :
  let x := CreateEvent.values (view w) in
  let w' := exec (CreateEvent.handleSubmit Date_parse) w in
  (CreateEvent.date x ≠ "" → ∀ issue, issue ∈ CreateEvent.eventSchema x → issue.1 ≠ "date")
  ∧ (CreateEvent.eventSchema x = [] →
     JsDate.Date_new Date_parse (CreateEvent.date x) = None →
     (CreateEvent.handleSubmit Date_parse w).1 = false
     ∧ requests w' = requests w
     ∧ toasts w' = toasts w ++ [Toast.error "Error inesperado al crear el evento"]
     ∧ console w' = console w ++ ["Error al crear evento:"]
     ∧ navigations w' = navigations w
     ∧ CreateEvent.values (view w') = x
     ∧ CreateEvent.errors (view w') = []).
Proof.
  intros x w'. split.
  - intros Hdate issue Hin. unfold CreateEvent.eventSchema in Hin.
    destruct (CreateEvent.date x) as [|c rest] eqn:Hd; [done |]. simpl in Hin.
    rewrite app_nil_r in Hin || idtac.
    repeat (apply elem_of_app in Hin as [Hin | Hin]);
      repeat match type of Hin with
             | _ ∈ (if ?b then _ else _) => destruct b
             | _ ∈ match ?d with Some _ => _ | None => _ end => destruct d
             | _ ∈ [_] => apply list_elem_of_singleton in Hin; subst issue
             | _ ∈ [] => by apply elem_of_nil in Hin
             end; done.
  - intros Hvalid Hparse. subst w'.
    unfold CreateEvent.handleSubmit, exec, bind, get. simpl. fold x. rewrite Hvalid.
    unfold CreateEvent.onSubmit, JsDate.toISOString. simpl. rewrite Hparse. simpl.
    repeat split.
Qed.

Lemma unreadable_date_passes_validation_and_is_caught_witness :
  CreateEvent.eventSchema Fixture.vague_form = []
  ∧ requests (exec (CreateEvent.handleSubmit Sample.Date_parse) Fixture.vague_world) = []
  ∧ toasts (exec (CreateEvent.handleSubmit Sample.Date_parse) Fixture.vague_world)
    = [Toast.error "Error inesperado al crear el evento"]
  ∧ ∀ issue, issue ∈ CreateEvent.eventSchema Fixture.vague_form → issue.1 ≠ "date".
Proof.
  destruct (unreadable_date_passes_validation_and_is_caught
              Sample.Date_parse Fixture.vague_world) as [Hrule Hcaught].
  assert (CreateEvent.eventSchema Fixture.vague_form = []) as Hvalid.
  { destruct (CreateEvent.eventSchema Fixture.vague_form) as [|issue rest] eqn:E; [done |].
    by vm_compute in E. }
  destruct (Hcaught Hvalid) as (_ & Hreq & Htoast & _); [by vm_compute |].
  split; [exact Hvalid |]. split; [exact Hreq |]. split; [exact Htoast |].
  apply Hrule. by vm_compute.
Defined.

(** ** The event-detail view between two events *)

(** Discharges the first premise of [H] by [tac]. *)
Ltac premise H tac :=
  match type of H with
  | ?P → _ => let Hx := fresh in assert P as Hx by tac; specialize (H Hx); clear Hx
  end.

(** [H] at the normal form of its statement, as [H']. *)
Ltac evaluated H H' :=
  let T := type of H in
  let N := eval vm_compute in T in
  pose proof (H <: N) as H'.

Section PageFacts.
Import Js Realtime EventDetail Lifecycle Page.
Implicit Types (w : World View) (v : View) (c old live : list (Channel View)).

Lemma set_realtime_closure_same v : set_realtime_closure (realtime_closure v) v = v.
Proof. by destruct v. Qed.

(** A state change that leaves the channels alone, followed by the commit. *)
Lemma update_run (m : Eff View unit) w :
  invariant w →
  realtime (exec m w) = realtime w →
  realtime_closure (view (exec m w)) = realtime_closure (view w) →
  ∃ old live,
    realtime w = old ++ live
    ∧ Forall (fun ch => subscribed ch = false) old
    ∧ outline <$> live = outline <$> expected_live (view w)
    ∧ exec (update m) w
      = if bool_decide (id (view w) = id (view (exec m w))
                        ∧ currentUserId (view w) = currentUserId (view (exec m w)))
        then exec m w
        else
          mkWorld (set_realtime_closure
                     (expected_closure (length (old ++ live)) (view (exec m w)))
                     (view (exec m w)))
                  ((old ++ (close <$> live)) ++ expected_live (view (exec m w)))
                  (wire (exec m w) ++ (Wire.leave <$> expected_topics (view w))
                                   ++ (Wire.join <$> expected_topics (view (exec m w))))
                  (requests (exec m w)
                   ++ if bool_decide (id (view w) = id (view (exec m w))) then []
                      else match id (view (exec m w)) with
                           | Some i =>
                               if truthy i
                               then [Request.getEventById i; Request.getMessagesByEvent i]
                               else []
                           | None => []
                           end)
                  (toasts (exec m w)) (navigations (exec m w)) (console (exec m w)).
Proof.
  intros (old & live & Hrt & Hold & Hlive & Hclosure & _) Hrt' Hc.
  exists old, live. split; [done |]. split; [done |]. split; [done |].
  rewrite exec_update. apply commit_run; congruence.
Qed.

Lemma channel_quiet h ch w :
  invariant w → realtime w !! h = Some ch → Forall quiet (bindings ch).
Proof.
  intros (_ & _ & _ & _ & _ & _ & Hquiet) Hh.
  rewrite Forall_forall in Hquiet. apply Hquiet. by eapply list_elem_of_lookup_2.
Qed.

(** A delivery triggers no effect. *)
Lemma inserted_run h new w :
  invariant w →
  exec (step (Inserted h new)) w = exec (deliver h (fun ch => trigger_insert ch new)) w.
Proof.
  intros Hinv. simpl. apply update_without_effect; [done | |];
    unfold deliver, exec; destruct (realtime w !! h) as [ch|] eqn:Hh; try done.
  simpl. apply quiet_bindings_insert. by eapply channel_quiet.
Qed.

Lemma presence_run h ev w :
  invariant w →
  exec (step (Presence h ev)) w = exec (deliver h (fun ch => trigger_presence ch ev)) w.
Proof.
  intros Hinv. simpl. apply update_without_effect; [done | |];
    unfold deliver, exec; destruct (realtime w !! h) as [ch|] eqn:Hh; try done.
  simpl. apply quiet_bindings_presence. by eapply channel_quiet.
Qed.

Lemma event_fetched_run o w :
  invariant w → exec (step (EventFetched o)) w = exec (fetchEvent_resume o) w.
Proof.
  intros Hinv. simpl.
  apply update_without_effect; [done | |]; by destruct o as [[data [e|]]|reason].
Qed.

Lemma messages_fetched_run o w :
  invariant w → exec (step (MessagesFetched o)) w = exec (fetchMessages_resume o) w.
Proof.
  intros Hinv. simpl.
  apply update_without_effect; [done | |]; by destruct o as [[data [e|]]|reason].
Qed.

Lemma typed_run text w :
  invariant w → exec (step (Typed text)) w = exec (modify (setMessageText text)) w.
Proof. intros Hinv. simpl. by apply update_without_effect. Qed.

Lemma submitted_run w :
  invariant w → exec (step Submitted) w = exec handleSendMessage w.
Proof.
  intros Hinv. simpl.
  assert (∀ w0 : World View, exec (handleSendMessage ;;; ret tt) w0 = exec handleSendMessage w0)
    as Hret by (intros w0; unfold exec, bind, ret; by destruct (handleSendMessage w0)).
  rewrite <- Hret.
  apply update_without_effect; [done | |]; rewrite Hret;
    unfold handleSendMessage, exec, bind, get; simpl;
    destruct (negb (truthy (trim (messageText (view w))))
              || negb (truthy_opt (currentUserId (view w)))
              || negb (truthy_opt (id (view w))));
    try destruct (negb (truthy_opt (currentUserId (view w)))); done.
Qed.

Lemma message_sent_run o w :
  invariant w → exec (step (MessageSent o)) w = exec (handleSendMessage_resume o) w.
Proof.
  intros Hinv. simpl.
  apply update_without_effect; [done | |]; by destruct o as [[data [e|]]|reason].
Qed.

(** *** The registrations every channel carries *)

Lemma onRemoteInsert_idem m prev :
  MessageStream.onRemoteInsert m (MessageStream.onRemoteInsert m prev)
  = MessageStream.onRemoteInsert m prev.
Proof.
  rewrite (onRemoteInsert_cases m prev). case_bool_decide as Hin.
  - rewrite onRemoteInsert_cases. by rewrite bool_decide_true.
  - rewrite onRemoteInsert_cases. rewrite bool_decide_true; [done |].
    unfold MessageStream.ids. rewrite fmap_app. apply elem_of_app. right. by left.
Qed.

Lemma messageCallback_idem new v :
  messageCallback new (messageCallback new v) = messageCallback new v.
Proof.
  unfold messageCallback, setMessages. simpl. by rewrite onRemoteInsert_idem.
Qed.

Lemma page_bindings_insert (bs : list (Binding View)) new v :
  Forall page_binding bs →
  let v' := fold_left (fun v b =>
                         match b with
                         | on_postgres_changes _ _ _ _ callback => callback new v
                         | on_presence _ _ => v
                         end) bs v in
  v' = v ∨ v' = messageCallback new v.
Proof.
  intros Hbs. revert v. induction Hbs as [|b bs Hb _ IH]; intros v; [by left |].
  simpl. destruct b as [e s t f callback | e callback]; [| apply IH].
  simpl in Hb. subst callback. right.
  destruct (IH (messageCallback new v)) as [-> | ->]; [done | apply messageCallback_idem].
Qed.

Lemma page_bindings_presence (bs : list (Binding View)) ev state v :
  Forall page_binding bs →
  let v' := fold_left (fun v b =>
                         match b with
                         | on_presence ev' callback =>
                             if same_event ev ev' then callback state v else v
                         | on_postgres_changes _ _ _ _ _ => v
                         end) bs v in
  v' = v ∨ v' = presenceCallback (length (Object_keys state)) v.
Proof.
  intros Hbs. revert v. induction Hbs as [|b bs Hb _ IH]; intros v; [by left |].
  simpl. destruct b as [e s t f callback | ev' callback]; [apply IH |].
  simpl in Hb. subst callback.
  destruct (same_event ev ev'); [| apply IH]. right.
  by destruct (IH (presenceCallback (length (Object_keys state)) v)) as [-> | ->].
Qed.

Lemma expected_live_bound v :
  Forall (fun ch => Forall page_binding (bindings ch)) (expected_live v).
Proof.
  unfold expected_live.
  destruct (id v) as [i|]; [| constructor]. destruct (truthy i); [| constructor].
  constructor; [by repeat constructor |].
  destruct (currentUserId v) as [u|]; [destruct (truthy u) |]; by repeat constructor.
Qed.

Lemma update_bound (m : Eff View unit) w :
  invariant w → bound w →
  realtime (exec m w) = realtime w →
  realtime_closure (view (exec m w)) = realtime_closure (view w) →
  bound (exec (update m) w).
Proof.
  intros Hinv Hb Hrt Hc.
  destruct (update_run m w Hinv Hrt Hc) as (old & live & Hw & _ & _ & ->).
  unfold bound in *. case_bool_decide; [by rewrite Hrt |]. simpl.
  rewrite Hw in Hb. apply Forall_app in Hb as [Hold Hlive].
  apply Forall_app. split; [| apply expected_live_bound].
  apply Forall_app. split; [done |].
  apply Forall_fmap. eapply Forall_impl; [exact Hlive | done].
Qed.

Lemma on_channel_bound h (f : Channel View → Channel View) w :
  bound w → (∀ ch, bindings (f ch) = bindings ch) → bound (exec (on_channel h f) w).
Proof.
  intros Hb Hf. unfold bound, on_channel, exec. simpl.
  apply Forall_alter; [done |]. intros ch _ Hch. by rewrite Hf.
Qed.

Lemma trigger_status_outline status clock (ch : Channel View) :
  outline (trigger_status status clock ch) = outline ch.
Proof.
  unfold trigger_status.
  destruct (status_callback ch) as [cb|]; [| done].
  destruct (presence_key ch) as [key|]; [| done].
  by destruct (cb status clock).
Qed.

Lemma step_bound i w : invariant w → bound w → bound (exec (step i) w).
Proof.
  intros Hinv Hb.
  destruct i as [param | session | o | o | h new | h status clock
                 | h key entry | h key | h ev | text | | o].
  - by apply update_bound.
  - by apply update_bound.
  - rewrite event_fetched_run by done. unfold bound.
    by destruct o as [[data [e|]]|reason].
  - rewrite messages_fetched_run by done. unfold bound.
    by destruct o as [[data [e|]]|reason].
  - rewrite inserted_run by done. unfold bound, deliver, exec.
    by destruct (realtime w !! h).
  - apply on_channel_bound; [done |]. intros ch.
    pose proof (trigger_status_outline status clock ch) as Ho.
    unfold outline in Ho. congruence.
  - by apply on_channel_bound.
  - by apply on_channel_bound.
  - rewrite presence_run by done. unfold bound, deliver, exec.
    by destruct (realtime w !! h).
  - by rewrite typed_run.
  - rewrite submitted_run by done.
    unfold bound, handleSendMessage, exec, bind, get; simpl;
      destruct (negb (truthy (trim (messageText (view w))))
                || negb (truthy_opt (currentUserId (view w)))
                || negb (truthy_opt (id (view w))));
      try destruct (negb (truthy_opt (currentUserId (view w)))); done.
  - rewrite message_sent_run by done. unfold bound.
    by destruct o as [[data [e|]]|reason].
Qed.

Lemma mount_run param :
  exec (mount param) nothing
  = mkWorld (set_realtime_closure (expected_closure 0 (initial param)) (initial param))
            (expected_live (initial param))
            (Wire.join <$> expected_topics (initial param))
            (Request.auth_getSession
             :: match param with
                | Some i =>
                    if truthy i
                    then [Request.getEventById i; Request.getMessagesByEvent i]
                    else []
                | None => []
                end)
            [] [] [].
Proof.
  unfold mount. rewrite !exec_then, realtime_effect_run, fetch_effects_run. done.
Qed.

Lemma run_bound inputs w : invariant w → bound w → bound (exec (run inputs) w).
Proof.
  unfold run, exec at 1. simpl. revert w.
  induction inputs as [|i inputs IH]; intros w Hinv Hb; [done |].
  simpl. apply IH; [by apply step_invariant | by apply step_bound].
Qed.

Lemma reachable_bound param inputs :
  bound (exec (mount param ;;; run inputs) nothing)
  ∧ invariant (exec (mount param ;;; run inputs) nothing).
Proof.
  split; [| apply reachable_invariant].
  rewrite exec_then. apply run_bound; [by apply mount_invariant |].
  unfold bound. rewrite mount_run. apply expected_live_bound.
Qed.

(** What a delivery changes. *)
Lemma deliver_insert_run h new w :
  bound w →
  let w' := exec (deliver h (fun ch => trigger_insert ch new)) w in
  (w' = w
   ∨ w' = mkWorld (messageCallback new (view w)) (realtime w) (wire w) (requests w)
                  (toasts w) (navigations w) (console w)).
Proof.
  intros Hb w'. subst w'. unfold deliver, exec.
  destruct (realtime w !! h) as [ch|] eqn:Hh; [| by left]. simpl.
  unfold bound in Hb. rewrite Forall_forall in Hb.
  destruct (page_bindings_insert (bindings ch) new (view w)) as [Hv | Hv].
  { apply Hb. by eapply list_elem_of_lookup_2. }
  - left. unfold trigger_insert. rewrite Hv. by destruct w.
  - right. unfold trigger_insert. by rewrite Hv.
Qed.

Lemma deliver_presence_run h ev w :
  bound w →
  let w' := exec (deliver h (fun ch => trigger_presence ch ev)) w in
  (w' = w
   ∨ ∃ count, w' = mkWorld (presenceCallback count (view w)) (realtime w) (wire w)
                           (requests w) (toasts w) (navigations w) (console w)).
Proof.
  intros Hb w'. subst w'. unfold deliver, exec.
  destruct (realtime w !! h) as [ch|] eqn:Hh; [| by left]. simpl.
  unfold bound in Hb. rewrite Forall_forall in Hb.
  destruct (page_bindings_presence (bindings ch) ev (presenceState ch) (view w)) as [Hv | Hv].
  { apply Hb. by eapply list_elem_of_lookup_2. }
  - left. unfold trigger_presence. rewrite Hv. by destruct w.
  - right. eexists. unfold trigger_presence. by rewrite Hv.
Qed.

(** *** The [loading] state *)

Lemma run_cons i inputs w : exec (run (i :: inputs)) w = exec (run inputs) (exec (step i) w).
Proof. reflexivity. Qed.

Lemma step_loading i w :
  invariant w → bound w →
  loading (view (exec (step i) w)) = if settles i then false else loading (view w).
Proof.
  intros Hinv Hb.
  destruct i as [param | session | o | o | h new | h status clock
                 | h key entry | h key | h ev | text | | o].
  - destruct (update_run (modify (setId param)) w Hinv eq_refl eq_refl)
      as (old & live & _ & _ & _ & Hw).
    simpl. rewrite Hw. by case_bool_decide.
  - destruct (update_run (getCurrentUser_resume session) w Hinv eq_refl eq_refl)
      as (old & live & _ & _ & _ & Hw).
    simpl. rewrite Hw. by case_bool_decide.
  - rewrite event_fetched_run by done. by destruct o as [[data [e|]]|reason].
  - rewrite messages_fetched_run by done. by destruct o as [[data [e|]]|reason].
  - rewrite inserted_run by done.
    by destruct (deliver_insert_run h new w Hb) as [-> | ->].
  - done.
  - done.
  - done.
  - rewrite presence_run by done.
    by destruct (deliver_presence_run h ev w Hb) as [-> | [count ->]].
  - by rewrite typed_run.
  - rewrite submitted_run by done.
    unfold handleSendMessage, exec, bind, get; simpl;
      destruct (negb (truthy (trim (messageText (view w))))
                || negb (truthy_opt (currentUserId (view w)))
                || negb (truthy_opt (id (view w))));
      try destruct (negb (truthy_opt (currentUserId (view w)))); done.
  - rewrite message_sent_run by done. by destruct o as [[data [e|]]|reason].
Qed.

Lemma run_loading inputs w :
  invariant w → bound w →
  (Forall (fun i => settles i = false) inputs →
   loading (view (exec (run inputs) w)) = loading (view w))
  ∧ (loading (view w) = false → loading (view (exec (run inputs) w)) = false).
Proof.
  revert w.
  induction inputs as [|i inputs IH]; intros w Hinv Hb; [done |].
  rewrite run_cons.
  destruct (IH (exec (step i) w)) as [IHkeep IHdone];
    [by apply step_invariant | by apply step_bound |].
  split.
  - intros Hall. apply Forall_cons in Hall as [Hi Hall].
    rewrite IHkeep by done. by rewrite step_loading, Hi.
  - intros Hw. apply IHdone. rewrite step_loading by done.
    by destruct (settles i).
Qed.

End PageFacts.

(** X11. A row insert or a presence event delivered to the view, through
    whatever channel, open or closed, changes at most one state variable:
    the insert leaves the view as it is or merges the row into the
    messages, the presence event leaves it as it is or stores a count.
    Neither makes a call, raises a notification, navigates, or opens or
    closes a channel. *)
Theorem realtime_delivery_changes_one_variable
    (param : option string) (inputs : list EventDetail.Input)
    (h : Realtime.RealtimeChannel) :
  let w := exec (EventDetail.mount param ;;; EventDetail.run inputs) EventDetail.nothing in
  (∀ new,
     let w' := exec (EventDetail.step (EventDetail.Inserted h new)) w in
     (view w' = view w
      ∨ view w' = EventDetail.setMessages (MessageStream.onRemoteInsert new) (view w))
     ∧ realtime w' = realtime w ∧ wire w' = wire w ∧ requests w' = requests w
     ∧ toasts w' = toasts w ∧ navigations w' = navigations w)
  ∧ (∀ ev,
       let w' := exec (EventDetail.step (EventDetail.Presence h ev)) w in
       (view w' = view w
        ∨ ∃ count, view w' = EventDetail.setOnlineUsersCount count (view w))
       ∧ realtime w' = realtime w ∧ wire w' = wire w ∧ requests w' = requests w
       ∧ toasts w' = toasts w ∧ navigations w' = navigations w).
Proof.
  intros w. destruct (reachable_bound param inputs) as [Hb Hinv]. fold w in Hb, Hinv.
  split.
  - intros new w'. subst w'. rewrite inserted_run by done.
    destruct (deliver_insert_run h new w Hb) as [-> | ->]; [by repeat split; try left |].
    simpl. repeat split; try done. by right.
  - intros ev w'. subst w'. rewrite presence_run by done.
    destruct (deliver_presence_run h ev w Hb) as [-> | [count ->]];
      [by repeat split; try left |].
    simpl. repeat split; try done. right. by exists count.
Qed.

(** X12. The view shows its skeleton until the initial fetch of the
    messages settles, and never again afterwards. An answer with the
    messages, or a call that throws, ends the [loading] state; an answer
    with an error does not, and neither does anything else that reaches the
    view, so after such an answer the skeleton stays, with the event
    fetched or not. Once [loading] is over it stays over, also while the
    view moves on to another event. *)
Theorem skeleton_until_the_message_fetch_settles
    (param : option string) (inputs : list EventDetail.Input) :
  let w := exec (EventDetail.mount param ;;; EventDetail.run inputs) EventDetail.nothing in
  (Forall (fun i => Page.settles i = false) inputs →
   EventDetail.loading (view w) = true
   ∧ EventDetail.render (view w) = EventDetail.Skeleton)
  ∧ (∀ i, Page.settles i = true →
          EventDetail.loading (view (exec (EventDetail.step i) w)) = false)
  ∧ (∀ e data,
       Page.settles (EventDetail.MessagesFetched
                       (Js.Resolved (Store.mkResponse data (Some e)))) = false)
  ∧ (EventDetail.loading (view w) = false →
     ∀ more, EventDetail.loading (view (exec (EventDetail.run more) w)) = false).
Proof.
  intros w. destruct (reachable_bound param inputs) as [Hb Hinv]. fold w in Hb, Hinv.
  split.
  { intros Hall.
    assert (EventDetail.loading (view w) = true) as Hl.
    { subst w. rewrite exec_then.
      destruct (run_loading inputs (exec (EventDetail.mount param) EventDetail.nothing))
        as [Hkeep _]; [by apply mount_invariant | |].
      - unfold Page.bound. rewrite mount_run. apply expected_live_bound.
      - rewrite Hkeep by done. by rewrite mount_run. }
    split; [done |]. unfold EventDetail.render. by rewrite Hl. }
  split.
  { intros i Hi. rewrite step_loading by done. by rewrite Hi. }
  split; [done |].
  intros Hw more. by apply run_loading.
Qed.

Lemma skeleton_until_the_message_fetch_settles_witness :
  EventDetail.event (view Fixture.stuck_world) = Some Sample.launch
  ∧ EventDetail.render (view Fixture.stuck_world) = EventDetail.Skeleton
  ∧ EventDetail.loading
      (view (exec (EventDetail.step (EventDetail.MessagesFetched (Js.Rejected "offline")))
                  Fixture.stuck_world)) = false
  ∧ EventDetail.loading
      (view (exec (EventDetail.run [EventDetail.ParamChange (Some "e2")])
                  Sample.chat_world)) = false.
Proof.
  destruct (skeleton_until_the_message_fetch_settles (Some "e1") Fixture.stuck_inputs)
    as (Hstuck & Hsettle & _ & _).
  destruct Hstuck as [_ Hskeleton]; [by repeat constructor |].
  destruct (skeleton_until_the_message_fetch_settles
              (Some "e1")
              [EventDetail.SessionResolved (Some (EventDetail.mkSession "u1" None));
               EventDetail.MessagesFetched
                 (Js.Resolved (Store.ok [Sample.message "m1" "e1" 10]));
               EventDetail.Typed "  hello "])
    as (_ & _ & _ & Hstays).
  split; [by vm_compute |]. split; [exact Hskeleton |].
  split; [apply Hsettle; reflexivity |].
  apply Hstays. by vm_compute.
Defined.

(** ** The view of a visitor *)

Section VisitorFacts.
Import Js Realtime EventDetail Lifecycle Page.
Implicit Types (w : World View) (v : View) (c old live : list (Channel View)).

Lemma inserts_only_outline (ch ch' : Channel View) :
  outline ch' = outline ch → inserts_only ch → inserts_only ch'.
Proof.
  unfold outline, inserts_only. intros [= Ht _ Hb]. by rewrite Ht, Hb.
Qed.

Lemma inserts_only_presence (ch : Channel View) ev v :
  inserts_only ch → trigger_presence ch ev v = v.
Proof.
  intros [Hbs _]. unfold trigger_presence. revert v.
  induction Hbs as [|b bs Hb _ IH]; intros v; [done |].
  simpl. destruct b; [apply IH | done].
Qed.

Lemma inserts_only_insert (ch : Channel View) new v :
  inserts_only ch →
  currentUserId (trigger_insert ch new v) = currentUserId v
  ∧ onlineUsersCount (trigger_insert ch new v) = onlineUsersCount v.
Proof.
  intros [Hbs _]. unfold trigger_insert. revert v.
  induction Hbs as [|b bs Hb _ IH]; intros v; [done |].
  simpl. destruct b as [e s t f callback |]; [| done]. subst callback.
  destruct (IH (messageCallback new v)) as [-> ->]. done.
Qed.

Lemma expected_live_visitor v :
  currentUserId v = None → Forall inserts_only (expected_live v).
Proof.
  intros Hu. unfold expected_live. rewrite Hu.
  destruct (id v) as [i|]; [| constructor]. destruct (truthy i); [| constructor].
  repeat constructor. by exists i.
Qed.

Lemma expected_topics_visitor v t :
  currentUserId v = None → t ∈ expected_topics v → ∃ i, t = "messages:" +:+ i.
Proof.
  intros Hu. unfold expected_topics, expected_live. rewrite Hu.
  destruct (id v) as [i|]; [| by intros ?%elem_of_nil].
  destruct (truthy i); [| by intros ?%elem_of_nil].
  intros ->%list_elem_of_singleton. by exists i.
Qed.

Lemma or_null_falsy o : truthy_opt (or_null o) = false → or_null o = None.
Proof. destruct o as [s|]; [| done]. simpl. by destruct (truthy s) eqn:E; simpl; rewrite ?E. Qed.

Lemma visitor_update (m : Eff View unit) w :
  invariant w → visitor w →
  realtime (exec m w) = realtime w →
  realtime_closure (view (exec m w)) = realtime_closure (view w) →
  currentUserId (view (exec m w)) = None →
  onlineUsersCount (view (exec m w)) = 0%nat →
  wire (exec m w) = wire w →
  requests (exec m w) = requests w →
  visitor (exec (update m) w).
Proof.
  intros Hinv (Hu & Hn & Hch & Hwire & Hreq) Hrt Hc Hu' Hn' Hwire' Hreq'.
  destruct (update_run m w Hinv Hrt Hc) as (old & live & Hw & _ & _ & ->).
  case_bool_decide as Hdeps.
  { unfold visitor. by rewrite Hrt, Hwire', Hreq'. }
  unfold visitor. simpl.
  split; [done |]. split; [done |].
  split.
  { rewrite Hw in Hch. apply Forall_app in Hch as [Hold Hlive].
    apply Forall_app. split; [| by apply expected_live_visitor].
    apply Forall_app. split; [done |].
    apply Forall_fmap. eapply Forall_impl; [exact Hlive |].
    intros ch. by apply inserts_only_outline. }
  split.
  { intros t. rewrite Hwire', !elem_of_app. intros [Ht | [Ht | Ht]].
    - by apply Hwire.
    - apply list_elem_of_fmap in Ht as (t' & [=] & _).
    - apply list_elem_of_fmap in Ht as (t' & [= ->] & Ht).
      by eapply expected_topics_visitor. }
  intros input. rewrite Hreq', elem_of_app. intros [Hin | Hin]; [by eapply Hreq |].
  case_bool_decide; [by apply elem_of_nil in Hin |].
  destruct (id (view (exec m w))) as [i|]; [| by apply elem_of_nil in Hin].
  destruct (truthy i); [| by apply elem_of_nil in Hin].
  repeat (apply elem_of_cons in Hin as [Hin | Hin]; [done |]).
  by apply elem_of_nil in Hin.
Qed.

Lemma visitor_on_channel h (f : Channel View → Channel View) w :
  visitor w → (∀ ch, outline (f ch) = outline ch) → visitor (exec (on_channel h f) w).
Proof.
  intros (Hu & Hn & Hch & Hwire & Hreq) Hf. unfold visitor, on_channel, exec. simpl.
  repeat split; try done.
  apply Forall_alter; [done |]. intros ch _. by apply inserts_only_outline.
Qed.

Lemma visitor_submit w :
  currentUserId (view w) = None →
  exec handleSendMessage w
  = mkWorld (view w) (realtime w) (wire w) (requests w)
            (toasts w ++ [Toast.error "Debes iniciar sesión para enviar mensajes"])
            (navigations w ++ ["/login"]) (console w).
Proof.
  intros Hu. unfold handleSendMessage, exec, bind, get. simpl. rewrite Hu. simpl.
  by rewrite orb_true_r.
Qed.

Lemma step_visitor i w :
  invariant w → visitor w → signs_in i = false → visitor (exec (step i) w).
Proof.
  intros Hinv Hv Hi. pose proof Hv as (Hu & Hn & Hch & Hwire & Hreq).
  destruct i as [param | session | o | o | h new | h status clock
                 | h key entry | h key | h ev | text | | o].
  - by apply visitor_update.
  - apply visitor_update; try done. simpl in *. by apply or_null_falsy.
  - apply visitor_update; try done; by destruct o as [[data [e|]]|reason].
  - apply visitor_update; try done; by destruct o as [[data [e|]]|reason].
  - assert (∀ ch, realtime w !! h = Some ch → inserts_only ch) as Hh.
    { intros ch Hch'. rewrite Forall_forall in Hch. apply Hch.
      by eapply list_elem_of_lookup_2. }
    apply visitor_update; try done;
      unfold deliver, exec; destruct (realtime w !! h) as [ch|] eqn:Hlook; try done; simpl.
    + pose proof (quiet_bindings_insert (bindings ch) new (view w)
                    (channel_quiet h ch w Hinv Hlook)) as Hdeps.
      unfold dependencies in Hdeps. unfold trigger_insert. congruence.
    + destruct (inserts_only_insert ch new (view w) (Hh ch eq_refl)) as [-> _]. done.
    + destruct (inserts_only_insert ch new (view w) (Hh ch eq_refl)) as [_ ->]. done.
  - apply visitor_on_channel; [done |]. intros ch. apply trigger_status_outline.
  - by apply visitor_on_channel.
  - by apply visitor_on_channel.
  - assert (exec (deliver h (fun ch => trigger_presence ch ev)) w = w) as Hsame.
    { unfold deliver, exec. destruct (realtime w !! h) as [ch|] eqn:Hlook; [| done].
      simpl. rewrite inserts_only_presence; [by destruct w |].
      rewrite Forall_forall in Hch. apply Hch. by eapply list_elem_of_lookup_2. }
    apply visitor_update; try done; by rewrite Hsame.
  - by apply visitor_update.
  - rewrite submitted_run by done. rewrite visitor_submit by done. done.
  - apply visitor_update; try done; by destruct o as [[data [e|]]|reason].
Qed.

Lemma run_visitor inputs w :
  invariant w → visitor w → Forall (fun i => signs_in i = false) inputs →
  visitor (exec (run inputs) w).
Proof.
  revert w. induction inputs as [|i inputs IH]; intros w Hinv Hv Hall; [done |].
  apply Forall_cons in Hall as [Hi Hall]. rewrite run_cons.
  apply IH; [by apply step_invariant | by apply step_visitor | done].
Qed.

Lemma mount_visitor param : visitor (exec (mount param) nothing).
Proof.
  rewrite mount_run. unfold visitor. cbn [view realtime wire requests].
  split; [done |]. split; [done |].
  split; [by apply expected_live_visitor |].
  split.
  - intros t Ht. apply list_elem_of_fmap in Ht as (t' & [= ->] & Ht).
    by apply (expected_topics_visitor (initial param)).
  - intros input Hin. apply elem_of_cons in Hin as [Hin | Hin]; [done |].
    destruct param as [i|]; [| by apply elem_of_nil in Hin].
    destruct (truthy i); [| by apply elem_of_nil in Hin].
    repeat (apply elem_of_cons in Hin as [Hin | Hin]; [done |]).
    by apply elem_of_nil in Hin.
Qed.

End VisitorFacts.

(** X13. As long as no session answer names a user, the view has no
    current user: it joins message channels only and never a presence
    channel, its count of online users stays 0, and it never makes a
    [createMessage] call; a send attempt, whatever the text, raises the
    sign-in notification and navigates to the login page instead. *)
Theorem visitor_never_joins_presence_nor_sends
    (param : option string) (inputs : list EventDetail.Input) :
  Forall (fun i => Page.signs_in i = false) inputs →
  let w := exec (EventDetail.mount param ;;; EventDetail.run inputs) EventDetail.nothing in
  let w' := exec (EventDetail.step EventDetail.Submitted) w in
  EventDetail.currentUserId (view w) = None
  ∧ EventDetail.onlineUsersCount (view w) = 0%nat
  ∧ (∀ t, Wire.join t ∈ wire w → ∃ i, t = "messages:" +:+ i)
  ∧ (∀ i, Wire.join ("presence:" +:+ i) ∉ wire w)
  ∧ (∀ input, Request.createMessage input ∉ requests w)
  ∧ requests w' = requests w
  ∧ toasts w' = toasts w ++ [Toast.error "Debes iniciar sesión para enviar mensajes"]
  ∧ navigations w' = navigations w ++ ["/login"].
Proof.
  intros Hall w w'.
  pose proof (reachable_invariant param inputs) as Hinv. fold w in Hinv.
  assert (Page.visitor w) as (Hu & Hn & _ & Hwire & Hreq).
  { subst w. rewrite exec_then.
    apply run_visitor; [by apply mount_invariant | apply mount_visitor | done]. }
  split; [done |]. split; [done |]. split; [done |].
  split.
  { intros i Hin. by destruct (Hwire _ Hin) as (i' & [=]). }
  split; [done |].
  subst w'. rewrite submitted_run by done. by rewrite visitor_submit.
Qed.

Lemma visitor_never_joins_presence_nor_sends_witness :
  wire Sample.visitor_world = [Wire.join "messages:e1"]
  ∧ EventDetail.messageText (view Sample.visitor_world) = "hello"
  ∧ requests (exec (EventDetail.step EventDetail.Submitted) Sample.visitor_world)
    = requests Sample.visitor_world
  ∧ navigations (exec (EventDetail.step EventDetail.Submitted) Sample.visitor_world)
    = ["/login"].
Proof.
  destruct (visitor_never_joins_presence_nor_sends
              (Some "e1") [EventDetail.SessionResolved None; EventDetail.Typed "hello"])
    as (_ & _ & _ & _ & _ & Hreq & _ & Hnav); [by repeat constructor |].
  split; [by vm_compute |]. split; [by vm_compute |].
  split; [exact Hreq |].
  transitivity (navigations Sample.visitor_world ++ ["/login"]); [exact Hnav | by vm_compute].
Defined.

(** ** Signing in, opening an event, sending a message *)

Section SessionFacts.
Import Js Realtime EventDetail Lifecycle Page.
Implicit Types (w : World View) (v : View) (c old live : list (Channel View)).

Lemma or_null_truthy o s : or_null o = Some s → truthy s = true.
Proof. destruct o as [s'|]; [| done]. simpl. destruct (truthy s') eqn:E; congruence. Qed.

(** A subscribed channel with a message topic is the message channel of the
    displayed event, and carries the view's merge. *)
Lemma live_messages_channel w h ch i :
  invariant w →
  realtime w !! h = Some ch → subscribed ch = true → topic ch = "messages:" +:+ i →
  id (view w) = Some i ∧ ∀ new v, trigger_insert ch new v = messageCallback new v.
Proof.
  intros (old & live & Hrt & Hold & Hlive & _ & _) Hh Hs Ht.
  rewrite Hrt in Hh. apply lookup_app_Some in Hh as [Hh | [_ Hh]].
  { rewrite Forall_forall in Hold. apply list_elem_of_lookup_2, Hold in Hh. congruence. }
  assert ((outline <$> expected_live (view w)) !! (h - length old) = Some (outline ch))
    as Hout by (by rewrite <- Hlive, list_lookup_fmap, Hh).
  unfold expected_live in Hout.
  destruct (id (view w)) as [i0|]; [| done]. destruct (truthy i0); [| done].
  destruct (h - length old) as [|[|k]].
  - injection Hout as Htopic _ Hbind. rewrite Ht in Htopic.
    assert (i0 = i) as -> by (by simplify_eq/=). split; [done |].
    intros new v. unfold trigger_insert. by rewrite <- Hbind.
  - destruct (currentUserId (view w)) as [u|]; [destruct (truthy u) |]; try done.
    injection Hout as Htopic _ _. rewrite Ht in Htopic. done.
  - by destruct (currentUserId (view w)) as [u|]; [destruct (truthy u) |].
Qed.

End SessionFacts.

(** X14. The answer of the session call sets the current user. When that
    changes the user, every open channel is left and the channels the new
    user calls for are joined, the presence channel of the event included
    once there is a user; the event and the messages are not fetched again
    and what is displayed stays. When it does not change the user, no
    channel is touched. *)
Theorem session_answer_resubscribes_without_refetching
    (param : option string) (inputs : list EventDetail.Input)
    (session : option EventDetail.Session) :
  let w := exec (EventDetail.mount param ;;; EventDetail.run inputs) EventDetail.nothing in
  let w' := exec (EventDetail.step (EventDetail.SessionResolved session)) w in
  let user := Js.or_null (EventDetail.session_user_id <$> session) in
  EventDetail.currentUserId (view w') = user
  ∧ requests w' = requests w
  ∧ EventDetail.messages (view w') = EventDetail.messages (view w)
  ∧ EventDetail.event (view w') = EventDetail.event (view w)
  ∧ (user ≠ EventDetail.currentUserId (view w) →
     wire w' = wire w ++ (Wire.leave <$> EventDetail.open_topics w)
                      ++ (Wire.join <$> EventDetail.open_topics w')
     ∧ (∀ h ch, realtime w !! h = Some ch →
                ∃ ch', realtime w' !! h = Some ch' ∧ Realtime.subscribed ch' = false)
     ∧ ∀ i u, EventDetail.id (view w) = Some i → i ≠ "" → user = Some u →
              EventDetail.open_topics w' = ["messages:" +:+ i; "presence:" +:+ i])
  ∧ (user = EventDetail.currentUserId (view w) →
     wire w' = wire w ∧ realtime w' = realtime w).
Proof.
  intros w w' user.
  pose proof (reachable_invariant param inputs) as Hinv. fold w in Hinv.
  pose proof (step_invariant (EventDetail.SessionResolved session) w Hinv) as Hinv'.
  fold w' in Hinv'.
  pose proof (invariant_open_topics w Hinv) as Hopen.
  pose proof (invariant_open_topics w' Hinv') as Hopen'.
  destruct (update_run (EventDetail.getCurrentUser_resume session) w Hinv eq_refl eq_refl)
    as (old & live & Hrt & Hold & Hlive & Hw').
  change (exec (EventDetail.update (EventDetail.getCurrentUser_resume session)) w)
    with w' in Hw'.
  assert (EventDetail.id (view (exec (EventDetail.getCurrentUser_resume session) w))
          = EventDetail.id (view w)) as Hid by done.
  assert (EventDetail.currentUserId
            (view (exec (EventDetail.getCurrentUser_resume session) w)) = user) as Hu by done.
  rewrite Hid, Hu in Hw'.
  destruct (decide (user = EventDetail.currentUserId (view w))) as [Hsame | Hnew].
  - rewrite bool_decide_true in Hw' by done.
    rewrite Hopen, Hopen', Hw'. repeat split; try done.
  - rewrite bool_decide_false in Hw' by (intros [_ ?]; done).
    rewrite bool_decide_true in Hw' by done.
    rewrite Hopen, Hopen'. rewrite Hw'. simpl.
    split; [done |]. split; [by rewrite app_nil_r |]. split; [done |]. split; [done |].
    split; [| done]. intros _.
    split; [done |]. split.
    + intros h ch Hh. rewrite Hrt in Hh.
      destruct (closed_after_cleanup old live
                  (Lifecycle.expected_live
                     (view (exec (EventDetail.getCurrentUser_resume session) w)))
                  h ch Hold Hh) as (ch' & Hh' & Hs & _).
      exists ch'. split; [| done].
      etransitivity; [| exact Hh']. f_equal.
    + intros i u Hi Hne Huser.
      pose proof (or_null_truthy _ _ Huser) as Htu.
      apply truthy_iff in Hne.
      unfold Lifecycle.expected_topics, Lifecycle.expected_live. simpl.
      fold user. rewrite Hi, Hne, Huser, Htu. done.
Qed.

Lemma session_answer_resubscribes_without_refetching_witness :
  EventDetail.currentUserId (view Sample.visitor_world) = None
  ∧ wire (exec (EventDetail.step
                  (EventDetail.SessionResolved (Some (EventDetail.mkSession "u1" None))))
               Sample.visitor_world)
    = [Wire.join "messages:e1"; Wire.leave "messages:e1";
       Wire.join "messages:e1"; Wire.join "presence:e1"].
Proof.
  destruct (session_answer_resubscribes_without_refetching
              (Some "e1") [EventDetail.SessionResolved None; EventDetail.Typed "hello"]
              (Some (EventDetail.mkSession "u1" None)))
    as (_ & _ & _ & _ & Hnew & _).
  destruct Hnew as (Hwire & _ & Hopen); [by vm_compute |].
  specialize (Hopen "e1" "u1" eq_refl ltac:(done) eq_refl).
  split; [by vm_compute |].
  etransitivity; [exact Hwire |].
  etransitivity; [apply (f_equal (fun ts => _ ++ _ ++ (Wire.join <$> ts))); exact Hopen |].
  by vm_compute.
Defined.

(** X15. What the view does with the answer of [getEventById], on a table
    that keeps its primary key. When an event carries the requested
    identifier, the view holds that event, neither notifies nor navigates,
    and touches no channel. When none does, the answer is the "no single
    row" error: the view reports its message, holds no new event and
    navigates to the list of events; the route change takes the view away,
    and the unmount it brings leaves every channel that was open. No call
    is made in either case. *)
Theorem fetched_event_is_shown_or_the_view_leaves
    (param : option string) (inputs : list EventDetail.Input)
    (env : Store.Env) (db : Store.Database) (i : string) :
  Store.fault env = None →
  Store.well_formed db →
  let w := exec (EventDetail.mount param ;;; EventDetail.run inputs) EventDetail.nothing in
  let answer := (Events.getEventById env i db).1 in
  let w' := exec (EventDetail.step (EventDetail.EventFetched (Js.Resolved answer))) w in
  (∀ ev, ev ∈ Store.events db → Event.id ev = i →
         EventDetail.event (view w') = Some ev
         ∧ toasts w' = toasts w ∧ navigations w' = navigations w
         ∧ realtime w' = realtime w ∧ wire w' = wire w)
  ∧ (i ∉ Store.event_ids db →
     EventDetail.event (view w') = EventDetail.event (view w)
     ∧ toasts w'
       = toasts w ++ [Toast.error "JSON object requested, multiple (or no) rows returned"]
     ∧ navigations w' = navigations w ++ ["/events/list"]
     ∧ wire (exec EventDetail.unmount w')
       = wire w ++ (Wire.leave <$> EventDetail.open_topics w)
     ∧ EventDetail.open_topics (exec EventDetail.unmount w') = [])
  ∧ requests w' = requests w.
Proof.
  intros Hf (Hnd & _) w answer w'.
  pose proof (reachable_invariant param inputs) as Hinv. fold w in Hinv.
  pose proof (step_invariant (EventDetail.EventFetched (Js.Resolved answer)) w Hinv)
    as Hinv'.
  fold w' in Hinv'.
  pose proof (invariant_open_topics w' Hinv') as Hopen'.
  assert (w' = exec (EventDetail.fetchEvent_resume (Js.Resolved answer)) w) as Hw'
      by (subst w'; by rewrite event_fetched_run).
  split.
  { intros ev Hev <-. rewrite Hw'. subst answer. by rewrite getEventById_found. }
  split.
  { intros Hi.
    assert (answer = Store.failed Store.no_single_row) as Hanswer
        by (subst answer; by rewrite getEventById_missing).
    assert (wire w' = wire w ∧ EventDetail.open_topics w' = EventDetail.open_topics w)
      as [Hwire Htopics] by (by rewrite Hw', Hanswer).
    split; [by rewrite Hw', Hanswer |]. split; [by rewrite Hw', Hanswer |].
    split; [by rewrite Hw', Hanswer |].
    destruct Hinv' as (old & live & Hrt & Hold & Hlive & Hclosure & _).
    unfold EventDetail.unmount.
    rewrite (realtime_cleanup_run (view w') w' old live Hrt Hlive Hclosure). simpl.
    split; [by rewrite Hwire, <- Htopics, Hopen' |].
    unfold EventDetail.open_topics. simpl. rewrite filter_app.
    rewrite (open_topics_closed old Hold). simpl.
    rewrite open_topics_closed; [done |].
    apply Forall_fmap. by apply Forall_true. }
  rewrite Hw'. by destruct answer as [data [e|]].
Qed.

Lemma fetched_event_is_shown_or_the_view_leaves_witness :
  EventDetail.event
    (view (exec (EventDetail.step
                   (EventDetail.EventFetched
                      (Js.Resolved (Events.getEventById Sample.served "e1" Sample.database).1)))
                Sample.chat_world))
  = Some Sample.launch
  ∧ navigations
      (exec (EventDetail.step
               (EventDetail.EventFetched
                  (Js.Resolved (Events.getEventById Sample.served "e9" Sample.database).1)))
            Sample.chat_world)
    = ["/events/list"]
  ∧ wire (exec EventDetail.unmount
            (exec (EventDetail.step
                     (EventDetail.EventFetched
                        (Js.Resolved
                           (Events.getEventById Sample.served "e9" Sample.database).1)))
                  Sample.chat_world))
    = [Wire.join "messages:e1"; Wire.leave "messages:e1"; Wire.join "messages:e1";
       Wire.join "presence:e1"; Wire.leave "messages:e1"; Wire.leave "presence:e1"].
Proof.
  pose proof (fetched_event_is_shown_or_the_view_leaves
                (Some "e1")
                [EventDetail.SessionResolved (Some (EventDetail.mkSession "u1" None));
                 EventDetail.MessagesFetched
                   (Js.Resolved (Store.ok [Sample.message "m1" "e1" 10]));
                 EventDetail.Typed "  hello "]
                Sample.served Sample.database) as Hopen.
  destruct (Hopen "e1" eq_refl sample_database_well_formed) as (Hfound & _).
  destruct (Hopen "e9" eq_refl sample_database_well_formed) as (_ & Hmissing & _).
  destruct (Hfound Sample.launch) as (Hev & _); [by left | done |].
  destruct Hmissing as (_ & _ & Hnav & Hwire & _).
  { apply (bool_decide_unpack _). by vm_compute. }
  evaluated Hev Hev'. evaluated Hnav Hnav'. evaluated Hwire Hwire'.
  split; [vm_compute; exact Hev' |].
  split; vm_compute; [exact Hnav' | exact Hwire'].
Defined.

(** X16. A message sent from the view comes back through the channel. With
    a user signed in, an event displayed and a text that does not trim to
    nothing, the attempt makes one [createMessage] call; on a store where
    the event and the user exist the answer is the stored row. The answer
    alone adds nothing to the displayed messages: it clears the text and
    ends [sending]. The row reaches the display when the subscribed message
    channel of the event delivers it, once, at the end unless its
    identifier is already displayed, and in whichever order the answer and
    the delivery arrive. *)
Theorem sent_message_comes_back_through_the_channel
    (param : option string) (inputs : list EventDetail.Input)
    (env : Store.Env) (db : Store.Database) (u i : string)
    (h : Realtime.RealtimeChannel) (ch : Realtime.Channel EventDetail.View) :
  let w := exec (EventDetail.mount param ;;; EventDetail.run inputs) EventDetail.nothing in
  EventDetail.currentUserId (view w) = Some u → u ≠ "" →
  Js.trim (EventDetail.messageText (view w)) ≠ "" →
  realtime w !! h = Some ch → Realtime.subscribed ch = true →
  Realtime.topic ch = "messages:" +:+ i → i ≠ "" →
  Store.fault env = None → Store.uuid env ∉ Store.message_ids db →
  i ∈ Store.event_ids db → u ∈ Store.auth_users db →
  let content := Js.trim (EventDetail.messageText (view w)) in
  let row := ChatMessage.mk (Store.uuid env) i u content (Store.now env) in
  let answer := (Messages.createMessage env (CreateMessageInput.mk i u content) db).1 in
  let w1 := exec (EventDetail.step EventDetail.Submitted) w in
  let w2 := exec (EventDetail.step (EventDetail.MessageSent (Js.Resolved answer))) w1 in
  let w3 := exec (EventDetail.step (EventDetail.Inserted h row)) w2 in
  requests w1 = requests w ++ [Request.createMessage (CreateMessageInput.mk i u content)]
  ∧ EventDetail.sending (view w1) = true
  ∧ answer = Store.ok row
  ∧ EventDetail.messages (view w2) = EventDetail.messages (view w)
  ∧ EventDetail.messageText (view w2) = ""
  ∧ EventDetail.sending (view w2) = false
  ∧ EventDetail.messages (view w3)
    = MessageStream.onRemoteInsert row (EventDetail.messages (view w))
  ∧ (Store.uuid env ∉ MessageStream.ids (EventDetail.messages (view w)) →
     EventDetail.messages (view w3) = EventDetail.messages (view w) ++ [row])
  ∧ exec (EventDetail.step (EventDetail.MessageSent (Js.Resolved answer)))
         (exec (EventDetail.step (EventDetail.Inserted h row)) w1) = w3
  ∧ requests w3 = requests w1
  ∧ toasts w3 = toasts w.
Proof.
  intros w Hu Hune Htext Hh Hs Ht Hine Hf Hfresh Hev Huser content row answer w1 w2 w3.
  pose proof (reachable_invariant param inputs) as Hinv. fold w in Hinv.
  destruct (live_messages_channel w h ch i Hinv Hh Hs Ht) as [Hi Hmerge].
  assert (answer = Store.ok row) as Hanswer.
  { subst answer. rewrite createMessage_outcome, Hf.
    rewrite bool_decide_false by done. by rewrite bool_decide_true. }
  assert (w1 = mkWorld (EventDetail.setSending true (view w)) (realtime w) (wire w)
                       (requests w ++ [Request.createMessage
                                         (CreateMessageInput.mk i u content)])
                       (toasts w) (navigations w) (console w)) as Hw1.
  { subst w1. rewrite submitted_run by done.
    by destruct (handleSendMessage_sends w u i Hu Hune Hi Hine Htext) as [_ ->]. }
  assert (Lifecycle.invariant w1) as Hinv1 by (by apply step_invariant).
  assert (w2 = mkWorld (EventDetail.setSending false
                          (EventDetail.setMessageText "" (view w1)))
                       (realtime w1) (wire w1) (requests w1) (toasts w1)
                       (navigations w1) (console w1)) as Hw2.
  { subst w2. rewrite message_sent_run by done. by rewrite Hanswer. }
  assert (Lifecycle.invariant w2) as Hinv2 by (by apply step_invariant).
  assert (w3 = mkWorld (EventDetail.messageCallback row (view w2))
                       (realtime w2) (wire w2) (requests w2) (toasts w2)
                       (navigations w2) (console w2)) as Hw3.
  { subst w3. rewrite inserted_run by done. unfold EventDetail.deliver, exec.
    rewrite Hw2, Hw1. cbn [realtime]. rewrite Hh. simpl. by rewrite Hmerge. }
  split; [by rewrite Hw1 |]. split; [by rewrite Hw1 |]. split; [done |].
  split; [by rewrite Hw2, Hw1 |]. split; [by rewrite Hw2 |]. split; [by rewrite Hw2 |].
  assert (EventDetail.messages (view w3)
          = MessageStream.onRemoteInsert row (EventDetail.messages (view w))) as Hm3
      by (by rewrite Hw3, Hw2, Hw1).
  split; [done |].
  split.
  { intros Hnew. rewrite Hm3, onRemoteInsert_cases. by rewrite bool_decide_false. }
  split.
  { set (w1' := exec (EventDetail.step (EventDetail.Inserted h row)) w1).
    assert (w1' = mkWorld (EventDetail.messageCallback row (view w1))
                          (realtime w1) (wire w1) (requests w1) (toasts w1)
                          (navigations w1) (console w1)) as Hw1'.
    { subst w1'. rewrite inserted_run by done. unfold EventDetail.deliver, exec.
      rewrite Hw1. cbn [realtime]. rewrite Hh. simpl. by rewrite Hmerge. }
    assert (Lifecycle.invariant w1') as Hinv1' by (by apply step_invariant).
    rewrite message_sent_run by done. rewrite Hanswer, Hw3, Hw2, Hw1', Hw1. done. }
  split; [by rewrite Hw3, Hw2 |]. by rewrite Hw3, Hw2, Hw1.
Qed.

Lemma sent_message_comes_back_through_the_channel_witness :
  requests (exec (EventDetail.step EventDetail.Submitted) Sample.chat_world)
  = [Request.auth_getSession; Request.getEventById "e1"; Request.getMessagesByEvent "e1";
     Request.createMessage (CreateMessageInput.mk "e1" "u1" "hello")]
  ∧ EventDetail.messages
      (view (exec (EventDetail.run
                     [EventDetail.Submitted;
                      EventDetail.MessageSent
                        (Js.Resolved (Store.ok (ChatMessage.mk "m9" "e1" "u1" "hello" 100)));
                      EventDetail.Inserted 1 (ChatMessage.mk "m9" "e1" "u1" "hello" 100)])
                  Sample.chat_world))
    = [Sample.message "m1" "e1" 10; ChatMessage.mk "m9" "e1" "u1" "hello" 100].
Proof.
  pose proof (sent_message_comes_back_through_the_channel
                (Some "e1")
                [EventDetail.SessionResolved (Some (EventDetail.mkSession "u1" None));
                 EventDetail.MessagesFetched
                   (Js.Resolved (Store.ok [Sample.message "m1" "e1" 10]));
                 EventDetail.Typed "  hello "]
                Fixture.serves_message Sample.database "u1" "e1" 1
                (Subscriptions.messages_channel "e1" EventDetail.messageCallback)) as Hsend.
  cbv zeta in Hsend.
  premise Hsend ltac:(vm_compute; reflexivity).
  premise Hsend ltac:(discriminate).
  premise Hsend ltac:(vm_compute; discriminate).
  premise Hsend ltac:(vm_compute; reflexivity).
  premise Hsend ltac:(reflexivity).
  premise Hsend ltac:(reflexivity).
  premise Hsend ltac:(discriminate).
  premise Hsend ltac:(reflexivity).
  premise Hsend ltac:(apply (bool_decide_unpack _); vm_compute; reflexivity).
  premise Hsend ltac:(apply (bool_decide_unpack _); vm_compute; reflexivity).
  premise Hsend ltac:(apply (bool_decide_unpack _); vm_compute; reflexivity).
  destruct Hsend as (Hreq & _ & _ & _ & _ & _ & _ & Hshown & _).
  premise Hshown ltac:(apply (bool_decide_unpack _); vm_compute; reflexivity).
  evaluated Hreq Hreq'. evaluated Hshown Hshown'.
  split; vm_compute; [exact Hreq' | exact Hshown'].
Defined.

(** ** Dates and users as the views show them *)

Section DisplayFacts.
Import Display.

Lemma hash_sum (chars : list Ascii.ascii) (acc : nat) :
  fold_left (fun acc char => (acc + nat_of_ascii char)%nat) chars acc
  = (acc + sum_list_with nat_of_ascii chars)%nat.
Proof.
  revert acc. induction chars as [|c chars IH]; intros acc; simpl; [lia |].
  rewrite IH. lia.
Qed.

End DisplayFacts.

(** X17. The age shown beside a message. A timestamp the browser cannot
    read is shown as it is. Otherwise, with the age taken as the clock's
    reading minus the timestamp: under one minute, and for any timestamp
    ahead of the clock, the text is "Ahora"; from one minute to under one
    hour it is the number of whole minutes, 1 to 59; from one hour to under
    one day it is the number of whole hours, 1 to 23; from one day on it is
    the formatted date. *)
Theorem formatMessageDate_shows_whole_minutes_and_hours
    (Date_parse : string → option Z) (format : Z → string) (now : Z) (dateString : string) :
  let shown := Display.formatMessageDate Date_parse format now dateString in
  (JsDate.Date_new Date_parse dateString = None → shown = dateString)
  ∧ (∀ date,
       JsDate.Date_new Date_parse dateString = Some date →
       let age := (now - date)%Z in
       ((age < 60000)%Z → shown = "Ahora")
       ∧ ((60000 <= age < 3600000)%Z →
          ∃ n, (1 <= n <= 59)%Z ∧ (n * 60000 <= age < (n + 1) * 60000)%Z
               ∧ shown = "Hace " +:+ pretty n +:+ " min")
       ∧ ((3600000 <= age < 86400000)%Z →
          ∃ n, (1 <= n <= 23)%Z ∧ (n * 3600000 <= age < (n + 1) * 3600000)%Z
               ∧ shown = "Hace " +:+ pretty n +:+ " h")
       ∧ ((86400000 <= age)%Z → shown = format date)).
Proof.
  intros shown. subst shown. unfold Display.formatMessageDate. split.
  { by intros ->. }
  intros date ->.
  set (age := (now - date)%Z).
  destruct (Z.ltb_spec (age / 1000) 60) as [H1 | H1];
    [| destruct (Z.ltb_spec (age / 1000) 3600) as [H2 | H2];
       [| destruct (Z.ltb_spec (age / 1000) 86400) as [H3 | H3]]].
  - split; [done |]. repeat split; intros H; exfalso; Z.div_mod_to_equations; lia.
  - split; [intros H; exfalso; Z.div_mod_to_equations; lia |].
    split; [| split; intros H; exfalso; Z.div_mod_to_equations; lia].
    intros H. exists (age / 1000 / 60)%Z.
    split; [Z.div_mod_to_equations; lia |]. split; [Z.div_mod_to_equations; lia | done].
  - split; [intros H; exfalso; Z.div_mod_to_equations; lia |].
    split; [intros H; exfalso; Z.div_mod_to_equations; lia |].
    split; [| intros H; exfalso; Z.div_mod_to_equations; lia].
    intros H. exists (age / 1000 / 3600)%Z.
    split; [Z.div_mod_to_equations; lia |]. split; [Z.div_mod_to_equations; lia | done].
  - split; [intros H; exfalso; Z.div_mod_to_equations; lia |].
    split; [intros H; exfalso; Z.div_mod_to_equations; lia |].
    split; [intros H; exfalso; Z.div_mod_to_equations; lia | done].
Qed.

Lemma formatMessageDate_shows_whole_minutes_and_hours_witness :
  Display.formatMessageDate IsoTimestamp.of_iso JsDate.format_iso 1735754400000 "ayer" = "ayer"
  ∧ Display.formatMessageDate IsoTimestamp.of_iso JsDate.format_iso 1735754300000
      "2025-01-01T18:00:00.000Z" = "Ahora"
  ∧ (∃ n : Z, Display.formatMessageDate IsoTimestamp.of_iso JsDate.format_iso 1735754579999
            "2025-01-01T18:00:00.000Z" = "Hace " +:+ pretty n +:+ " min"
          ∧ pretty n = "2")
  ∧ (∃ n : Z, Display.formatMessageDate IsoTimestamp.of_iso JsDate.format_iso 1735765200000
            "2025-01-01T18:00:00.000Z" = "Hace " +:+ pretty n +:+ " h"
          ∧ pretty n = "3")
  ∧ Display.formatMessageDate IsoTimestamp.of_iso JsDate.format_iso 1735840800000
      "2025-01-01T18:00:00.000Z" = "2025-01-01T18:00:00.000Z".
Proof.
  split.
  { destruct (formatMessageDate_shows_whole_minutes_and_hours
                IsoTimestamp.of_iso JsDate.format_iso 1735754400000 "ayer") as [Hecho _].
    apply Hecho. by vm_compute. }
  split.
  { destruct (formatMessageDate_shows_whole_minutes_and_hours
                IsoTimestamp.of_iso JsDate.format_iso 1735754300000
                "2025-01-01T18:00:00.000Z") as [_ Hage].
    destruct (Hage 1735754400000%Z) as (Hnow & _); [by vm_compute |].
    apply Hnow. lia. }
  split.
  { destruct (formatMessageDate_shows_whole_minutes_and_hours
                IsoTimestamp.of_iso JsDate.format_iso 1735754579999
                "2025-01-01T18:00:00.000Z") as [_ Hage].
    destruct (Hage 1735754400000%Z) as (_ & Hmin & _); [by vm_compute |].
    destruct Hmin as (n & Hn & Hbounds & Hshown); [lia |].
    exists n. split; [exact Hshown |].
    assert (n = 2%Z) as -> by lia. by vm_compute. }
  split.
  { destruct (formatMessageDate_shows_whole_minutes_and_hours
                IsoTimestamp.of_iso JsDate.format_iso 1735765200000
                "2025-01-01T18:00:00.000Z") as [_ Hage].
    destruct (Hage 1735754400000%Z) as (_ & _ & Hhours & _); [by vm_compute |].
    destruct Hhours as (n & Hn & Hbounds & Hshown); [lia |].
    exists n. split; [exact Hshown |].
    assert (n = 3%Z) as -> by lia. by vm_compute. }
  destruct (formatMessageDate_shows_whole_minutes_and_hours
              IsoTimestamp.of_iso JsDate.format_iso 1735840800000
              "2025-01-01T18:00:00.000Z") as [_ Hage].
  destruct (Hage 1735754400000%Z) as (_ & _ & _ & Hdate); [by vm_compute |].
  etransitivity; [apply Hdate; lia | by vm_compute].
Defined.

(** X18. The avatar colour of a user identifier is always one of the six
    of the palette, never a missing entry, for the empty identifier too;
    and it depends only on which characters the identifier has, not on
    their order. *)
Theorem getInitials_color_is_from_the_palette
    (toUpperCase : string → string) (userId : string) :
  (∃ c, Display.color (Display.getInitials toUpperCase userId) = Some c
        ∧ c ∈ Display.colors)
  ∧ (∀ other,
       String.list_ascii_of_string other ≡ₚ String.list_ascii_of_string userId →
       Display.color (Display.getInitials toUpperCase other)
       = Display.color (Display.getInitials toUpperCase userId)).
Proof.
  split.
  - unfold Display.getInitials. cbn [Display.color].
    destruct (lookup_lt_is_Some_2 Display.colors
                (Display.hash userId mod length Display.colors)) as [c Hc].
    { apply Nat.mod_upper_bound. discriminate. }
    exists c. split; [exact Hc |]. by eapply list_elem_of_lookup_2.
  - intros other Hperm. unfold Display.getInitials, Display.hash. cbn [Display.color].
    by rewrite !hash_sum, Hperm.
Qed.

Lemma getInitials_color_is_from_the_palette_witness :
  Display.color (Display.getInitials (fun s => s) "ab") = Some "bg-pink-500"
  ∧ Display.color (Display.getInitials (fun s => s) "ba") = Some "bg-pink-500".
Proof.
  destruct (getInitials_color_is_from_the_palette (fun s => s) "ab") as [_ Hsame].
  assert (Display.color (Display.getInitials (fun s => s) "ab") = Some "bg-pink-500")
    as Hab by (by vm_compute).
  split; [exact Hab |]. rewrite <- Hab. apply Hsame.
  simpl. apply Permutation_swap.
Defined.

(** ** The list of events *)

Section EventsListFacts.
Import Js Store EventsList.

Lemma fetchEvents_resume_view o (w : World View) :
  view (exec (fetchEvents_resume o) w)
  = mkView match o with
           | Resolved r =>
               match error r with
               | Some _ => events (view w)
               | None => default [] (data r)
               end
           | Rejected _ => events (view w)
           end false false
  ∧ navigations (exec (fetchEvents_resume o) w) = navigations w
  ∧ realtime (exec (fetchEvents_resume o) w) = realtime w.
Proof. by destruct o as [[data [e|]]|reason]. Qed.

End EventsListFacts.

(** X19. The list of events after the answer of [getEvents]. Whatever the
    answer, the loading and refreshing states end and nothing navigates,
    after a refresh as after the first fetch. When the platform serves the
    request, the view holds every event of the table, each once, in
    ascending order of date, and shows one card per event under a line
    that counts them; each card opens the detail route of its event, under
    an identifier [getEventById] finds in a table that keeps its primary
    key, and carries the "Finalizado" badge only when the event's date is
    readable and before the clock's reading. When the request fails, the
    events shown before stay and the error is reported once. *)
Theorem events_list_shows_the_table_by_date
    (timestamptz_in : string → Z) (Date_parse : string → option Z) (format : Z → string)
    (now : Z) (env : Store.Env) (db : Store.Database) (w : World EventsList.View) :
  let answer := (EventsQuery.getEvents timestamptz_in env db).1 in
  let w' := exec (EventsList.fetchEvents_resume (Js.Resolved answer)) w in
  EventsList.loading (view w') = false
  ∧ EventsList.refreshing (view w') = false
  ∧ navigations w' = navigations w
  ∧ (∀ o w0,
       let w1 := exec EventsList.handleRefresh w0 in
       let w2 := exec (EventsList.fetchEvents_resume o) w1 in
       EventsList.refreshing (view w1) = true
       ∧ EventsList.events (view w1) = EventsList.events (view w0)
       ∧ EventsList.refreshing (view w2) = false
       ∧ EventsList.loading (view w2) = false)
  ∧ (Store.fault env = None →
     EventsList.events (view w') ≡ₚ Store.events db
     ∧ StronglySorted
         (fun a b => (timestamptz_in (Event.date a) <= timestamptz_in (Event.date b))%Z)
         (EventsList.events (view w'))
     ∧ toasts w' = toasts w
     ∧ EventsList.render Date_parse format now (view w')
       = EventsList.Listing (EventsList.found_line (length (Store.events db))) false
           (EventsList.card Date_parse format now <$> EventsList.events (view w'))
     ∧ ∀ ev, ev ∈ EventsList.events (view w') →
             let c := EventsList.card Date_parse format now ev in
             EventsList.opens c = "/events/" +:+ Event.id ev
             ∧ (EventsList.finalizado c = true →
                ∃ t, JsDate.Date_new Date_parse (Event.date ev) = Some t ∧ (t < now)%Z)
             ∧ (Store.well_formed db →
                ∀ env', Store.fault env' = None →
                        (Events.getEventById env' (Event.id ev) db).1 = Store.ok ev))
  ∧ (∀ e, Store.fault env = Some e →
          EventsList.events (view w') = EventsList.events (view w)
          ∧ toasts w'
            = toasts w ++ [Toast.error (Js.or_else (Store.message e)
                                                   "Error al cargar eventos")]).
Proof.
  intros answer w'.
  destruct (fetchEvents_resume_view (Js.Resolved answer) w) as (Hview & Hnav & _).
  fold w' in Hview, Hnav.
  split; [by rewrite Hview |]. split; [by rewrite Hview |]. split; [done |].
  split.
  { intros o w0 w1 w2.
    destruct (fetchEvents_resume_view o w1) as (Hview2 & _). fold w2 in Hview2.
    by rewrite Hview2. }
  split.
  - intros Hf.
    assert (answer = Store.ok (@merge_sort _ (EventsQuery.date_le timestamptz_in)
                               (EventsQuery.date_le_dec timestamptz_in)
                                          (Store.events db))) as Hanswer.
    { subst answer. unfold EventsQuery.getEvents. by rewrite Hf. }
    assert (EventsList.events (view w')
            = @merge_sort _ (EventsQuery.date_le timestamptz_in)
                               (EventsQuery.date_le_dec timestamptz_in) 
                (Store.events db)) as Hevents
        by (by rewrite Hview, Hanswer).
    assert (EventsList.events (view w') ≡ₚ Store.events db) as Hperm
        by (rewrite Hevents; apply getEvents_perm).
    split; [exact Hperm |].
    split; [rewrite Hevents; apply getEvents_sorted |].
    split; [subst w'; by rewrite Hanswer |].
    split.
    { assert (EventsList.loading (view w') = false) as Hl by (by rewrite Hview).
      assert (EventsList.refreshing (view w') = false) as Hr by (by rewrite Hview).
      unfold EventsList.render. by rewrite Hl, Hr, (Permutation_length Hperm). }
    intros ev Hev c. split; [done |]. split.
    + subst c. unfold EventsList.card, Display.isEventPast. simpl.
      destruct (JsDate.Date_new Date_parse (Event.date ev)) as [t|]; [| done].
      intros Hlt%Z.ltb_lt. by exists t.
    + intros (Hnd & _) env' Hf'. rewrite getEventById_found; [done | done | done |].
      by rewrite <- Hperm.
  - intros e Hf.
    assert (answer = Store.failed e) as Hanswer.
    { subst answer. unfold EventsQuery.getEvents. by rewrite Hf. }
    split; [by rewrite Hview, Hanswer |]. subst w'. by rewrite Hanswer.
Qed.

Lemma events_list_shows_the_table_by_date_witness :
  EventsList.events
    (view (exec (EventsList.fetchEvents_resume
                   (Js.Resolved (EventsQuery.getEvents Fixture.timestamptz_in Sample.served
                                                       Fixture.unsorted_database).1))
                EventsList.nothing))
  ≡ₚ [Sample.meetup; Sample.launch]
  ∧ EventsList.render IsoTimestamp.of_iso JsDate.format_iso 1736000000000
      (view (exec (EventsList.fetchEvents_resume
                     (Js.Resolved (EventsQuery.getEvents Fixture.timestamptz_in Sample.served
                                                         Fixture.unsorted_database).1))
                  EventsList.nothing))
    = EventsList.Listing "2 eventos encontrados" false
        [EventsList.mkCard "Launch" true None "2025-01-01T18:00:00.000Z" "HQ" "/events/e1";
         EventsList.mkCard "Meetup" false (Some "Monthly") "2025-02-01T18:00:00.000Z" "Cafe"
                           "/events/e2"]
  ∧ toasts (exec (EventsList.fetchEvents_resume
                    (Js.Resolved (EventsQuery.getEvents
                                    Fixture.timestamptz_in
                                    (Store.mkEnv (Some Sample.unreachable) "" 0)
                                    Fixture.unsorted_database).1))
                 EventsList.nothing)
    = [Toast.error "Failed to fetch"].
Proof.
  destruct (events_list_shows_the_table_by_date
              Fixture.timestamptz_in IsoTimestamp.of_iso JsDate.format_iso 1736000000000
              Sample.served Fixture.unsorted_database EventsList.nothing)
    as (_ & _ & _ & _ & Hserved & _).
  destruct (Hserved eq_refl) as (Hperm & _ & _ & Hrender & _).
  destruct (events_list_shows_the_table_by_date
              Fixture.timestamptz_in IsoTimestamp.of_iso JsDate.format_iso 1736000000000
              (Store.mkEnv (Some Sample.unreachable) "" 0)
              Fixture.unsorted_database EventsList.nothing)
    as (_ & _ & _ & _ & _ & Hfailed).
  destruct (Hfailed Sample.unreachable eq_refl) as (_ & Htoast).
  split; [exact Hperm |].
  split; [etransitivity; [exact Hrender | by vm_compute] |].
  etransitivity; [exact Htoast | by vm_compute].
Defined.
